(** * tochkavnimanie_bot: the guards, the dispatcher, the submission dialogue
      and the text utilities, embedded from the Python sources.

    Conventions of the embedding.
    - [time.time()] and sizes in megabytes are Python floats; they are modelled
      as exact rationals ([Q]), so rounding of binary floating point is outside
      the model; where a statement of the specification depends on it, the
      expression is also given on binary64 floats
      ([ThrottlingMiddleware.Binary64]).  [datetime] values are modelled as
      integers (microseconds).
    - A Python [str] is a list of Unicode code points ([list N]).
    - A [defaultdict] keyed by the Telegram user id is a [gmap Z _] together
      with an explicit get-or-create.
    - Every clock read of the source is an explicit argument of the embedded
      function, in the order in which the source reads the clock. *)

From Stdlib Require Import ZArith NArith QArith Lqa Lia List Bool Ascii String.
From Corelib Require PrimFloat.
From stdpp Require Import gmap.

Local Open Scope Z_scope.

(** ** Comparisons on rationals as booleans *)

Definition Qltb (x y : Q) : bool :=
  match (x ?= y)%Q with Lt => true | _ => false end.

(** [int(x)] on a float: truncation toward zero. *)
Definition py_int (x : Q) : Z := Z.quot (Qnum x) (Zpos (Qden x)).

(** * bot/middlewares/throttling.py: [ThrottlingMiddleware] *)

Module ThrottlingMiddleware.

(** The per-user dictionary [{'last_time', 'warnings', 'blocked_until'}]. *)
Record user_data := mk_user_data {
  last_time : Q;
  warnings : Z;
  blocked_until : Q
}.

(** The [defaultdict] factory. *)
Definition default_user_data : user_data :=
  {| last_time := 0; warnings := 0; blocked_until := 0 |}.

(** The attributes of a middleware instance. *)
Record t := mk {
  message_limit : Q;
  callback_limit : Q;
  spam_threshold : Z;
  block_duration : Q;
  cleanup_interval : Q;
  users : gmap Z user_data;
  last_cleanup : Q
}.

Definition set_users (mw : t) (us : gmap Z user_data) : t :=
  {| message_limit := message_limit mw; callback_limit := callback_limit mw;
     spam_threshold := spam_threshold mw; block_duration := block_duration mw;
     cleanup_interval := cleanup_interval mw;
     users := us; last_cleanup := last_cleanup mw |}.

Definition set_last_cleanup (mw : t) (c : Q) : t :=
  {| message_limit := message_limit mw; callback_limit := callback_limit mw;
     spam_threshold := spam_threshold mw; block_duration := block_duration mw;
     cleanup_interval := cleanup_interval mw;
     users := users mw; last_cleanup := c |}.

(** [data['last_time'] < cutoff and data['blocked_until'] < now] *)
Definition to_remove (cutoff now : Q) (data : user_data) : bool :=
  Qltb (last_time data) cutoff && Qltb (blocked_until data) now.

(** [_cleanup_old_records]; [now] is the clock read made inside it. *)
Definition _cleanup_old_records (mw : t) (now : Q) : t :=
  if Qltb (now - last_cleanup mw) (cleanup_interval mw) then mw
  else
    let cutoff := (now - cleanup_interval mw)%Q in
    set_users (set_last_cleanup mw now)
      (filter (fun kv => to_remove cutoff now (snd kv) = false) (users mw)).

(** The inbound event, as far as the middleware inspects it. *)
Inductive event_class := Message | CallbackQuery | OtherEvent.

Record event := mk_event {
  ev_class : event_class;
  from_user : option Z
}.

Inductive notice :=
| BlockedNotice (remaining : Z)
| SpamBlockNotice.

Inductive outcome :=
| PassedToHandler
| Refused (n : option notice).

(** The [isinstance] dispatch that selects the limit. *)
Definition limit_of (mw : t) (ev : event) : option Q :=
  match ev_class ev with
  | Message => Some (message_limit mw)
  | CallbackQuery => Some (callback_limit mw)
  | OtherEvent => None
  end.

(** [self.users[user_id]] on a [defaultdict]: a missing key is inserted. *)
Definition users_getitem (us : gmap Z user_data) (user_id : Z)
  : gmap Z user_data * user_data :=
  match us !! user_id with
  | Some d => (us, d)
  | None => (<[user_id := default_user_data]> us, default_user_data)
  end.

(** [user_data] is a reference to the dictionary held in [self.users].  When
    the sweep has deleted the key in between, the reference is detached and a
    later assignment through it does not reach [self.users]. *)
Definition write_back (mw : t) (user_id : Z) (d : user_data) : t :=
  match users mw !! user_id with
  | Some _ => set_users mw (<[user_id := d]> (users mw))
  | None => mw
  end.

(** [__call__]: [now] is the read at the top of the call, [now_cleanup] the
    read made by [_cleanup_old_records].  The sum [now + block_duration] is
    exact here; the source adds binary64 floats and stores the rounded sum
    (module [Binary64] below). *)
Definition __call__ (mw : t) (ev : event) (now now_cleanup : Q) : t * outcome :=
  match limit_of mw ev with
  | None => (mw, PassedToHandler)
  | Some limit =>
    match from_user ev with
    | None => (mw, PassedToHandler)
    | Some user_id =>
      let '(us, d) := users_getitem (users mw) user_id in
      let mw := _cleanup_old_records (set_users mw us) now_cleanup in
      if Qltb now (blocked_until d) then
        (mw, Refused (Some (BlockedNotice (py_int (blocked_until d - now)))))
      else
        let time_passed := (now - last_time d)%Q in
        if Qltb time_passed limit then
          let d1 := {| last_time := now; warnings := warnings d + 1;
                       blocked_until := blocked_until d |} in
          if spam_threshold mw <=? warnings d1 then
            let d2 := {| last_time := now; warnings := 0;
                         blocked_until := (now + block_duration mw)%Q |} in
            (write_back mw user_id d2, Refused (Some SpamBlockNotice))
          else (write_back mw user_id d1, Refused None)
        else
          let w := if (0 <? warnings d) && Qltb (limit * 3) time_passed
                   then Z.max 0 (warnings d - 1) else warnings d in
          (write_back mw user_id
             {| last_time := now; warnings := w;
                blocked_until := blocked_until d |},
           PassedToHandler)
    end
  end.

(** A sequence of calls, each with its two clock reads. *)
Fixpoint run (mw : t) (calls : list (event * Q * Q)) : t * list outcome :=
  match calls with
  | [] => (mw, [])
  | (ev, now, now_cleanup) :: rest =>
    let '(mw1, o) := __call__ mw ev now now_cleanup in
    let '(mw2, os) := run mw1 rest in
    (mw2, o :: os)
  end.

(** [__init__]; [now] is the clock read that initialises [last_cleanup]. *)
Definition __init__ (message_limit callback_limit : Q) (spam_threshold : Z)
    (block_duration cleanup_interval : Q) (now : Q) : t :=
  {| message_limit := message_limit; callback_limit := callback_limit;
     spam_threshold := spam_threshold; block_duration := block_duration;
     cleanup_interval := cleanup_interval;
     users := ∅; last_cleanup := now |}.

(** The instances registered in bot/main.py ([cleanup_interval] keeps its
    default of 300 seconds). *)
Definition main_instance (now : Q) : t :=
  __init__ (1 # 2) (3 # 10) 5 60 300 now.

(** The configuration attributes, which no call assigns. *)
Definition config (mw : t) : Q * Q * Z * Q * Q :=
  (message_limit mw, callback_limit mw, spam_threshold mw,
   block_duration mw, cleanup_interval mw).


(** The clock read [now] of the last call of a sequence. *)
Fixpoint last_now (default : Q) (calls : list (event * Q * Q)) : Q :=
  match calls with
  | [] => default
  | (_, now, _) :: rest => last_now now rest
  end.

(** A concrete run: user 7 is known to a deployed instance and sends five
    messages a tenth of a second apart. *)
Definition demo_record : user_data :=
  {| last_time := 1000; warnings := 0; blocked_until := 0 |}.

Definition demo_instance : t :=
  set_users (main_instance 900) {[ 7 := demo_record ]}.

Definition demo_message : event :=
  {| ev_class := Message; from_user := Some 7 |}.

Definition demo_burst : list (event * Q * Q) :=
  [ (demo_message, 10001 # 10, 10001 # 10);
    (demo_message, 10002 # 10, 10002 # 10);
    (demo_message, 10003 # 10, 10003 # 10);
    (demo_message, 10004 # 10, 10004 # 10);
    (demo_message, 10005 # 10, 10005 # 10) ].



(** The record that [self.users[user_id]] yields: the stored one, or the
    default that the [defaultdict] creates. *)
Definition record_of (mw : t) (user_id : Z) : user_data :=
  snd (users_getitem (users mw) user_id).

(** A paced sequence of calls made for user [u]: every event is one of [u]
    and arrives, by the clock read [now] of its call, at least the limit of
    its class after [prev], the clock read of the preceding call. *)
Fixpoint paced (mw : t) (u : Z) (prev : Q) (calls : list (event * Q * Q))
  : Prop :=
  match calls with
  | [] => True
  | (ev, now, now_cleanup) :: rest =>
    from_user ev = Some u /\ (prev <= now)%Q /\
    match limit_of mw ev with
    | Some limit => (prev + limit <= now)%Q
    | None => True
    end /\
    paced mw u now rest
  end.

(** Every stored warning counter is in [0, spam_threshold). *)
Definition warnings_in_range (mw : t) : Prop :=
  forall (u : Z) (r : user_data),
    users mw !! u = Some r -> 0 <= warnings r < spam_threshold mw.

Definition demo_paced : list (event * Q * Q) :=
  [ (demo_message, 1001 # 1, 1001 # 1);
    (demo_message, 10015 # 10, 10015 # 10);
    (demo_message, 1500 # 1, 1500 # 1) ].

(** A message of another user, 8. *)
Definition demo_other_message : event :=
  {| ev_class := Message; from_user := Some 8 |}.



(** Lines 131 and 97 on binary64 floats, the type of [time.time()]: the sum
    that is stored and the difference that is read back. *)
Module Binary64.
Import PrimFloat.

Definition new_blocked_until (now block_duration : float) : float :=
  (now + block_duration)%float.

Definition remaining (blocked_until now : float) : float :=
  (blocked_until - now)%float.

(** The float that Python reads for [1000.1]. *)
Definition clock_1000_1 : float := 0x1.f40cccccccccdp+9%float.

(** The default [block_duration], as the float it is added as. *)
Definition sixty : float := 60%float.

End Binary64.

End ThrottlingMiddleware.

(** * bot/middlewares/throttling.py: [FileUploadThrottlingMiddleware] *)

Module FileUploadThrottlingMiddleware.

(** The per-user dictionary [{'files': [(timestamp, size_mb), ...],
    'last_warning': float}]. *)
Record user_data := mk_user_data {
  files : list (Q * Q);
  last_warning : Q
}.

Definition default_user_data : user_data :=
  {| files := []; last_warning := 0 |}.

Record t := mk {
  files_per_minute : Z;
  total_mb_per_hour : Q;
  users : gmap Z user_data
}.

Definition __init__ (files_per_minute : Z) (total_mb_per_hour : Q) : t :=
  {| files_per_minute := files_per_minute;
     total_mb_per_hour := total_mb_per_hour; users := ∅ |}.

(** The instance registered in bot/main.py. *)
Definition main_instance : t := __init__ 10 100.

Definition set_users (mw : t) (us : gmap Z user_data) : t :=
  {| files_per_minute := files_per_minute mw;
     total_mb_per_hour := total_mb_per_hour mw; users := us |}.

(** The fields of the event that the middleware reads. [photo] is the list of
    sizes of a photo message (empty when the message has no photo), each with
    its optional [file_size]; [document] is the optional [file_size] of an
    attached document, when there is one. *)
Record message := mk_message {
  photo : list (option Z);
  document : option (option Z);
  from_user : option Z
}.

Inductive event :=
| NotMessage
| Message (m : message).

Inductive limit_kind := FilesPerMinute | MegabytesPerHour.

Inductive outcome :=
| PassedToHandler
| Rejected (limit : limit_kind) (warned : bool)
| Raised.

(** [x or 0] on an optional integer. *)
Definition or_zero (x : option Z) : Z :=
  match x with
  | Some n => n
  | None => 0
  end.

(** The branch [if event.photo: ... elif event.document: ... else: return]:
    the size of the attachment, or [None] when the message carries none. *)
Definition attachment_size (m : message) : option Z :=
  match last (photo m) with
  | Some file_size => Some (or_zero file_size)
  | None =>
    match document m with
    | Some file_size => Some (or_zero file_size)
    | None => None
    end
  end.

Definition users_getitem (us : gmap Z user_data) (user_id : Z)
  : gmap Z user_data * user_data :=
  match us !! user_id with
  | Some d => (us, d)
  | None => (<[user_id := default_user_data]> us, default_user_data)
  end.

(** [now - ts < age] on an entry [(ts, size)]. *)
Definition younger (now age : Q) (entry : Q * Q) : bool :=
  Qltb (now - fst entry) age.

(** [sum(size for _, size in files)]: Python's [sum] adds from the left,
    starting at 0. *)
Definition sum_sizes (l : list (Q * Q)) : Q :=
  fold_left (fun acc entry => (acc + snd entry)%Q) l 0%Q.

(** [sum(1 for ts, _ in files if now - ts < 60)] *)
Definition count_younger (now age : Q) (l : list (Q * Q)) : Z :=
  Z.of_nat (length (List.filter (younger now age) l)).

(** The warning, sent at most once per 30 seconds: the new [last_warning]
    and whether the notice was sent. *)
Definition warn (now : Q) (d_last_warning : Q) : Q * bool :=
  if Qltb 30 (now - d_last_warning) then (now, true)
  else (d_last_warning, false).

Definition __call__ (mw : t) (ev : event) (now : Q) : t * outcome :=
  match ev with
  | NotMessage => (mw, PassedToHandler)
  | Message m =>
    match attachment_size m with
    | None => (mw, PassedToHandler)
    | Some file_size =>
      match from_user m with
      | None => (mw, Raised)
      | Some user_id =>
        let '(us, d) := users_getitem (users mw) user_id in
        let kept := List.filter (younger now 3600) (files d) in
        let files_last_minute := count_younger now 60 kept in
        let total_mb := sum_sizes kept in
        let file_size_mb := (inject_Z file_size / inject_Z (1024 * 1024))%Q in
        if files_per_minute mw <=? files_last_minute then
          let '(lw, warned) := warn now (last_warning d) in
          (set_users mw (<[user_id := {| files := kept; last_warning := lw |}]> us),
           Rejected FilesPerMinute warned)
        else if Qltb (total_mb_per_hour mw) (total_mb + file_size_mb) then
          let '(lw, warned) := warn now (last_warning d) in
          (set_users mw (<[user_id := {| files := kept; last_warning := lw |}]> us),
           Rejected MegabytesPerHour warned)
        else
          (set_users mw
             (<[user_id := {| files := kept ++ [(now, file_size_mb)];
                              last_warning := last_warning d |}]> us),
           PassedToHandler)
      end
    end
  end.

(** The record the middleware works on for [user_id]: the stored one, or the
    default that [defaultdict] creates. *)
Definition record_of (mw : t) (user_id : Z) : user_data :=
  snd (users_getitem (users mw) user_id).

Definition is_rejected (o : outcome) : bool :=
  match o with
  | Rejected _ _ => true
  | _ => false
  end.

(** A concrete record: one upload of 60 MB two hours ago, one of 70 MB
    ten minutes ago; the user now sends a document of 40 MB. *)
Definition demo_instance : t :=
  set_users main_instance
    {[ 7 := {| files := [(1000 # 1, 60 # 1); (7600 # 1, 70 # 1)];
               last_warning := 0 |} ]}.

Definition demo_document : event :=
  Message {| photo := []; document := Some (Some (40 * 1024 * 1024));
             from_user := Some 7 |}.

(** A sequence of calls, each with its clock read. *)
Fixpoint run (mw : t) (calls : list (event * Q)) : t * list outcome :=
  match calls with
  | [] => (mw, [])
  | (ev, now) :: rest =>
    let '(mw1, o) := __call__ mw ev now in
    let '(mw2, os) := run mw1 rest in
    (mw2, o :: os)
  end.

(** The clock read of the last call of a sequence. *)
Fixpoint last_now (default : Q) (calls : list (event * Q)) : Q :=
  match calls with
  | [] => default
  | (_, now) :: rest => last_now now rest
  end.

(** The calls of a sequence are made with a clock that does not run
    backwards, starting at [clock], and no attachment has a negative
    [file_size]. *)
Fixpoint orderly (clock : Q) (calls : list (event * Q)) : Prop :=
  match calls with
  | [] => True
  | (ev, now) :: rest =>
    (clock <= now)%Q /\
    match ev with
    | Message m =>
      match attachment_size m with
      | Some file_size => 0 <= file_size
      | None => True
      end
    | NotMessage => True
    end /\
    orderly now rest
  end.

(** The quotas hold for a record from time [clock] on. *)
Definition within_quota (mw : t) (clock : Q) (d : user_data) : Prop :=
  Forall (fun entry => (0 <= snd entry)%Q) (files d) /\
  (sum_sizes (files d) <= total_mb_per_hour mw)%Q /\
  forall now : Q, (clock <= now)%Q ->
    count_younger now 60 (files d) <= files_per_minute mw.

Definition demo_photo (size : Z) : event :=
  Message {| photo := [Some size]; document := None; from_user := Some 7 |}.

(** User 7 uploads 60 MB, then 30 MB, then tries 20 MB. *)
Definition demo_uploads : list (event * Q) :=
  [ (demo_photo (60 * 1024 * 1024), 1000 # 1);
    (demo_photo (30 * 1024 * 1024), 1010 # 1);
    (demo_photo (20 * 1024 * 1024), 1020 # 1) ].

(** The measures of the volume rule, written from its statement and not from
    the code: the entries recorded less than [age] seconds before [now], in
    the order recorded, and the sum of the sizes of a list of entries. *)
Fixpoint entries_within (now age : Q) (l : list (Q * Q)) : list (Q * Q) :=
  match l with
  | [] => []
  | (ts, size) :: rest =>
    if Qlt_le_dec (now - ts) age
    then (ts, size) :: entries_within now age rest
    else entries_within now age rest
  end.

Fixpoint total_size (l : list (Q * Q)) : Q :=
  match l with
  | [] => 0
  | (_, size) :: rest => size + total_size rest
  end.

(** An instance that allows two files per minute; user 7 has sent two
    files of 1 MB, 50 and 10 seconds before second 8200. *)
Definition demo_busy_instance : t :=
  set_users (__init__ 2 100)
    {[ 7 := {| files := [(8150 # 1, 1 # 1); (8190 # 1, 1 # 1)];
               last_warning := 0 |} ]}.

End FileUploadThrottlingMiddleware.

(** * admin/routes/broadcasts.py: [send_broadcast_task] *)

Module Broadcasts.

(** database/models.py: [BroadcastStatus] and the columns of [Broadcast] that
    the task reads or writes.  The message text and the image path are
    opaque here; they only select which transport call is made. *)
Inductive BroadcastStatus := DRAFT | SENDING | SENT | FAILED.

Record Broadcast := mk_Broadcast {
  status : BroadcastStatus;
  sent_count : Z;
  failed_count : Z;
  total_count : Z;
  sent_at : option Z
}.

(** The table of broadcasts, keyed by id. *)
Abbreviation table := (gmap Z Broadcast).

(** [crud.update_broadcast(db, broadcast_id, status=SENDING, total_count=total)]:
    an UPDATE ... WHERE id = broadcast_id, which touches no row when the id is
    absent. *)
Definition update_start (db : table) (broadcast_id : Z) (total : Z) : table :=
  alter (fun b => {| status := SENDING; sent_count := sent_count b;
                     failed_count := failed_count b; total_count := total;
                     sent_at := sent_at b |}) broadcast_id db.

(** [crud.update_broadcast(db, broadcast_id, sent_count=sent, failed_count=failed)] *)
Definition update_progress (db : table) (broadcast_id : Z) (sent failed : Z)
  : table :=
  alter (fun b => {| status := status b; sent_count := sent;
                     failed_count := failed; total_count := total_count b;
                     sent_at := sent_at b |}) broadcast_id db.

(** [crud.update_broadcast(db, broadcast_id, status=SENT, sent_count=sent,
    failed_count=failed, sent_at=datetime.now())] *)
Definition update_final (db : table) (broadcast_id : Z) (sent failed : Z)
    (now : Z) : table :=
  alter (fun b => {| status := SENT; sent_count := sent;
                     failed_count := failed; total_count := total_count b;
                     sent_at := Some now |}) broadcast_id db.

(** The state carried through the loop: the table, the two local counters and
    the recipients for which a send has been attempted, in order. *)
Record loop_state := mk_loop_state {
  db : table;
  sent : Z;
  failed : Z;
  attempted : list Z
}.

(** [enumerate(user_ids)], counting from [i]. *)
Fixpoint enumerate_from (i : nat) (user_ids : list Z) : list (nat * Z) :=
  match user_ids with
  | [] => []
  | user_id :: rest => (i, user_id) :: enumerate_from (S i) rest
  end.

Definition batch_size : Z := 50.

Section Task.

(** The transport: [send_ok i user_id] tells whether the body of the [try]
    for the [i]-th recipient returns ([true]) or raises an [Exception]
    ([false]). *)
Variable send_ok : nat -> Z -> bool.
Variable broadcast_id : Z.

(** One iteration of the [for] loop. *)
Definition loop_body (st : loop_state) (p : nat * Z) : loop_state :=
  let '(i, user_id) := p in
  let sent1 := if send_ok i user_id then sent st + 1 else sent st in
  let failed1 := if send_ok i user_id then failed st else failed st + 1 in
  let db1 := if (Z.of_nat i + 1) mod batch_size =? 0
             then update_progress (db st) broadcast_id sent1 failed1
             else db st in
  {| db := db1; sent := sent1; failed := failed1;
     attempted := attempted st ++ [user_id] |}.

(** [send_broadcast_task]: [user_ids] is the result of
    [crud.get_all_user_telegram_ids], [now] the clock read of the final
    update.  When the broadcast does not exist the task returns at once. *)
Definition send_broadcast_task (db0 : table) (user_ids : list Z) (now : Z)
  : loop_state :=
  match db0 !! broadcast_id with
  | None => {| db := db0; sent := 0; failed := 0; attempted := [] |}
  | Some _ =>
    let total := Z.of_nat (length user_ids) in
    let db1 := update_start db0 broadcast_id total in
    let st := fold_left loop_body (enumerate_from 0 user_ids)
                {| db := db1; sent := 0; failed := 0; attempted := [] |} in
    {| db := update_final (db st) broadcast_id (sent st) (failed st) now;
       sent := sent st; failed := failed st; attempted := attempted st |}
  end.

(** The number of recipients whose send raises, among [user_ids] enumerated
    from [i]. *)
Definition failures_from (i : nat) (user_ids : list Z) : Z :=
  Z.of_nat (length (List.filter (fun p => negb (send_ok (fst p) (snd p)))
                      (enumerate_from i user_ids))).

Definition failures (user_ids : list Z) : Z := failures_from 0 user_ids.

End Task.

(** A concrete run: three recipients, the second send raises. *)
Definition demo_table : table :=
  {[ 1 := {| status := DRAFT; sent_count := 0; failed_count := 0;
             total_count := 0; sent_at := None |} ]}.

Definition demo_send_ok (i : nat) (user_id : Z) : bool := negb (user_id =? 22).

(** The state of the task after the first [n] iterations of its loop. *)
Definition after_iterations (send_ok : nat -> Z -> bool) (broadcast_id : Z)
    (db0 : table) (user_ids : list Z) (n : nat) : loop_state :=
  fold_left (loop_body send_ok broadcast_id)
    (firstn n (enumerate_from 0 user_ids))
    {| db := update_start db0 broadcast_id (Z.of_nat (length user_ids));
       sent := 0; failed := 0; attempted := [] |}.

(** A hundred recipients, 1 to 100; the sends to the multiples of 10 raise. *)
Definition demo_recipients : list Z := List.map Z.of_nat (seq 1 100).

Definition demo_send_ok_10 (i : nat) (user_id : Z) : bool :=
  negb (user_id mod 10 =? 0).

End Broadcasts.

(** * Python strings *)

Module PyStr.
Local Open Scope N_scope.

(** A [str] is the list of its code points. *)
Definition str := list N.

(** An ASCII literal. *)
Definition lit (s : string) : str :=
  List.map N_of_ascii (list_ascii_of_string s).

Definition between (lo hi c : N) : bool := (lo <=? c) && (c <=? hi).

(** [str.isspace] on one code point: the whitespace set of CPython, which is
    also the set that [str.split()], [str.strip()] and the pattern [\s] use. *)
Definition isspace (c : N) : bool :=
  between 9 13 c || between 28 32 c || (c =? 133) || (c =? 160)
  || (c =? 5760) || between 8192 8202 c || (c =? 8232) || (c =? 8233)
  || (c =? 8239) || (c =? 8287) || (c =? 12288).

(** ASCII and Russian letters, digits. *)
Definition is_ascii_lower (c : N) : bool := between 97 122 c.
Definition is_ascii_upper (c : N) : bool := between 65 90 c.
Definition is_ascii_digit (c : N) : bool := between 48 57 c.
(** [а-я] is U+0430..U+044F, [А-Я] is U+0410..U+042F, [ё] is U+0451 and
    [Ё] is U+0401. *)
Definition is_cyr_lower (c : N) : bool := between 1072 1103 c || (c =? 1105).
Definition is_cyr_upper (c : N) : bool := between 1040 1071 c || (c =? 1025).

Definition hyphen : N := 45.
Definition dot : N := 46.
Definition slash : N := 47.
Definition backslash : N := 92.
Definition underscore : N := 95.
Definition at_sign : N := 64.
Definition space : N := 32.
Definition newline : N := 10.
(** U+2116, the numero sign. *)
Definition numero : N := 8470.

Definition str_eqb (a b : str) : bool := bool_decide (a = b).

(** [not s] *)
Definition is_empty (text : str) : bool :=
  match text with
  | [] => true
  | _ => false
  end.

(** [s.startswith(prefix)] *)
Fixpoint startswith (prefix s : str) : bool :=
  match prefix, s with
  | [], _ => true
  | p :: prefix', c :: s' => (p =? c) && startswith prefix' s'
  | _ :: _, [] => false
  end.

(** [s.lstrip()], [s.rstrip()], [s.strip()] *)
Fixpoint lstrip (s : str) : str :=
  match s with
  | c :: rest => if isspace c then lstrip rest else s
  | [] => []
  end.

Definition rstrip (s : str) : str := rev (lstrip (rev s)).
Definition strip (s : str) : str := rstrip (lstrip s).

(** [s.split()]: the maximal runs of characters that are not whitespace. *)
Fixpoint split (s : str) : list str :=
  match s with
  | [] => []
  | c :: rest =>
    if isspace c then split rest
    else
      let ws := split rest in
      match rest with
      | [] => [[c]]
      | c' :: _ =>
        if isspace c' then [c] :: ws
        else match ws with
             | w :: ws' => (c :: w) :: ws'
             | [] => [[c]]
             end
      end
  end.

(** [sep.join(l)] *)
Fixpoint join (sep : str) (l : list str) : str :=
  match l with
  | [] => []
  | [w] => w
  | w :: rest => w ++ sep ++ join sep rest
  end.

(** [s.replace(old, new)] for a non-empty [old]: the occurrences are found
    from the left and do not overlap.  [skip] counts the characters of an
    occurrence that are still to be passed over. *)
Fixpoint replace_from (skip : nat) (old new s : str) : str :=
  match s with
  | [] => []
  | c :: rest =>
    match skip with
    | S k => replace_from k old new rest
    | O => if startswith old s
           then new ++ replace_from (length old - 1) old new rest
           else c :: replace_from 0 old new rest
    end
  end.

Definition replace (old new s : str) : str := replace_from 0 old new s.

(** Case mapping of one code point, exact on ASCII and on the Russian
    letters; every other code point is returned as it is.  For the letters
    concerned the title case is the upper case. *)
Definition upper_char (c : N) : N :=
  if is_ascii_lower c then c - 32
  else if between 1072 1103 c then c - 32
  else if c =? 1105 then 1025
  else c.

Definition lower_char (c : N) : N :=
  if is_ascii_upper c then c + 32
  else if between 1040 1071 c then c + 32
  else if c =? 1025 then 1105
  else c.

Definition upper (s : str) : str := List.map upper_char s.
Definition lower (s : str) : str := List.map lower_char s.

(** [s.capitalize()]: the first character in title case, the rest in lower
    case. *)
Definition capitalize (s : str) : str :=
  match s with
  | [] => []
  | c :: rest => upper_char c :: lower rest
  end.

(** [re.sub(r'[^...]', '_', s)] for a negated character class: every
    character outside the class becomes an underscore. *)
Definition sub_outside (class : N -> bool) (s : str) : str :=
  List.map (fun c => if class c then c else underscore) s.

(** [str(n)] for a natural number. *)
Fixpoint digits_of (fuel : nat) (n : N) : str :=
  match fuel with
  | O => []
  | S fuel' =>
    if n <? 10 then [48 + n]
    else digits_of fuel' (n / 10) ++ [48 + n mod 10]
  end.

Definition str_of_N (n : N) : str := digits_of (S (N.size_nat n)) n.

(** A word: not empty and free of whitespace. *)
Definition is_word (w : str) : bool :=
  negb (match w with [] => true | _ => false end)
  && forallb (fun c => negb (isspace c)) w.

Definition head_nonspace (s : str) : bool :=
  match s with
  | c :: _ => negb (isspace c)
  | [] => true
  end.

End PyStr.

(** * bot/utils/validation.py *)

Module Validation.
Import PyStr.
Local Open Scope N_scope.

(** The rejection messages; the Russian text of each is in the source. *)
Inductive error :=
| fio_too_short | fio_one_word | fio_bad_chars
| city_too_short | city_bad_chars
| school_too_short
| grade_missing | grade_bad_format | grade_out_of_range.

(** The returned triple: [(False, message, None)] is [Invalid], and
    [(True, normalized, normalized)] is [Valid]. *)
Inductive result :=
| Invalid (e : error)
| Valid (normalized : str).

Definition is_letter (c : N) : bool :=
  is_cyr_lower c || is_cyr_upper c || is_ascii_lower c || is_ascii_upper c.

(** The class of [r'^[а-яёА-ЯЁa-zA-Z\s\-]+$']. *)
Definition fio_char (c : N) : bool :=
  is_letter c || isspace c || (c =? hyphen).

(** The class of [r'^[а-яёА-ЯЁa-zA-Z\s\-\.0-9]+$']. *)
Definition city_char (c : N) : bool :=
  is_letter c || isspace c || (c =? hyphen) || (c =? dot) || is_ascii_digit c.

(** [re.match(r'^[class]+$', text)] for a class that contains the newline:
    the text is not empty and all its characters are in the class. *)
Definition match_class (class : N -> bool) (text : str) : bool :=
  match text with
  | [] => false
  | _ => forallb class text
  end.

Definition validate_fio (text : str) : result :=
  if is_empty text || (length (strip text) <? 5)%nat then Invalid fio_too_short
  else
    let text := join [space] (split text) in
    let words := split text in
    if (length words <? 2)%nat then Invalid fio_one_word
    else if negb (match_class fio_char text) then Invalid fio_bad_chars
    else Valid (join [space] (List.map capitalize words)).

(** [word.capitalize() if not word[0].isdigit() else word]; the words of the
    text that reaches this point consist of letters, hyphens, dots and ASCII
    digits, for which [isdigit] is [is_ascii_digit]. *)
Definition capitalize_unless_digit (word : str) : str :=
  match word with
  | c :: _ => if is_ascii_digit c then word else capitalize word
  | [] => capitalize word
  end.

Definition validate_city (text : str) : result :=
  if is_empty text || (length (strip text) <? 2)%nat then Invalid city_too_short
  else
    let text := join [space] (split text) in
    if negb (match_class city_char text) then Invalid city_bad_chars
    else
      let words := split text in
      Valid (join [space] (List.map capitalize_unless_digit words)).

Definition validate_school (text : str) : result :=
  if is_empty text || (length (strip text) <? 3)%nat then Invalid school_too_short
  else
    let text := join [space] (split text) in
    let text := replace [space; space] [space]
                  (replace [numero] [numero; space] text) in
    Valid text.

Section Grade.

(** [validate_grade] upper-cases its whole input and lets [\d] and [int]
    accept any Unicode decimal digit, so the Unicode tables are parameters
    here: [unicode_upper] is [str.upper], and [decimal_value c] is the value
    of [c] when it is a decimal digit. *)
Variable unicode_upper : str -> str.
Variable decimal_value : N -> option N.

Definition is_decimal (c : N) : bool :=
  match decimal_value c with
  | Some _ => true
  | None => false
  end.

(** [int(digits)] *)
Definition int_of (digits : str) : N :=
  fold_left (fun acc c =>
               match decimal_value c with
               | Some v => 10 * acc + v
               | None => 10 * acc
               end) digits 0.

(** What follows the digits in [r'^(\d{1,2})\s*([А-ЯЁA-Z])?$']: optional
    whitespace, an optional upper-case letter, then the end of the text or a
    final newline.  Gives the second group when it matches. *)
Definition grade_tail (rest : str) : option (option N) :=
  match lstrip rest with
  | [] => Some None
  | [c] => if is_cyr_upper c || is_ascii_upper c then Some (Some c) else None
  | [c; c'] =>
    if (is_cyr_upper c || is_ascii_upper c) && (c' =? newline)
    then Some (Some c) else None
  | _ => None
  end.

(** [re.match(r'^(\d{1,2})\s*([А-ЯЁA-Z])?$', text)]: two digits are tried
    first, then one.  Gives the two groups. *)
Definition grade_match (text : str) : option (str * option N) :=
  let one_digit :=
    match text with
    | d1 :: rest =>
      if is_decimal d1 then
        match grade_tail rest with
        | Some g2 => Some ([d1], g2)
        | None => None
        end
      else None
    | [] => None
    end in
  match text with
  | d1 :: d2 :: rest =>
    if is_decimal d1 && is_decimal d2 then
      match grade_tail rest with
      | Some g2 => Some ([d1; d2], g2)
      | None => one_digit
      end
    else one_digit
  | _ => one_digit
  end.

Definition validate_grade (text : str) : result :=
  if is_empty text then Invalid grade_missing
  else
    let text := unicode_upper (strip text) in
    match grade_match text with
    | None => Invalid grade_bad_format
    | Some (group1, group2) =>
      let grade_num := int_of group1 in
      let grade_letter := match group2 with
                          | Some c => [c]
                          | None => []
                          end in
      if (grade_num <? 1) || (11 <? grade_num) then Invalid grade_out_of_range
      else Valid (str_of_N grade_num ++ grade_letter)
    end.

End Grade.

(** What the two replacements of [validate_school] amount to on a text whose
    only whitespace is single spaces: a space is put after every numero sign
    that is not already followed by one. *)
Fixpoint space_after_numero (s : str) : str :=
  match s with
  | [] => []
  | c :: r =>
    if c =? numero then
      match r with
      | c' :: _ =>
        if c' =? space then c :: space_after_numero r
        else c :: space :: space_after_numero r
      | [] => [c; space]
      end
    else c :: space_after_numero r
  end.

(** Every whitespace character is a space that is followed by a character
    that is not whitespace, or by nothing. *)
Fixpoint single_spaced (s : str) : bool :=
  match s with
  | [] => true
  | c :: r =>
    (if isspace c then (c =? space) && head_nonspace r else true)
    && single_spaced r
  end.

(** The characters of a normalized grade: ASCII digits and the upper-case
    letters of the pattern. *)
Definition is_grade_letter (c : N) : bool := is_cyr_upper c || is_ascii_upper c.
Definition grade_stable (c : N) : bool := is_ascii_digit c || is_grade_letter c.

(** The optional letter of a grade as a text. *)
Definition letter_text (letter : option N) : str :=
  match letter with
  | Some c => [c]
  | None => []
  end.

(** The tables restricted to ASCII and Russian. *)
Definition ascii_decimal_value (c : N) : option N :=
  if is_ascii_digit c then Some (c - 48) else None.

(** Scenario inputs.  ["иванов иван"] and its normal form. *)
Definition ivanov_ivan : str :=
  [1080; 1074; 1072; 1085; 1086; 1074; 32; 1080; 1074; 1072; 1085].
Definition Ivanov_Ivan : str :=
  [1048; 1074; 1072; 1085; 1086; 1074; 32; 1048; 1074; 1072; 1085].

(** A word of an accepted full name: its first character is an upper-case
    letter or a hyphen, the others are lower-case letters or hyphens. *)
Definition name_word (w : str) : bool :=
  match w with
  | [] => false
  | c :: rest =>
    (is_ascii_upper c || is_cyr_upper c || (c =? hyphen))
    && forallb (fun x => is_ascii_lower x || is_cyr_lower x || (x =? hyphen))
         rest
  end.

(** A full name whose second word starts with a hyphen. *)
Definition ab_cd : str := lit "ab -cd".

End Validation.

(** * bot/utils/local_storage.py *)

Module LocalStorage.
Import PyStr.
Local Open Scope N_scope.

(** The class of [r'[^a-zA-Z0-9_\-@]'] and of [r'[^a-zA-Z0-9_\-]']. *)
Definition name_char (c : N) : bool :=
  is_ascii_lower c || is_ascii_upper c || is_ascii_digit c
  || (c =? underscore) || (c =? hyphen).

Definition folder_char (c : N) : bool := name_char c || (c =? at_sign).

(** [name.replace('/', '').replace('\\', '').replace('..', '')] *)
Definition strip_separators (name : str) : str :=
  replace [dot; dot] [] (replace [backslash] [] (replace [slash] [] name)).

Definition sanitize_folder_name (name : str) : str :=
  let name := strip_separators name in
  let name := sub_outside folder_char name in
  let name := List.firstn 64 name in
  if is_empty name || str_eqb name [at_sign] then lit "unknown_user"
  else name.

(** [os.path.basename] of posixpath: what follows the last slash. *)
Definition basename (p : str) : str :=
  fold_left (fun acc c => if c =? slash then [] else acc ++ [c]) p [].

(** [p.rfind(c)], with [None] for -1. *)
Fixpoint rfind_from (i : nat) (c : N) (p : str) (found : option nat)
  : option nat :=
  match p with
  | [] => found
  | x :: rest => rfind_from (S i) c rest (if x =? c then Some i else found)
  end.

Definition rfind (c : N) (p : str) : option nat := rfind_from 0 c p None.

(** [os.path.splitext] of posixpath: the extension starts at the last dot
    of the last component, unless only dots precede it there. *)
Definition splitext (p : str) : str * str :=
  match rfind dot p with
  | None => (p, [])
  | Some dotIndex =>
    let filenameIndex := match rfind slash p with
                         | Some sepIndex => S sepIndex
                         | None => O
                         end in
    if (filenameIndex <=? dotIndex)%nat then
      if existsb (fun c => negb (c =? dot))
           (List.firstn (dotIndex - filenameIndex) (List.skipn filenameIndex p))
      then (List.firstn dotIndex p, List.skipn dotIndex p)
      else (p, [])
    else (p, [])
  end.

(** [os.path.join(a, b)] of posixpath. *)
Definition path_join (a b : str) : str :=
  if startswith [slash] b then b
  else if is_empty a || match last a with
                        | Some c => c =? slash
                        | None => false
                        end
       then a ++ b
       else a ++ [slash] ++ b.

Definition allowed_extensions : list str :=
  [lit ".jpg"; lit ".jpeg"; lit ".png"; lit ".gif"; lit ".bmp"; lit ".webp";
   lit ".pdf"; lit ".ogg"].

(** What the functions do to the file system, in order. *)
Inductive fs_op :=
| MakeDirs (path : str)
| WriteFile (path : str) (content : list N).

Inductive outcome (A : Type) :=
| Returned (value : A)
| ValueError.
Arguments Returned {A} value.
Arguments ValueError {A}.

Section Storage.

(** The environment: [str.lower] on arbitrary text, the uploads directory
    computed from the module path, and the file system as seen through
    [os.path.realpath], [os.path.exists] and [os.path.relpath]. *)
Variable unicode_lower : str -> str.
Variable UPLOADS_DIR : str.
Variable realpath : str -> str.
Variable path_exists : str -> bool.
Variable relpath : str -> str -> str.

Definition sanitize_filename (filename : str) : str :=
  let filename := basename filename in
  let filename := strip_separators filename in
  let '(name, ext) := splitext filename in
  let name := sub_outside name_char name in
  let ext := unicode_lower ext in
  let ext := if existsb (str_eqb ext) allowed_extensions then ext
             else lit ".bin" in
  let name := List.firstn 50 name in
  if is_empty name then lit "file" ++ ext else name ++ ext.

(** [get_uploads_dir]: creates the directory when it is missing. *)
Definition get_uploads_dir : list fs_op * str :=
  (if path_exists UPLOADS_DIR then [] else [MakeDirs UPLOADS_DIR], UPLOADS_DIR).

Definition create_user_folder (username : str) : list fs_op * outcome str :=
  let '(ops, base_dir) := get_uploads_dir in
  let safe_username := sanitize_folder_name username in
  let user_folder := path_join base_dir ([at_sign] ++ safe_username) in
  let real_user_folder := realpath user_folder in
  let real_base_dir := realpath base_dir in
  if negb (startswith real_base_dir real_user_folder) then (ops, ValueError)
  else
    (ops ++ (if path_exists user_folder then [] else [MakeDirs user_folder]),
     Returned user_folder).

(** [save_file]; [timestamp] is [datetime.now().strftime("%Y%m%d_%H%M%S")]. *)
Definition save_file (file_content : list N) (file_name folder_path : str)
    (timestamp : str) : list fs_op * outcome (str * str) :=
  let safe_name := sanitize_filename file_name in
  let '(name, ext) := splitext safe_name in
  let new_filename := name ++ [underscore] ++ timestamp ++ ext in
  let file_path := path_join folder_path new_filename in
  let real_file_path := realpath file_path in
  let real_uploads := realpath UPLOADS_DIR in
  if negb (startswith real_uploads real_file_path) then ([], ValueError)
  else
    let rel_path := relpath file_path UPLOADS_DIR in
    let web_url := lit "/uploads/" ++ replace [slash] [slash] rel_path in
    ([WriteFile file_path file_content], Returned (file_path, web_url)).

End Storage.

(** A path is inside a directory when it is the directory or continues it
    after a separator. *)
Definition path_inside (dir p : str) : bool :=
  str_eqb p dir || startswith (dir ++ [slash]) p.

(** A deployment: the uploads directory is /srv/bot/uploads and the folder
    of user bob, /srv/bot/uploads/@bob, is a symbolic link to the sibling
    directory /srv/bot/uploads_old/bob; nothing else is a link. *)
Definition demo_uploads : str := lit "/srv/bot/uploads".
Definition demo_link : str := lit "/srv/bot/uploads/@bob".
Definition demo_target : str := lit "/srv/bot/uploads_old/bob".

Definition demo_realpath (p : str) : str :=
  if startswith demo_link p
  then demo_target ++ List.skipn (length demo_link) p
  else p.

Definition demo_exists (p : str) : bool := true.

Definition demo_relpath (p start : str) : str :=
  List.skipn (length start + 1) p.

Definition demo_timestamp : str := lit "20240101_120000".

End LocalStorage.

(** * database/models.py and database/crud.py, as used by the bot *)

Module Crud.
Import PyStr.

Record User := mk_User {
  id : Z;
  telegram_id : Z;
  username : option str;
  full_name : option str;
  city : option str;
  school : option str;
  grade : option str
}.

Record Nomination := mk_Nomination {
  nom_id : Z;
  name : str;
  is_active : bool;
  start_date : option Z;
  deadline : option Z
}.

Record Application := mk_Application {
  app_id : Z;
  app_user_id : Z;
  nomination_id : Z;
  photos : list str;
  photos_remote_paths : list str;
  comment_text : option str;
  voice_file_id : option str;
  voice_remote_path : option str
}.

(** The tables, and the one setting that the bot reads. [photos] and
    [photos_remote_paths] hold the lists that the source stores as JSON. *)
Record database := mk_database {
  users : list User;
  nominations : list Nomination;
  applications : list Application;
  accepting_applications : option str
}.

Definition set_users (db : database) (us : list User) : database :=
  {| users := us; nominations := nominations db;
     applications := applications db;
     accepting_applications := accepting_applications db |}.

Definition set_applications (db : database) (apps : list Application)
  : database :=
  {| users := users db; nominations := nominations db;
     applications := apps;
     accepting_applications := accepting_applications db |}.

(** [get_setting(db, "accepting_applications", default)] *)
Definition get_setting_accepting (db : database) (default : str) : str :=
  match accepting_applications db with
  | Some value => value
  | None => default
  end.

(** [telegram_id] is a [BigInteger] column: the driver binds a signed
    64-bit integer and raises [OverflowError] on any other.  The queries
    below are the queries on Telegram ids in that range; they have no path
    for the error. *)
Definition big_integer (n : Z) : Prop := - 2 ^ 63 <= n < 2 ^ 63.

Definition get_user_by_telegram_id (db : database) (tg : Z) : option User :=
  List.find (fun u => telegram_id u =? tg) (users db).

(** The next value of an autoincrement key. *)
Definition next_id (ids : list Z) : Z := fold_right Z.max 0 ids + 1.

Definition create_user (db : database) (tg : Z) (uname : option str)
  : database * User :=
  let u := {| id := next_id (List.map id (users db)); telegram_id := tg;
              username := uname; full_name := None; city := None;
              school := None; grade := None |} in
  (set_users db (users db ++ [u]), u).

Definition get_or_create_user (db : database) (tg : Z) (uname : option str)
  : database * User :=
  match get_user_by_telegram_id db tg with
  | Some u => (db, u)
  | None => create_user db tg uname
  end.

(** [update_user(db, user_id, full_name=.., city=.., school=.., grade=..)] *)
Definition update_user (db : database) (user_id : Z)
    (fn ct sc gr : option str) : database :=
  set_users db
    (List.map (fun u => if id u =? user_id
                        then {| id := id u; telegram_id := telegram_id u;
                                username := username u; full_name := fn;
                                city := ct; school := sc; grade := gr |}
                        else u) (users db)).

Definition get_nomination_by_id (db : database) (n : Z) : option Nomination :=
  List.find (fun x => nom_id x =? n) (nominations db).

(** The time window test shared by [get_available_nominations] and the
    stage handler: [start_date and now < start_date], [deadline and now >
    deadline]. *)
Definition not_started (nom : Nomination) (now : Z) : bool :=
  match start_date nom with
  | Some start => now <? start
  | None => false
  end.

Definition expired (nom : Nomination) (now : Z) : bool :=
  match deadline nom with
  | Some d => d <? now
  | None => false
  end.

(** [get_available_nominations]; the ORDER BY of the query only orders the
    keyboard and is left out. *)
Definition get_available_nominations (db : database) (now : Z)
  : list Nomination :=
  List.filter (fun nom => is_active nom && negb (not_started nom now)
                          && negb (expired nom now)) (nominations db).

Definition create_application (db : database) (user_id nomination : Z)
    (photo_ids remote_paths : list str) (comment voice : option str)
    (voice_path : option str) : database * Application :=
  let a := {| app_id := next_id (List.map app_id (applications db));
              app_user_id := user_id; nomination_id := nomination;
              photos := photo_ids; photos_remote_paths := remote_paths;
              comment_text := comment; voice_file_id := voice;
              voice_remote_path := voice_path |} in
  (set_applications db (applications db ++ [a]), a).

(** The unique constraints of the table of users: the primary key [id] and
    the column [telegram_id]. *)
Definition unique_keys (db : database) : Prop :=
  NoDup (List.map telegram_id (users db)) /\ NoDup (List.map id (users db)).

(** Two users registered, the first with a profile. *)
Definition demo_users : database :=
  {| users := [ {| id := 1; telegram_id := 501; username := Some (lit "anna");
                   full_name := Some (lit "Anna Petrova");
                   city := Some (lit "Tver"); school := Some (lit "School 4");
                   grade := Some (lit "7") |};
                {| id := 2; telegram_id := 502; username := None;
                   full_name := None; city := None; school := None;
                   grade := None |} ];
     nominations := []; applications := [];
     accepting_applications := None |}.

End Crud.

(** * bot/handlers/application.py *)

Module Application.
Import PyStr Validation.

Definition MAX_FILES : nat := 5.
Definition MIN_FILES : nat := 3.
Definition MAX_VOICE_DURATION : Z := 60.

(** The states of [ApplicationForm]; the FSM state [None] is the idle
    session. *)
Inductive ApplicationForm :=
| entering_fio | entering_city | entering_school | entering_grade
| choosing_stage | uploading_photos | entering_comment.

Inductive file_kind := photo_kind | document_kind.

(** One entry of the [files] list of the session. *)
Record file_entry := mk_file_entry {
  file_id : str;
  file_unique_id : str;
  type : file_kind;
  extension : str;
  file_name : option str
}.

(** The session data.  A key that is read with [data.get(key)] is an option,
    absent or [None] alike; [files] and [file_ids] are read with
    [data.get(key, [])], so an absent key is the empty list. *)
Record fsm_data := mk_fsm_data {
  user_id : option Z;
  full_name : option str;
  city : option str;
  school : option str;
  grade : option str;
  stage_id : option Z;
  stage_name : option str;
  files : list file_entry;
  file_ids : list str;
  comment_text : option str;
  voice_file_id : option str
}.

Definition empty_data : fsm_data :=
  {| user_id := None; full_name := None; city := None; school := None;
     grade := None; stage_id := None; stage_name := None; files := [];
     file_ids := []; comment_text := None; voice_file_id := None |}.

Record FSMContext := mk_FSMContext {
  state : option ApplicationForm;
  data : fsm_data
}.

(** [state.clear()] *)
Definition clear : FSMContext := {| state := None; data := empty_data |}.

Definition set_state (ctx : FSMContext) (st : ApplicationForm) : FSMContext :=
  {| state := Some st; data := data ctx |}.

Definition set_data (ctx : FSMContext) (d : fsm_data) : FSMContext :=
  {| state := state ctx; data := d |}.

(** The [state.update_data(...)] calls of the handlers. *)
Definition update_user_id (d : fsm_data) (v : Z) : fsm_data :=
  {| user_id := Some v; full_name := full_name d; city := city d;
     school := school d; grade := grade d; stage_id := stage_id d;
     stage_name := stage_name d; files := files d; file_ids := file_ids d;
     comment_text := comment_text d; voice_file_id := voice_file_id d |}.

Definition update_profile (d : fsm_data) (fn ct sc gr : option str) : fsm_data :=
  {| user_id := user_id d; full_name := fn; city := ct; school := sc;
     grade := gr; stage_id := stage_id d; stage_name := stage_name d;
     files := files d; file_ids := file_ids d;
     comment_text := comment_text d; voice_file_id := voice_file_id d |}.

Definition update_full_name (d : fsm_data) (v : str) : fsm_data :=
  update_profile d (Some v) (city d) (school d) (grade d).
Definition update_city (d : fsm_data) (v : str) : fsm_data :=
  update_profile d (full_name d) (Some v) (school d) (grade d).
Definition update_school (d : fsm_data) (v : str) : fsm_data :=
  update_profile d (full_name d) (city d) (Some v) (grade d).
Definition update_grade (d : fsm_data) (v : str) : fsm_data :=
  update_profile d (full_name d) (city d) (school d) (Some v).

Definition update_stage (d : fsm_data) (sid : Z) (sname : str) : fsm_data :=
  {| user_id := user_id d; full_name := full_name d; city := city d;
     school := school d; grade := grade d; stage_id := Some sid;
     stage_name := Some sname; files := files d; file_ids := file_ids d;
     comment_text := comment_text d; voice_file_id := voice_file_id d |}.

Definition update_files (d : fsm_data) (fs : list file_entry) (ids : list str)
  : fsm_data :=
  {| user_id := user_id d; full_name := full_name d; city := city d;
     school := school d; grade := grade d; stage_id := stage_id d;
     stage_name := stage_name d; files := fs; file_ids := ids;
     comment_text := comment_text d; voice_file_id := voice_file_id d |}.

Definition update_comment (d : fsm_data) (comment voice : option str)
  : fsm_data :=
  {| user_id := user_id d; full_name := full_name d; city := city d;
     school := school d; grade := grade d; stage_id := stage_id d;
     stage_name := stage_name d; files := files d; file_ids := file_ids d;
     comment_text := comment; voice_file_id := voice |}.

(** The fields of the Telegram objects that the handlers read. *)
Record PhotoSize := mk_PhotoSize {
  photo_file_id : str;
  photo_file_unique_id : str;
  photo_file_size : option Z
}.

Record Document := mk_Document {
  doc_file_id : str;
  doc_file_unique_id : str;
  doc_file_name : option str;
  doc_file_size : option Z
}.

Record Voice := mk_Voice {
  voice_id : str;
  duration : Z
}.

Record TgUser := mk_TgUser {
  tg_id : Z;
  tg_username : option str
}.

Record Message := mk_Message {
  text : option str;
  photo : list PhotoSize;
  document : option Document;
  voice : option Voice;
  from_user : TgUser
}.

Record CallbackQuery := mk_CallbackQuery {
  callback_data : str;
  callback_from_user : TgUser
}.

(** What the bot sends back; each constructor stands for one message or
    alert of the source. *)
Inductive reply :=
| applications_closed | no_stages | greeting_get_stage
| get_fio | get_city | get_school | get_grade | get_stage
| validation_error (e : Validation.error)
| stage_not_found | stage_not_started | stage_timeout
| stage_chosen | get_photos
| stage_choice_cancelled | profile_update
| error_photo_count | error_file_too_large | error_wrong_format
| file_received_can_send_more (count remaining : nat)
| file_received_all
| file_received_need_more (count missing : nat)
| get_comment
| error_not_photo | error_voice_length
| already_max_files | extra_file_can_send_more (count : nat) | extra_file_all
| saving | finish
| cancelled | choose_action.

(** ["❌ Отмена"] and ["📝 Подать заявку"] *)
Definition cancel_text : str :=
  [10060; 32; 1054; 1090; 1084; 1077; 1085; 1072]%N.
Definition submit_text : str :=
  [128221; 32; 1055; 1086; 1076; 1072; 1090; 1100; 32; 1079; 1072; 1103;
   1074; 1082; 1091]%N.

(** What one handler call leaves behind: the session, the database, the
    messages sent, and whether the call ended with an exception. *)
Record outcome := mk_outcome {
  ctx : FSMContext;
  db : Crud.database;
  sent : list reply;
  raised : bool
}.

Definition done (c : FSMContext) (d : Crud.database) (out : list reply)
  : outcome :=
  {| ctx := c; db := d; sent := out; raised := false |}.

Definition raise (c : FSMContext) (d : Crud.database) (out : list reply)
  : outcome :=
  {| ctx := c; db := d; sent := out; raised := true |}.

(** What the outside world contributes to one call: the clock, and the
    result of the best-effort relocation of the files and of the voice
    comment (the paths that could be saved). *)
Record env := mk_env {
  now : Z;
  files_web_paths : list str;
  voice_web_path : option str
}.

(** Python truthiness of an optional text. *)
Definition truthy (t : option str) : bool :=
  match t with
  | Some (_ :: _) => true
  | _ => false
  end.

Definition text_is (m : Message) (t : str) : bool :=
  match text m with
  | Some x => str_eqb x t
  | None => false
  end.

(** [s.split(sep)] for a separator of one character. *)
Fixpoint split_on (sep : N) (s : str) : list str :=
  match s with
  | [] => [[]]
  | c :: rest =>
    if (c =? sep)%N then [] :: split_on sep rest
    else match split_on sep rest with
         | piece :: pieces => (c :: piece) :: pieces
         | [] => [[c]]
         end
  end.

(** [s.rsplit('.', 1)[-1]]: what follows the last dot. *)
Definition after_last_dot (s : str) : str :=
  fold_left (fun acc c => if (c =? dot)%N then [] else acc ++ [c]) s [].

(** [s.endswith(suffix)] *)
Definition endswith (suffix s : str) : bool :=
  startswith (rev suffix) (rev s).

Definition image_extensions : list str :=
  [lit ".jpg"; lit ".jpeg"; lit ".png"; lit ".gif"; lit ".bmp"; lit ".webp"].

Section Handlers.

(** The environment of the handlers that is not code of this repository:
    Python's [str.upper], [str.lower], [int] and Unicode digit table,
    [settings.max_file_size_mb] (read from the environment at start-up), and
    the filters of the router that is registered before this one
    (bot/handlers/start.py: [CommandStart()], [Command("menu")] and the
    main-menu button), whose handlers do not touch the session. *)
Variable unicode_upper : str -> str.
Variable unicode_lower : str -> str.
Variable decimal_value : N -> option N.
Variable int_of_str : str -> option Z.
Variable max_file_size_mb : Z.
Variable start_router_handles : Message -> bool.

Definition max_file_size_bytes : Z := max_file_size_mb * 1024 * 1024.

(** [validate_x(message.text)]: a message without text fails the first test
    of the validator, [not text]. *)
Definition validate_text (validate : str -> result) (missing : error)
    (t : option str) : result :=
  match t with
  | Some x => validate x
  | None => Invalid missing
  end.

Definition cancel_application (c : FSMContext) (d : Crud.database) : outcome :=
  match state c with
  | Some _ => done clear d [cancelled]
  | None => done c d [choose_action]
  end.

Definition start_application (c : FSMContext) (d : Crud.database)
    (m : Message) (e : env) : outcome :=
  let accepting := Crud.get_setting_accepting d (lit "true") in
  if negb (str_eqb (unicode_lower accepting) (lit "true"))
  then done c d [applications_closed]
  else
    let '(d, user) := Crud.get_or_create_user d (tg_id (from_user m))
                        (tg_username (from_user m)) in
    let c := set_data c (update_user_id (data c) (Crud.id user)) in
    if truthy (Crud.full_name user) && truthy (Crud.city user)
       && truthy (Crud.school user) && truthy (Crud.grade user)
    then
      let c := set_data c (update_profile (data c) (Crud.full_name user)
                             (Crud.city user) (Crud.school user)
                             (Crud.grade user)) in
      match Crud.get_available_nominations d (now e) with
      | [] => done clear d [no_stages]
      | _ :: _ => done (set_state c choosing_stage) d [greeting_get_stage]
      end
    else done (set_state c entering_fio) d [get_fio].

Definition process_fio (c : FSMContext) (d : Crud.database) (m : Message)
  : outcome :=
  if text_is m cancel_text then cancel_application c d
  else
    match validate_text validate_fio fio_too_short (text m) with
    | Invalid err => done c d [validation_error err]
    | Valid normalized =>
      done (set_state (set_data c (update_full_name (data c) normalized))
              entering_city) d [get_city]
    end.

Definition process_city (c : FSMContext) (d : Crud.database) (m : Message)
  : outcome :=
  if text_is m cancel_text then cancel_application c d
  else
    match validate_text validate_city city_too_short (text m) with
    | Invalid err => done c d [validation_error err]
    | Valid normalized =>
      done (set_state (set_data c (update_city (data c) normalized))
              entering_school) d [get_school]
    end.

Definition process_school (c : FSMContext) (d : Crud.database) (m : Message)
  : outcome :=
  if text_is m cancel_text then cancel_application c d
  else
    match validate_text validate_school school_too_short (text m) with
    | Invalid err => done c d [validation_error err]
    | Valid normalized =>
      done (set_state (set_data c (update_school (data c) normalized))
              entering_grade) d [get_grade]
    end.

Definition process_grade (c : FSMContext) (d : Crud.database) (m : Message)
    (e : env) : outcome :=
  if text_is m cancel_text then cancel_application c d
  else
    match validate_text (validate_grade unicode_upper decimal_value)
            grade_missing (text m) with
    | Invalid err => done c d [validation_error err]
    | Valid normalized =>
      let c := set_data c (update_grade (data c) normalized) in
      match Crud.get_available_nominations d (now e) with
      | [] => done clear d [no_stages]
      | _ :: _ => done (set_state c choosing_stage) d [get_stage]
      end
    end.

(** [int(callback.data.split("_")[1])] *)
Definition parse_stage_id (callback_data : str) : option Z :=
  match split_on underscore callback_data with
  | _ :: piece :: _ => int_of_str piece
  | _ => None
  end.

Definition process_stage_choice (c : FSMContext) (d : Crud.database)
    (cb : CallbackQuery) (e : env) : outcome :=
  match parse_stage_id (callback_data cb) with
  | None => raise c d []
  | Some sid =>
    match Crud.get_nomination_by_id d sid with
    | None => done c d [stage_not_found]
    | Some stage =>
      if Crud.not_started stage (now e) then done c d [stage_not_started]
      else if Crud.expired stage (now e) then done c d [stage_timeout]
      else
        let c := set_data c (update_stage (data c) (Crud.nom_id stage)
                               (Crud.name stage)) in
        let c := set_data c (update_files (data c) [] []) in
        done (set_state c uploading_photos) d [stage_chosen; get_photos]
    end
  end.

Definition cancel_stage_choice (c : FSMContext) (d : Crud.database) : outcome :=
  done clear d [stage_choice_cancelled; choose_action].

Definition change_profile_data (c : FSMContext) (d : Crud.database) : outcome :=
  done (set_state c entering_fio) d [profile_update; get_fio].

(** [_send_file_status] *)
Definition _send_file_status (c : FSMContext) (d : Crud.database)
    (fs : list file_entry) : outcome :=
  let remaining := (MAX_FILES - length fs)%nat in
  if (MIN_FILES <=? length fs)%nat then
    if (0 <? remaining)%nat then
      done (set_state c entering_comment) d
        [file_received_can_send_more (length fs) remaining; get_comment]
    else
      done (set_state c entering_comment) d [file_received_all; get_comment]
  else
    done c d [file_received_need_more (length fs) (MIN_FILES - length fs)].

(** [photo.file_size and photo.file_size > settings.max_file_size_bytes] *)
Definition photo_too_large (file_size : option Z) : bool :=
  match file_size with
  | Some n => negb (n =? 0) && (max_file_size_bytes <? n)
  | None => false
  end.

Definition photo_entry (p : PhotoSize) : file_entry :=
  {| file_id := photo_file_id p; file_unique_id := photo_file_unique_id p;
     type := photo_kind; extension := lit ".jpg"; file_name := None |}.

Definition process_photo (c : FSMContext) (d : Crud.database) (m : Message)
  : outcome :=
  let fs := files (data c) in
  let ids := file_ids (data c) in
  if (MAX_FILES <=? length fs)%nat then done c d [error_photo_count]
  else
    match last (photo m) with
    | None => raise c d []
    | Some p =>
      if photo_too_large (photo_file_size p)
      then done c d [error_file_too_large]
      else
        let ids := ids ++ [photo_file_id p] in
        let fs := fs ++ [photo_entry p] in
        let c := set_data c (update_files (data c) fs ids) in
        _send_file_status c d fs
    end.

(** The format test and the entry built by [process_document] and
    [process_extra_document]. *)
Definition is_pdf (file_name_lower : str) : bool :=
  endswith (lit ".pdf") file_name_lower.

Definition is_image (file_name_lower : str) : bool :=
  existsb (fun ext => endswith ext file_name_lower) image_extensions.

Definition document_entry (doc : Document) : file_entry :=
  let name := match doc_file_name doc with
              | Some n => n
              | None => []
              end in
  let file_name_lower := unicode_lower name in
  if is_pdf file_name_lower then
    {| file_id := doc_file_id doc; file_unique_id := doc_file_unique_id doc;
       type := document_kind; extension := lit ".pdf";
       file_name := Some name |}
  else
    {| file_id := doc_file_id doc; file_unique_id := doc_file_unique_id doc;
       type := photo_kind;
       extension := if existsb (N.eqb dot) file_name_lower
                    then dot :: after_last_dot file_name_lower
                    else lit ".jpg";
       file_name := Some name |}.

Definition wrong_format (doc : Document) : bool :=
  let name := match doc_file_name doc with
              | Some n => n
              | None => []
              end in
  let file_name_lower := unicode_lower name in
  negb (is_pdf file_name_lower) && negb (is_image file_name_lower).

Definition process_document (c : FSMContext) (d : Crud.database) (m : Message)
  : outcome :=
  let fs := files (data c) in
  let ids := file_ids (data c) in
  if (MAX_FILES <=? length fs)%nat then done c d [error_photo_count]
  else
    match document m with
    | None => raise c d []
    | Some doc =>
      if wrong_format doc then done c d [error_wrong_format]
      else
        match doc_file_size doc with
        | None => raise c d []
        | Some size =>
          if max_file_size_bytes <? size then done c d [error_file_too_large]
          else
            let ids := ids ++ [doc_file_id doc] in
            let fs := fs ++ [document_entry doc] in
            let c := set_data c (update_files (data c) fs ids) in
            _send_file_status c d fs
        end
    end.

(** [finish_application]: the profile is written back, the application row
    is created with the file ids of the session and whatever paths the
    relocation produced, and the session is cleared.  [user.id] on a missing
    user and [data['stage_id']] on a missing key raise. *)
Definition finish_application (c : FSMContext) (d : Crud.database)
    (m : Message) (e : env) (out : list reply) : outcome :=
  let out := out ++ [saving] in
  let dt := data c in
  let user := Crud.get_user_by_telegram_id d (tg_id (from_user m)) in
  let d := match user with
           | Some u => Crud.update_user d (Crud.id u) (full_name dt) (city dt)
                         (school dt) (grade dt)
           | None => d
           end in
  let voice_path := match voice_file_id dt with
                    | Some (_ :: _) => voice_web_path e
                    | _ => None
                    end in
  match user with
  | None => raise c d out
  | Some u =>
    match stage_id dt with
    | None => raise c d out
    | Some sid =>
      let '(d, _) := Crud.create_application d (Crud.id u) sid
                       (List.map file_id (files dt)) (files_web_paths e)
                       (comment_text dt) (voice_file_id dt) voice_path in
      done clear d (out ++ [finish])
    end
  end.

Definition process_voice_comment (c : FSMContext) (d : Crud.database)
    (m : Message) (e : env) : outcome :=
  match voice m with
  | None => raise c d []
  | Some v =>
    if MAX_VOICE_DURATION <? duration v then done c d [error_voice_length]
    else
      let c := set_data c (update_comment (data c) None (Some (voice_id v))) in
      finish_application c d m e []
  end.

Definition process_text_comment (c : FSMContext) (d : Crud.database)
    (m : Message) (e : env) : outcome :=
  if text_is m cancel_text then cancel_application c d
  else
    let c := set_data c (update_comment (data c) (text m) None) in
    finish_application c d m e [].

Definition process_invalid_file (c : FSMContext) (d : Crud.database)
    (m : Message) (e : env) : outcome :=
  let fs := files (data c) in
  if (MIN_FILES <=? length fs)%nat then
    let c := set_state c entering_comment in
    match voice m with
    | Some _ => process_voice_comment c d m e
    | None =>
      if truthy (text m) && negb (text_is m cancel_text)
      then process_text_comment c d m e
      else if text_is m cancel_text then cancel_application c d
      else done c d []
    end
  else done c d [error_not_photo].

Definition extra_status (fs : list file_entry) : reply :=
  if (0 <? MAX_FILES - length fs)%nat then extra_file_can_send_more (length fs)
  else extra_file_all.

Definition process_extra_photo (c : FSMContext) (d : Crud.database)
    (m : Message) : outcome :=
  let fs := files (data c) in
  let ids := file_ids (data c) in
  if (MAX_FILES <=? length fs)%nat then done c d [already_max_files]
  else
    match last (photo m) with
    | None => raise c d []
    | Some p =>
      let ids := ids ++ [photo_file_id p] in
      let fs := fs ++ [photo_entry p] in
      let c := set_data c (update_files (data c) fs ids) in
      done c d [extra_status fs]
    end.

Definition process_extra_document (c : FSMContext) (d : Crud.database)
    (m : Message) : outcome :=
  let fs := files (data c) in
  let ids := file_ids (data c) in
  if (MAX_FILES <=? length fs)%nat then done c d [already_max_files]
  else
    match document m with
    | None => raise c d []
    | Some doc =>
      if wrong_format doc then done c d [error_wrong_format]
      else
        match doc_file_size doc with
        | None => raise c d []
        | Some size =>
          if max_file_size_bytes <? size then done c d [error_file_too_large]
          else
            let ids := ids ++ [doc_file_id doc] in
            let fs := fs ++ [document_entry doc] in
            let c := set_data c (update_files (data c) fs ids) in
            done c d [extra_status fs]
        end
    end.

(** The filters [F.photo], [F.document], [F.voice], [F.text]. *)
Definition has_photo (m : Message) : bool :=
  match photo m with
  | [] => false
  | _ :: _ => true
  end.

Definition has_document (m : Message) : bool :=
  match document m with
  | Some _ => true
  | None => false
  end.

Definition has_voice (m : Message) : bool :=
  match voice m with
  | Some _ => true
  | None => false
  end.

Inductive event :=
| MessageEvent (m : Message)
| CallbackEvent (cb : CallbackQuery).

(** The routing of one event: the handlers are tried in the order of their
    registration and the first whose filters match is called.  [None] means
    that no handler of this router (and none of the start router that would
    touch the session) takes the event. *)
Definition route_message (c : FSMContext) (d : Crud.database) (m : Message)
    (e : env) : option outcome :=
  if start_router_handles m then None
  else if text_is m submit_text then Some (start_application c d m e)
  else
    match state c with
    | Some entering_fio => Some (process_fio c d m)
    | Some entering_city => Some (process_city c d m)
    | Some entering_school => Some (process_school c d m)
    | Some entering_grade => Some (process_grade c d m e)
    | Some uploading_photos =>
      if has_photo m then Some (process_photo c d m)
      else if has_document m then Some (process_document c d m)
      else if text_is m cancel_text then Some (cancel_application c d)
      else Some (process_invalid_file c d m e)
    | Some entering_comment =>
      if has_voice m then Some (process_voice_comment c d m e)
      else if truthy (text m) then Some (process_text_comment c d m e)
      else if has_photo m then Some (process_extra_photo c d m)
      else if has_document m then Some (process_extra_document c d m)
      else None
    | Some choosing_stage | None =>
      if text_is m cancel_text then Some (cancel_application c d) else None
    end.

Definition route_callback (c : FSMContext) (d : Crud.database)
    (cb : CallbackQuery) (e : env) : option outcome :=
  match state c with
  | Some choosing_stage =>
    if startswith (lit "stage_") (callback_data cb)
    then Some (process_stage_choice c d cb e)
    else if str_eqb (callback_data cb) (lit "cancel_application")
    then Some (cancel_stage_choice c d)
    else if str_eqb (callback_data cb) (lit "change_profile")
    then Some (change_profile_data c d)
    else None
  | _ => None
  end.

Definition route (c : FSMContext) (d : Crud.database) (ev : event) (e : env)
  : option outcome :=
  match ev with
  | MessageEvent m => route_message c d m e
  | CallbackEvent cb => route_callback c d cb e
  end.

(** The session after one event; an event that no handler takes leaves it as
    it is.  The database is the one found at the time of the event: the
    administration panel changes it independently of the conversation. *)
Definition step (c : FSMContext) (x : Crud.database * event * env) : FSMContext :=
  let '(d, ev, e) := x in
  match route c d ev e with
  | Some o => ctx o
  | None => c
  end.

Definition run (c : FSMContext) (xs : list (Crud.database * event * env))
  : FSMContext :=
  fold_left step xs c.

(** The invariant of the session: the number of files. *)
Definition files_in_bounds (c : FSMContext) : Prop :=
  (length (files (data c)) <= MAX_FILES)%nat /\
  (state c = Some entering_comment ->
   (MIN_FILES <= length (files (data c)))%nat).

End Handlers.

(** [int] restricted to unsigned ASCII decimal numerals. *)
Definition ascii_int_of_str (s : str) : option Z :=
  match s with
  | [] => None
  | _ =>
    if forallb is_ascii_digit s
    then Some (fold_left (fun acc c => 10 * acc + (Z.of_N c - 48)) s 0)
    else None
  end.

(** No message is taken by the start router. *)
Definition no_start_router (m : Message) : bool := false.

(** A database with one user, whose profile is complete, and two stages:
    stage 1 closed at time 100, stage 2 open from 50 to 500. *)
Definition demo_user : Crud.User :=
  {| Crud.id := 1; Crud.telegram_id := 7; Crud.username := Some (lit "bob");
     Crud.full_name := Some Ivanov_Ivan; Crud.city := Some (lit "Perm");
     Crud.school := Some (lit "School 1"); Crud.grade := Some (lit "10A") |}.

Definition demo_db : Crud.database :=
  {| Crud.users := [demo_user];
     Crud.nominations :=
       [ {| Crud.nom_id := 1; Crud.name := lit "Stage 1";
            Crud.is_active := true; Crud.start_date := Some 10;
            Crud.deadline := Some 100 |};
         {| Crud.nom_id := 2; Crud.name := lit "Stage 2";
            Crud.is_active := true; Crud.start_date := Some 50;
            Crud.deadline := Some 500 |} ];
     Crud.applications := [];
     Crud.accepting_applications := None |}.

Definition demo_tg_user : TgUser := {| tg_id := 7; tg_username := Some (lit "bob") |}.

Definition demo_env : env :=
  {| now := 200; files_web_paths := []; voice_web_path := None |}.

Definition text_message (t : str) : Message :=
  {| text := Some t; photo := []; document := None; voice := None;
     from_user := demo_tg_user |}.

Definition photo_message (fid : str) (size : Z) : Message :=
  {| text := None;
     photo := [ {| photo_file_id := fid; photo_file_unique_id := fid;
                   photo_file_size := Some size |} ];
     document := None; voice := None; from_user := demo_tg_user |}.

Definition voice_message (seconds : Z) : Message :=
  {| text := None; photo := []; document := None;
     voice := Some {| voice_id := lit "v1"; duration := seconds |};
     from_user := demo_tg_user |}.

Definition stage_callback (n : str) : CallbackQuery :=
  {| callback_data := lit "stage_" ++ n; callback_from_user := demo_tg_user |}.

(** A session that is selecting a stage, and sessions that hold [n] photos
    for stage 2. *)
Definition demo_choosing : FSMContext :=
  {| state := Some choosing_stage;
     data := update_profile (update_user_id empty_data 1) (Some Ivanov_Ivan)
               (Some (lit "Perm")) (Some (lit "School 1")) (Some (lit "10A")) |}.

Definition demo_entry (fid : str) : file_entry :=
  {| file_id := fid; file_unique_id := fid; type := photo_kind;
     extension := lit ".jpg"; file_name := None |}.

Definition demo_session (st : ApplicationForm) (fids : list str) : FSMContext :=
  {| state := Some st;
     data := update_files (update_stage (data demo_choosing) 2 (lit "Stage 2"))
               (List.map demo_entry fids) fids |}.

(** Scenario: a stage is chosen, then six photos of 1000 bytes arrive. *)
Definition demo_upload : list (Crud.database * event * env) :=
  (demo_db, CallbackEvent (stage_callback (lit "2")), demo_env) ::
  List.map (fun fid => (demo_db, MessageEvent (photo_message fid 1000), demo_env))
    [lit "f1"; lit "f2"; lit "f3"; lit "f4"; lit "f5"; lit "f6"].

(** The first four events of [demo_upload]: the stage and three photos. *)
Definition demo_three_photos : list (Crud.database * event * env) :=
  List.firstn 4 demo_upload.


(** bot/keyboards/menus.py: the rows of [get_cancel_menu], each button by
    its text. *)
Definition get_cancel_menu : list (list str) :=
  [[ [10060; 32; 1054; 1090; 1084; 1077; 1085; 1072]%N ]].


(** The state that follows a state in the order of the dialogue. *)
Definition next_state (s : option ApplicationForm) : option ApplicationForm :=
  match s with
  | Some entering_fio => Some entering_city
  | Some entering_city => Some entering_school
  | Some entering_school => Some entering_grade
  | Some entering_grade => Some choosing_stage
  | Some choosing_stage => Some uploading_photos
  | Some uploading_photos => Some entering_comment
  | Some entering_comment => None
  | None => Some entering_fio
  end.


(** [str(n)] for an integer. *)
Definition str_of_Z (z : Z) : str :=
  if z <? 0 then hyphen :: str_of_N (Z.to_N (- z)) else str_of_N (Z.to_N z).

(** bot/keyboards/menus.py: a button of an inline keyboard. *)
Record InlineKeyboardButton := mk_InlineKeyboardButton {
  button_text : str;
  button_callback_data : str
}.

Section Keyboard.

(** [sorted(stages, key=lambda x: x.order)]; the column [order] is not among
    the columns modelled, so the sort is a parameter. *)
Variable sorted_by_order : list Crud.Nomination -> list Crud.Nomination.

Definition get_stages_keyboard (stages : list Crud.Nomination)
    (show_change_profile : bool) : list (list InlineKeyboardButton) :=
  List.map (fun stage =>
              [ {| button_text := Crud.name stage;
                   button_callback_data :=
                     lit "stage_" ++ str_of_Z (Crud.nom_id stage) |} ])
    (sorted_by_order stages)
  ++ (if show_change_profile
      then [[ {| button_text :=
                   [9999; 65039; 32; 1048; 1079; 1084; 1077; 1085; 1080; 1090;
                    1100; 32; 1076; 1072; 1085; 1085; 1099; 1077]%N;
                 button_callback_data := lit "change_profile" |} ]]
      else [])
  ++ [[ {| button_text := [10060; 32; 1054; 1090; 1084; 1077; 1085; 1072]%N;
           button_callback_data := lit "cancel_application" |} ]].

End Keyboard.

(** The callback query sent when a button is pressed. *)
Definition press (b : InlineKeyboardButton) (user : TgUser) : CallbackQuery :=
  {| callback_data := button_callback_data b; callback_from_user := user |}.

End Application.

(** * admin/utils/auth.py and the login route of admin/routes/auth.py *)

Module AdminAuth.
Import PyStr.

(** The per-address dictionary [{'attempts', 'last_attempt',
    'blocked_until'}] of [_login_attempts]. *)
Record attempts_data := mk_attempts_data {
  attempts : Z;
  last_attempt : Q;
  blocked_until : Q
}.

Definition default_attempts_data : attempts_data :=
  {| attempts := 0; last_attempt := 0; blocked_until := 0 |}.

Definition MAX_LOGIN_ATTEMPTS : Z := 5.
Definition LOGIN_BLOCK_DURATION : Z := 300.
Definition ATTEMPT_RESET_TIME : Z := 600.

(** [_login_attempts], keyed by the address text. *)
Abbreviation login_attempts := (gmap str attempts_data).

(** [_login_attempts[ip]] on a [defaultdict]. *)
Definition attempts_getitem (st : login_attempts) (ip : str)
  : login_attempts * attempts_data :=
  match st !! ip with
  | Some data => (st, data)
  | None => (<[ip := default_attempts_data]> st, default_attempts_data)
  end.

(** [get_client_ip]: [forwarded] is the header [X-Forwarded-For], when
    present; [client_host] is [request.client.host], when there is a
    client. *)
Definition get_client_ip (forwarded : option str) (client_host : option str)
  : str :=
  let direct := match client_host with
                | Some host => host
                | None => lit "unknown"
                end in
  match forwarded with
  | Some (c :: rest) =>
    match Application.split_on 44%N (c :: rest) with
    | first :: _ => strip first
    | [] => direct
    end
  | _ => direct
  end.

(** [check_login_rate_limit]: [(allowed, seconds_remaining)]. *)
Definition check_login_rate_limit (st : login_attempts) (ip : str) (now : Q)
  : login_attempts * (bool * Z) :=
  let '(st, data) := attempts_getitem st ip in
  if Qltb now (blocked_until data)
  then (st, (false, py_int (blocked_until data - now)))
  else
    let data := if Qltb (inject_Z ATTEMPT_RESET_TIME) (now - last_attempt data)
                then {| attempts := 0; last_attempt := last_attempt data;
                        blocked_until := blocked_until data |}
                else data in
    (<[ip := data]> st, (true, 0)).

(** [record_failed_login]: [(blocked, seconds or remaining attempts)]. *)
Definition record_failed_login (st : login_attempts) (ip : str) (now : Q)
  : login_attempts * (bool * Z) :=
  let '(st, data) := attempts_getitem st ip in
  let n := attempts data + 1 in
  if MAX_LOGIN_ATTEMPTS <=? n then
    (<[ip := {| attempts := 0; last_attempt := now;
                blocked_until := (now + inject_Z LOGIN_BLOCK_DURATION)%Q |}]> st,
     (true, LOGIN_BLOCK_DURATION))
  else
    (<[ip := {| attempts := n; last_attempt := now;
                blocked_until := blocked_until data |}]> st,
     (false, MAX_LOGIN_ATTEMPTS - n)).

(** [record_successful_login] *)
Definition record_successful_login (st : login_attempts) (ip : str)
  : login_attempts :=
  delete ip st.

(** What the handler of [POST /login] answers. *)
Inductive login_result :=
| SecurityError
| TooManyAttempts (seconds : Z)
| LoggedIn
| WrongCredentials (remaining : Z)
| NowBlocked (seconds : Z).

(** [login]: [csrf_ok] is the result of [validate_csrf_token],
    [credentials_ok] the result that [verify_login] gives for the submitted
    name and password, [now] and [now_failed] the clock reads of
    [check_login_rate_limit] and of [record_failed_login].  The last
    component tells whether [verify_login] was called. *)
Definition login (st : login_attempts) (csrf_ok : bool) (ip : str)
    (credentials_ok : bool) (now now_failed : Q)
  : login_attempts * login_result * bool :=
  if negb csrf_ok then (st, SecurityError, false)
  else
    let '(st, (allowed, seconds)) := check_login_rate_limit st ip now in
    if negb allowed then (st, TooManyAttempts seconds, false)
    else if credentials_ok
    then (record_successful_login st ip, LoggedIn, true)
    else
      let '(st, (blocked, info)) := record_failed_login st ip now_failed in
      (st, (if blocked then NowBlocked info else WrongCredentials info), true).

(** A sequence of failed logins from one address: each with a valid CSRF
    token and wrong credentials, and its two clock reads. *)
Fixpoint failed_logins (st : login_attempts) (ip : str) (times : list (Q * Q))
  : login_attempts * list login_result :=
  match times with
  | [] => (st, [])
  | (now, now_failed) :: rest =>
    let '(st1, r, _) := login st true ip false now now_failed in
    let '(st2, rs) := failed_logins st1 ip rest in
    (st2, r :: rs)
  end.

(** The clock reads are in order and no two attempts are more than
    [ATTEMPT_RESET_TIME] apart. *)
Fixpoint in_a_row (prev : Q) (times : list (Q * Q)) : Prop :=
  match times with
  | [] => True
  | (now, now_failed) :: rest =>
    (prev <= now)%Q /\ (now <= now_failed)%Q /\
    (now - prev <= inject_Z ATTEMPT_RESET_TIME)%Q /\
    in_a_row now_failed rest
  end.

Fixpoint last_failed (default : Q) (times : list (Q * Q)) : Q :=
  match times with
  | [] => default
  | (_, now_failed) :: rest => last_failed now_failed rest
  end.

(** The record that [_login_attempts[ip]] yields. *)
Definition record_of (st : login_attempts) (ip : str) : attempts_data :=
  snd (attempts_getitem st ip).

(** A record on which a failed attempt made at or after [prev] is counted:
    its block is over at [prev], and its count is not reset by the attempt
    (its last attempt is [prev], or it counts nothing yet). *)
Definition counting (r : attempts_data) (prev : Q) : Prop :=
  (blocked_until r <= prev)%Q /\ (last_attempt r = prev \/ attempts r = 0).

(** The answers to [n] failed attempts that follow [a] counted ones. *)
Definition countdown (a : Z) (n : nat) : list login_result :=
  List.map (fun i => WrongCredentials (MAX_LOGIN_ATTEMPTS - (a + Z.of_nat i)))
    (seq 1 n).

Definition demo_times : list (Q * Q) :=
  [ (1000 # 1, 1000 # 1); (1010 # 1, 1010 # 1); (1020 # 1, 1020 # 1);
    (1030 # 1, 1030 # 1); (1040 # 1, 1040 # 1) ].

End AdminAuth.

(** * admin/utils/csrf.py *)

Module Csrf.
Import PyStr.

(** The session, as far as this module reads it: the value stored under
    [_csrf_token], when the key is present. *)
Definition session := option str.

(** [generate_csrf_token]; [token_hex] is the value that
    [secrets.token_hex(32)] would return. *)
Definition generate_csrf_token (s : session) (token_hex : str)
  : session * str :=
  match s with
  | Some token => (s, token)
  | None => (Some token_hex, token_hex)
  end.

Definition is_ascii (s : str) : bool := forallb (fun c => (c <? 128)%N) s.

(** [secrets.compare_digest] on two [str]: a [TypeError] unless both are
    ASCII. *)
Inductive outcome :=
| Returned (valid : bool)
| TypeError.

Definition compare_digest (a b : str) : outcome :=
  if is_ascii a && is_ascii b then Returned (str_eqb a b) else TypeError.

Definition validate_csrf_token (s : session) (token : str) : outcome :=
  match s with
  | None => Returned false
  | Some session_token =>
    if is_empty session_token || is_empty token then Returned false
    else compare_digest session_token token
  end.

End Csrf.

(** * admin/routes/broadcasts.py: the route [send_broadcast] *)

Module BroadcastRoutes.
Import Broadcasts.

(** What the route answers: the redirect, with or without the task added
    to the background tasks, or the error page of an exception. *)
Inductive response :=
| Redirect (task_added : bool)
| Raised_TypeError.

(** [send_broadcast]; [csrf] is the result of [validate_csrf_token] on the
    token of the form. *)
Definition send_broadcast (csrf : Csrf.outcome) (db : table) (broadcast_id : Z)
  : response :=
  match csrf with
  | Csrf.TypeError => Raised_TypeError
  | Csrf.Returned false => Redirect false
  | Csrf.Returned true =>
    match db !! broadcast_id with
    | None => Redirect false
    | Some broadcast =>
      match status broadcast with
      | SENDING => Redirect false
      | _ => Redirect true
      end
    end
  end.

End BroadcastRoutes.

(* ===================================================================== *)
(** * Properties *)
(* ===================================================================== *)

(** ** Rational comparisons *)

Lemma Qltb_lt (x y : Q) : Qltb x y = true <-> (x < y)%Q.
Proof.
  unfold Qltb. rewrite Qlt_alt. destruct (x ?= y)%Q; split; congruence.
Qed.

Lemma Qltb_ge (x y : Q) : Qltb x y = false <-> (y <= x)%Q.
Proof.
  split; intros H.
  - apply Qnot_lt_le. intros Hlt. apply Qltb_lt in Hlt. congruence.
  - destruct (Qltb x y) eqn:E; [|reflexivity].
    apply Qltb_lt in E. exfalso. lra.
Qed.

(** ** The rate limiter *)

Module ThrottlingFacts.
Import ThrottlingMiddleware.

Lemma cleanup_config (mw : t) (now : Q) :
  message_limit (_cleanup_old_records mw now) = message_limit mw /\
  callback_limit (_cleanup_old_records mw now) = callback_limit mw /\
  spam_threshold (_cleanup_old_records mw now) = spam_threshold mw /\
  block_duration (_cleanup_old_records mw now) = block_duration mw /\
  cleanup_interval (_cleanup_old_records mw now) = cleanup_interval mw.
Proof.
  unfold _cleanup_old_records.
  destruct (Qltb _ _); simpl; repeat split; reflexivity.
Qed.

(** The sweep only deletes: a record found afterwards was there before. *)
Lemma cleanup_lookup_Some (mw : t) (now : Q) (u : Z) (r : user_data) :
  users (_cleanup_old_records mw now) !! u = Some r -> users mw !! u = Some r.
Proof.
  unfold _cleanup_old_records.
  destruct (Qltb _ _); simpl; [tauto|].
  intros H. apply map_lookup_filter_Some in H. tauto.
Qed.

(** A record survives the sweep unless it is both idle and not blocked. *)
Lemma cleanup_lookup_keep (mw : t) (now : Q) (u : Z) (r : user_data) :
  users mw !! u = Some r ->
  to_remove (now - cleanup_interval mw) now r = false ->
  users (_cleanup_old_records mw now) !! u = Some r.
Proof.
  intros Hu Hk. unfold _cleanup_old_records.
  destruct (Qltb _ _); simpl; [exact Hu|].
  apply map_lookup_filter_Some. split; [exact Hu|exact Hk].
Qed.

(** A record deleted by the sweep was idle and its block had expired. *)
Lemma cleanup_lookup_None (mw : t) (now : Q) (u : Z) (r : user_data) :
  users mw !! u = Some r ->
  users (_cleanup_old_records mw now) !! u = None ->
  to_remove (now - cleanup_interval mw) now r = true.
Proof.
  intros Hu Hn.
  destruct (to_remove (now - cleanup_interval mw) now r) eqn:E; [reflexivity|].
  rewrite (cleanup_lookup_keep mw now u r Hu E) in Hn. discriminate.
Qed.



Lemma write_back_lookup_eq (mw : t) (u : Z) (r d : user_data) :
  users mw !! u = Some r -> users (write_back mw u d) !! u = Some d.
Proof.
  intros H. unfold write_back. rewrite H. simpl. apply lookup_insert_eq.
Qed.

Lemma write_back_lookup_ne (mw : t) (u v : Z) (d : user_data) :
  u <> v -> users (write_back mw v d) !! u = users mw !! u.
Proof.
  intros H. unfold write_back.
  destruct (users mw !! v); simpl; [|reflexivity].
  apply lookup_insert_ne. congruence.
Qed.

Lemma write_back_detached (mw : t) (u : Z) (d : user_data) :
  users mw !! u = None -> write_back mw u d = mw.
Proof. intros H. unfold write_back. rewrite H. reflexivity. Qed.

Lemma write_back_config (mw : t) (u : Z) (d : user_data) :
  message_limit (write_back mw u d) = message_limit mw /\
  callback_limit (write_back mw u d) = callback_limit mw /\
  spam_threshold (write_back mw u d) = spam_threshold mw /\
  block_duration (write_back mw u d) = block_duration mw /\
  cleanup_interval (write_back mw u d) = cleanup_interval mw.
Proof.
  unfold write_back. destruct (users mw !! u); simpl; repeat split; reflexivity.
Qed.





Lemma call_config (mw : t) (ev : event) (now nc : Q) :
  config (fst (__call__ mw ev now nc)) = config mw.
Proof.
  unfold __call__.
  destruct (limit_of mw ev) as [limit|]; [|reflexivity].
  destruct (from_user ev) as [v|]; [|reflexivity].
  destruct (users_getitem (users mw) v) as [us d]. cbv zeta.
  set (mw1 := _cleanup_old_records (set_users mw us) nc).
  assert (E1 : config mw1 = config mw).
  { unfold config, mw1.
    destruct (cleanup_config (set_users mw us) nc)
      as (-> & -> & -> & -> & ->). reflexivity. }
  assert (E2 : forall d', config (write_back mw1 v d') = config mw).
  { intros d'. rewrite <- E1. unfold config.
    destruct (write_back_config mw1 v d') as (-> & -> & -> & -> & ->).
    reflexivity. }
  destruct (Qltb now (blocked_until d)); [exact E1|].
  destruct (Qltb (now - last_time d) limit);
    [destruct (spam_threshold mw1 <=? _)|]; apply E2.
Qed.

Lemma config_limit_of (mw mw' : t) (ev : event) :
  config mw' = config mw -> limit_of mw' ev = limit_of mw ev.
Proof.
  unfold config, limit_of. intros E. inversion E.
  destruct (ev_class ev); congruence.
Qed.



Lemma run_cons (mw : t) (ev : event) (now nc : Q)
    (rest : list (event * Q * Q)) :
  run mw ((ev, now, nc) :: rest) =
    (fst (run (fst (__call__ mw ev now nc)) rest),
     snd (__call__ mw ev now nc) :: snd (run (fst (__call__ mw ev now nc)) rest)).
Proof.
  simpl. destruct (__call__ mw ev now nc) as [mw1 o]. simpl.
  destruct (run mw1 rest) as [mw2 os]. reflexivity.
Qed.


Section Burst.
Variable u : Z.



End Burst.




(** On binary64 floats the block that is read back can be shorter than
    [block_duration]: at clock 1000.1 the stored sum 1000.1 + 60, less the
    clock, is below 60. *)
Lemma binary64_block_is_shorter :
  PrimFloat.ltb
    (Binary64.remaining
       (Binary64.new_blocked_until Binary64.clock_1000_1 Binary64.sixty)
       Binary64.clock_1000_1)
    Binary64.sixty
  = true.
Proof. vm_compute. reflexivity. Qed.



Lemma record_of_Some (mw : t) (u : Z) (r : user_data) :
  users mw !! u = Some r -> record_of mw u = r.
Proof. intros H. unfold record_of, users_getitem. rewrite H. reflexivity. Qed.

Lemma record_of_None (mw : t) (u : Z) :
  users mw !! u = None -> record_of mw u = default_user_data.
Proof. intros H. unfold record_of, users_getitem. rewrite H. reflexivity. Qed.

(** The call on an event of [u], whether or not a record is stored. *)
Lemma call_shape (mw : t) (ev : event) (now nc : Q) (u : Z) (limit : Q) :
  from_user ev = Some u -> limit_of mw ev = Some limit ->
  __call__ mw ev now nc =
    let r := record_of mw u in
    let mw1 := _cleanup_old_records
                 (set_users mw (fst (users_getitem (users mw) u))) nc in
    if Qltb now (blocked_until r) then
      (mw1, Refused (Some (BlockedNotice (py_int (blocked_until r - now)))))
    else if Qltb (now - last_time r) limit then
      if spam_threshold mw <=? warnings r + 1 then
        (write_back mw1 u {| last_time := now; warnings := 0;
             blocked_until := (now + block_duration mw)%Q |},
         Refused (Some SpamBlockNotice))
      else
        (write_back mw1 u {| last_time := now; warnings := warnings r + 1;
             blocked_until := blocked_until r |}, Refused None)
    else
      (write_back mw1 u
         {| last_time := now;
            warnings := if (0 <? warnings r) && Qltb (limit * 3) (now - last_time r)
                        then Z.max 0 (warnings r - 1) else warnings r;
            blocked_until := blocked_until r |}, PassedToHandler).
Proof.
  intros Hf Hl. unfold __call__, record_of. rewrite Hl, Hf.
  destruct (users_getitem (users mw) u) as [us d]. cbv zeta. unfold fst, snd.
  destruct (cleanup_config (set_users mw us) nc) as (_ & _ & -> & -> & _).
  reflexivity.
Qed.

(** The store on which the sweep of a call for [u] runs holds the record of
    [u] and, for the other users, what was stored. *)
Lemma getitem_self (mw : t) (u : Z) :
  fst (users_getitem (users mw) u) !! u = Some (record_of mw u).
Proof.
  unfold record_of, users_getitem.
  destruct (users mw !! u) eqn:E; simpl; [exact E|apply lookup_insert_eq].
Qed.

Lemma getitem_other (mw : t) (u v : Z) :
  u <> v -> fst (users_getitem (users mw) u) !! v = users mw !! v.
Proof.
  intros H. unfold users_getitem.
  destruct (users mw !! u); simpl; [reflexivity|].
  apply lookup_insert_ne. exact H.
Qed.

(** A paced event of [u] is passed to the handler; afterwards the record of
    [u] is again bounded by the clock read of the call. *)
Lemma paced_call (mw : t) (ev : event) (now nc : Q) (u : Z) (prev : Q) :
  from_user ev = Some u -> (prev <= now)%Q -> (0 <= prev)%Q ->
  match limit_of mw ev with
  | Some limit => (prev + limit <= now)%Q
  | None => True
  end ->
  (last_time (record_of mw u) <= prev)%Q ->
  (blocked_until (record_of mw u) <= prev)%Q ->
  snd (__call__ mw ev now nc) = PassedToHandler /\
  (last_time (record_of (fst (__call__ mw ev now nc)) u) <= now)%Q /\
  (blocked_until (record_of (fst (__call__ mw ev now nc)) u) <= now)%Q.
Proof.
  intros Hf Hclk H0 Hl Hlt Hbu.
  destruct (limit_of mw ev) as [limit|] eqn:El.
  2:{ unfold __call__. rewrite El. simpl. split; [reflexivity|]. split; lra. }
  rewrite (call_shape mw ev now nc u limit Hf El). cbv zeta.
  set (r := record_of mw u) in *.
  set (mw1 := _cleanup_old_records _ nc).
  assert (E1 : Qltb now (blocked_until r) = false) by (apply Qltb_ge; lra).
  assert (E2 : Qltb (now - last_time r) limit = false) by (apply Qltb_ge; lra).
  rewrite E1, E2. unfold fst, snd. split; [reflexivity|].
  set (d := {| last_time := now; warnings := _; blocked_until := _ |}).
  destruct (users mw1 !! u) as [x|] eqn:Hx.
  - rewrite (record_of_Some _ u d (write_back_lookup_eq _ _ _ _ Hx)).
    simpl. split; lra.
  - rewrite (write_back_detached _ _ _ Hx), (record_of_None _ _ Hx).
    simpl. split; lra.
Qed.

Lemma paced_config (mw mw' : t) (u : Z) (calls : list (event * Q * Q)) :
  config mw' = config mw ->
  forall prev, paced mw u prev calls -> paced mw' u prev calls.
Proof.
  intros E. induction calls as [|[[ev now] nc] rest IH]; intros prev H.
  - exact I.
  - simpl in *. rewrite (config_limit_of mw mw' ev E).
    destruct H as (H1 & H2 & H3 & H4). repeat split; auto.
Qed.

(** X1.  A user who paces the events is never refused.  Let the record of
    [u] (the stored one, or the default of the [defaultdict]) have
    [last_time] and [blocked_until] not after [prev], and let every call be
    an event of [u] whose clock read is at least the limit of the event's
    class after the clock read of the preceding call ([prev] for the first).
    Then every call passes the event to the handler, whatever the sweep
    does in between. *)
Theorem paced_user_is_never_refused
    (mw : t) (u : Z) (prev : Q) (calls : list (event * Q * Q)) :
  (0 <= prev)%Q ->
  (last_time (record_of mw u) <= prev)%Q ->
  (blocked_until (record_of mw u) <= prev)%Q ->
  paced mw u prev calls ->
  snd (run mw calls) = repeat PassedToHandler (length calls).
Proof.
  revert mw prev. induction calls as [|[[ev now] nc] rest IH];
    intros mw prev H0 Hlt Hbu Hp; [reflexivity|].
  destruct Hp as (Hf & Hclk & Hl & Hrest).
  destruct (paced_call mw ev now nc u prev Hf Hclk H0 Hl Hlt Hbu)
    as (Ho & Hlt' & Hbu').
  rewrite run_cons. unfold snd at 1. rewrite Ho. simpl repeat. f_equal.
  apply (IH _ now); [lra|exact Hlt'|exact Hbu'|].
  apply (paced_config mw); [apply call_config|exact Hrest].
Qed.

Lemma paced_user_is_never_refused_witness :
  snd (run demo_instance demo_paced)
  = [PassedToHandler; PassedToHandler; PassedToHandler].
Proof.
  apply (paced_user_is_never_refused demo_instance 7 1000 demo_paced).
  - vm_compute; discriminate.
  - vm_compute; discriminate.
  - vm_compute; discriminate.
  - simpl. repeat split; try reflexivity; vm_compute; discriminate.
Defined.

(** What a call can leave in the store for the user [u] of the event: the
    record it worked on, or one of the three records it writes. *)
Lemma call_self_cases (mw : t) (ev : event) (now nc : Q) (u : Z) (limit : Q)
    (r' : user_data) :
  from_user ev = Some u -> limit_of mw ev = Some limit ->
  users (fst (__call__ mw ev now nc)) !! u = Some r' ->
  let r := record_of mw u in
  r' = r \/
  (r' = {| last_time := now; warnings := 0;
           blocked_until := (now + block_duration mw)%Q |}) \/
  (r' = {| last_time := now; warnings := warnings r + 1;
           blocked_until := blocked_until r |} /\
   warnings r + 1 < spam_threshold mw) \/
  (r' = {| last_time := now; warnings := warnings r;
           blocked_until := blocked_until r |}) \/
  (r' = {| last_time := now; warnings := Z.max 0 (warnings r - 1);
           blocked_until := blocked_until r |}).
Proof.
  intros Hf Hl. rewrite (call_shape mw ev now nc u limit Hf Hl). cbv zeta.
  set (r := record_of mw u).
  set (mw1 := _cleanup_old_records _ nc).
  assert (Hkeep : forall x, users mw1 !! u = Some x -> x = r).
  { intros x Hx. apply cleanup_lookup_Some in Hx. simpl in Hx.
    rewrite getitem_self in Hx. inversion Hx. reflexivity. }
  assert (Hw : forall d, users (write_back mw1 u d) !! u = Some r' -> r' = d).
  { intros d H. destruct (users mw1 !! u) as [x|] eqn:Hx.
    - rewrite (write_back_lookup_eq _ _ _ _ Hx) in H. congruence.
    - rewrite (write_back_detached _ _ _ Hx) in H. congruence. }
  destruct (Qltb now (blocked_until r)).
  { intros H. left. apply Hkeep. exact H. }
  destruct (Qltb (now - last_time r) limit).
  - destruct (spam_threshold mw <=? warnings r + 1) eqn:E; unfold fst;
      intros H; apply Hw in H.
    + right. left. exact H.
    + right. right. left. split; [exact H|]. apply Z.leb_gt in E. exact E.
  - unfold fst. intros H. apply Hw in H.
    destruct ((0 <? warnings r) && Qltb (limit * 3) (now - last_time r)).
    + right. right. right. right. exact H.
    + right. right. right. left. exact H.
Qed.

(** A call never modifies the record of a user other than the one of the
    event. *)
Lemma call_other_user (mw : t) (ev : event) (now nc : Q) (v : Z)
    (r' : user_data) :
  from_user ev <> Some v ->
  users (fst (__call__ mw ev now nc)) !! v = Some r' ->
  users mw !! v = Some r'.
Proof.
  intros Hne. unfold __call__.
  destruct (limit_of mw ev) as [limit|]; [|simpl; tauto].
  destruct (from_user ev) as [u|] eqn:Hf; [|simpl; tauto].
  assert (Huv : u <> v) by congruence.
  pose proof (getitem_other mw u v Huv) as Hg.
  destruct (users_getitem (users mw) u) as [us d]. simpl in Hg. cbv zeta.
  set (mw1 := _cleanup_old_records (set_users mw us) nc).
  assert (Hk : users mw1 !! v = Some r' -> users mw !! v = Some r').
  { intros H. apply cleanup_lookup_Some in H. simpl in H. congruence. }
  assert (Hw : forall d', users (write_back mw1 u d') !! v = users mw1 !! v).
  { intros d'. apply write_back_lookup_ne. congruence. }
  destruct (Qltb now (blocked_until d)); [exact Hk|].
  destruct (Qltb (now - last_time d) limit);
    [destruct (spam_threshold mw1 <=? _)|];
    unfold fst; rewrite Hw; exact Hk.
Qed.

Lemma record_of_range (mw : t) (u : Z) :
  1 <= spam_threshold mw -> warnings_in_range mw ->
  0 <= warnings (record_of mw u) < spam_threshold mw.
Proof.
  intros Hth H. destruct (users mw !! u) as [r|] eqn:E.
  - rewrite (record_of_Some _ _ _ E). exact (H u r E).
  - rewrite (record_of_None _ _ E). simpl. lia.
Qed.

Lemma call_spam_threshold (mw : t) (ev : event) (now nc : Q) :
  spam_threshold (fst (__call__ mw ev now nc)) = spam_threshold mw.
Proof.
  pose proof (call_config mw ev now nc) as E. unfold config in E.
  inversion E. reflexivity.
Qed.

Lemma call_warnings_in_range (mw : t) (ev : event) (now nc : Q) :
  1 <= spam_threshold mw -> warnings_in_range mw ->
  warnings_in_range (fst (__call__ mw ev now nc)).
Proof.
  intros Hth H v r' Hv.
  rewrite call_spam_threshold.
  destruct (decide (from_user ev = Some v)) as [Hf|Hne].
  - destruct (limit_of mw ev) as [limit|] eqn:Hl.
    + pose proof (record_of_range mw v Hth H) as Hr.
      destruct (call_self_cases mw ev now nc v limit r' Hf Hl Hv)
        as [ -> | [ -> | [ [ -> Hlt ] | [ -> | -> ] ] ] ]; simpl; lia.
    + unfold __call__ in Hv. rewrite Hl in Hv. exact (H v r' Hv).
  - apply (H v r'). exact (call_other_user mw ev now nc v r' Hne Hv).
Qed.

(** X2.  Starting from a new instance with [spam_threshold >= 1], after
    any sequence of calls (any events, any users, any clock reads) every
    stored warning counter is in [0, spam_threshold): the counter is reset
    to 0 by the call that would make it reach the threshold. *)
Theorem warnings_stay_below_threshold
    (ml cl : Q) (threshold : Z) (bd ci now0 : Q)
    (calls : list (event * Q * Q)) (u : Z) (r : user_data) :
  1 <= threshold ->
  users (fst (run (__init__ ml cl threshold bd ci now0) calls)) !! u = Some r ->
  0 <= warnings r < threshold.
Proof.
  intros Hth.
  assert (G : forall calls mw, spam_threshold mw = threshold ->
              warnings_in_range mw -> warnings_in_range (fst (run mw calls))
              /\ spam_threshold (fst (run mw calls)) = threshold).
  { clear calls. induction calls as [|[[ev now] nc] rest IH]; intros mw Et Hw.
    - simpl. auto.
    - rewrite run_cons. cbn [fst]. apply IH.
      + rewrite call_spam_threshold. exact Et.
      + apply call_warnings_in_range; [lia|exact Hw]. }
  intros Hu.
  destruct (G calls (__init__ ml cl threshold bd ci now0) eq_refl) as [Hw Et].
  { intros v x Hv. simpl in Hv. rewrite lookup_empty in Hv. discriminate. }
  specialize (Hw u r Hu). rewrite Et in Hw. exact Hw.
Qed.

Lemma warnings_stay_below_threshold_witness :
  0 <= warnings {| last_time := 10003 # 10; warnings := 2; blocked_until := 0 |} < 5.
Proof.
  apply (warnings_stay_below_threshold (1 # 2) (3 # 10) 5 60 300 900
           (firstn 3 demo_burst) 7).
  - lia.
  - vm_compute. reflexivity.
Defined.

Lemma cleanup_ran (mw : t) (now : Q) (u : Z) (r : user_data) :
  users mw !! u = Some r ->
  users (_cleanup_old_records mw now) !! u = None ->
  (cleanup_interval mw <= now - last_cleanup mw)%Q.
Proof.
  intros Hu Hn. unfold _cleanup_old_records in Hn.
  destruct (Qltb (now - last_cleanup mw) (cleanup_interval mw)) eqn:E.
  - congruence.
  - apply Qltb_ge. exact E.
Qed.

Lemma call_other_user_None (mw : t) (ev : event) (now nc : Q) (v : Z)
    (r : user_data) :
  from_user ev <> Some v ->
  users mw !! v = Some r ->
  users (fst (__call__ mw ev now nc)) !! v = None ->
  (cleanup_interval mw <= nc - last_cleanup mw)%Q /\
  to_remove (nc - cleanup_interval mw) nc r = true.
Proof.
  intros Hne Hv. unfold __call__.
  destruct (limit_of mw ev) as [limit|]; [|simpl; congruence].
  destruct (from_user ev) as [u|] eqn:Hf; [|simpl; congruence].
  assert (Huv : u <> v) by congruence.
  pose proof (getitem_other mw u v Huv) as Hg.
  destruct (users_getitem (users mw) u) as [us d]. simpl in Hg. cbv zeta.
  set (mw1 := _cleanup_old_records (set_users mw us) nc).
  assert (Hus : users (set_users mw us) !! v = Some r)
    by (simpl; congruence).
  assert (Hk : users mw1 !! v = None ->
               (cleanup_interval mw <= nc - last_cleanup mw)%Q /\
               to_remove (nc - cleanup_interval mw) nc r = true).
  { intros H. split.
    - exact (cleanup_ran (set_users mw us) nc v r Hus H).
    - exact (cleanup_lookup_None (set_users mw us) nc v r Hus H). }
  assert (Hw : forall d', users (write_back mw1 u d') !! v = users mw1 !! v).
  { intros d'. apply write_back_lookup_ne. congruence. }
  destruct (Qltb now (blocked_until d)); [exact Hk|].
  destruct (Qltb (now - last_time d) limit);
    [destruct (spam_threshold mw1 <=? _)|];
    unfold fst; rewrite Hw; exact Hk.
Qed.

(** X3.  A call never modifies the record of a user other than the one of
    the event.  Such a record is found unchanged afterwards, or it has been
    deleted by the sweep, in which case the sweep was due
    ([cleanup_interval] has passed since [last_cleanup]), the record was
    idle for longer than [cleanup_interval] and its block was over.  A user
    without a record gets none. *)
Theorem call_leaves_other_users_alone
    (mw : t) (ev : event) (now nc : Q) (v : Z) :
  from_user ev <> Some v ->
  match users mw !! v with
  | Some r =>
    users (fst (__call__ mw ev now nc)) !! v = Some r \/
    (users (fst (__call__ mw ev now nc)) !! v = None /\
     (cleanup_interval mw <= nc - last_cleanup mw)%Q /\
     (last_time r < nc - cleanup_interval mw)%Q /\ (blocked_until r < nc)%Q)
  | None => users (fst (__call__ mw ev now nc)) !! v = None
  end.
Proof.
  intros Hne.
  destruct (users (fst (__call__ mw ev now nc)) !! v) as [r'|] eqn:E'.
  - rewrite (call_other_user mw ev now nc v r' Hne E'). left. reflexivity.
  - destruct (users mw !! v) as [r|] eqn:E; [|reflexivity].
    right. split; [reflexivity|].
    destruct (call_other_user_None mw ev now nc v r Hne E E') as [H1 H2].
    split; [exact H1|].
    unfold to_remove in H2. apply andb_true_iff in H2 as [H2 H3].
    apply Qltb_lt in H2, H3. split; assumption.
Qed.

Lemma call_leaves_other_users_alone_witness :
  users (fst (__call__ demo_instance demo_other_message 1100 1100)) !! 7
    = Some demo_record \/
  (users (fst (__call__ demo_instance demo_other_message 1100 1100)) !! 7
     = None /\
   (cleanup_interval demo_instance <= 1100 - last_cleanup demo_instance)%Q /\
   (last_time demo_record < 1100 - cleanup_interval demo_instance)%Q /\
   (blocked_until demo_record < 1100)%Q).
Proof.
  apply (call_leaves_other_users_alone demo_instance demo_other_message
           1100 1100 7).
  discriminate.
Defined.

End ThrottlingFacts.

(** ** The volume guard *)

Module FileUploadFacts.
Import FileUploadThrottlingMiddleware.

Lemma record_of_insert (mw : t) (us : gmap Z user_data) (u : Z) (d : user_data) :
  record_of (set_users mw (<[u := d]> us)) u = d.
Proof.
  unfold record_of, users_getitem. simpl. rewrite lookup_insert_eq. reflexivity.
Qed.

Lemma getitem_record (mw : t) (u : Z) :
  users_getitem (users mw) u = (fst (users_getitem (users mw) u), record_of mw u).
Proof. unfold record_of. destruct (users_getitem (users mw) u); reflexivity. Qed.

(** Pruning keeps exactly the entries younger than one hour. *)
Lemma kept_spec (now : Q) (l : list (Q * Q)) (e : Q * Q) :
  In e (List.filter (younger now 3600) l) <->
  In e l /\ (now - fst e < 3600)%Q.
Proof.
  rewrite filter_In. unfold younger. rewrite Qltb_lt. reflexivity.
Qed.

(** An entry younger than a minute is younger than an hour, so pruning does
    not change the count of the last minute. *)
Lemma count_younger_kept (now : Q) (l : list (Q * Q)) :
  count_younger now 60 (List.filter (younger now 3600) l)
  = count_younger now 60 l.
Proof.
  unfold count_younger. f_equal. f_equal.
  induction l as [|e l IH]; [reflexivity|].
  simpl. destruct (younger now 3600 e) eqn:E1.
  - simpl. destruct (younger now 60 e); simpl; congruence.
  - destruct (younger now 60 e) eqn:E2; [|exact IH].
    unfold younger in *. apply Qltb_lt in E2. apply Qltb_ge in E1.
    exfalso. lra.
Qed.

(** The call on an attachment of [sz] bytes sent by user [u]. *)
Lemma call_attachment (mw : t) (m : message) (now : Q) (u sz : Z) :
  attachment_size m = Some sz -> from_user m = Some u ->
  let d := record_of mw u in
  let us := fst (users_getitem (users mw) u) in
  let kept := List.filter (younger now 3600) (files d) in
  let size_mb := (inject_Z sz / inject_Z (1024 * 1024))%Q in
  __call__ mw (Message m) now =
    if files_per_minute mw <=? count_younger now 60 kept then
      (set_users mw (<[u := {| files := kept;
                               last_warning := fst (warn now (last_warning d)) |}]> us),
       Rejected FilesPerMinute (snd (warn now (last_warning d))))
    else if Qltb (total_mb_per_hour mw) (sum_sizes kept + size_mb) then
      (set_users mw (<[u := {| files := kept;
                               last_warning := fst (warn now (last_warning d)) |}]> us),
       Rejected MegabytesPerHour (snd (warn now (last_warning d))))
    else
      (set_users mw (<[u := {| files := kept ++ [(now, size_mb)];
                               last_warning := last_warning d |}]> us),
       PassedToHandler).
Proof.
  intros Ha Hf. cbv zeta. unfold __call__. rewrite Ha, Hf.
  rewrite (getitem_record mw u). cbn [fst].
  destruct (warn now (last_warning (record_of mw u))) as [lw warned].
  reflexivity.
Qed.

Lemma sum_sizes_from (l : list (Q * Q)) (a : Q) :
  (fold_left (fun acc entry => acc + snd entry) l a == a + sum_sizes l)%Q.
Proof.
  unfold sum_sizes. revert a. induction l as [|e l IH]; intros a; simpl.
  - lra.
  - rewrite (IH (a + snd e)%Q), (IH (0 + snd e)%Q). lra.
Qed.

Lemma sum_sizes_cons (e : Q * Q) (l : list (Q * Q)) :
  (sum_sizes (e :: l) == snd e + sum_sizes l)%Q.
Proof.
  unfold sum_sizes at 1. simpl. rewrite sum_sizes_from. lra.
Qed.

(** The pruning and the count of the code select the entries that the rule
    names, and its sum is their total size. *)
Lemma filter_younger_entries_within (now age : Q) (l : list (Q * Q)) :
  List.filter (younger now age) l = entries_within now age l.
Proof.
  induction l as [|[ts size] rest IH]; [reflexivity|].
  cbn [List.filter entries_within]. unfold younger at 1. cbn [fst].
  destruct (Qlt_le_dec (now - ts) age) as [H|H].
  - apply Qltb_lt in H. rewrite H, IH. reflexivity.
  - apply Qltb_ge in H. rewrite H. exact IH.
Qed.

Lemma sum_sizes_total_size (l : list (Q * Q)) :
  (sum_sizes l == total_size l)%Q.
Proof.
  induction l as [|[ts size] rest IH]; [reflexivity|].
  rewrite sum_sizes_cons. cbn [snd total_size]. rewrite IH. reflexivity.
Qed.

Lemma Qltb_compat (x y y' : Q) : (y == y')%Q -> Qltb x y = Qltb x y'.
Proof.
  intros E. destruct (Qltb x y') eqn:H.
  - apply Qltb_lt. apply Qltb_lt in H. rewrite E. exact H.
  - apply Qltb_ge. apply Qltb_ge in H. rewrite E. exact H.
Qed.

(** C4.  For an attachment of [sz] bytes sent by user [u] at time [now], with
    [d] the user's volume record.  The retained entries are the recorded
    entries less than one hour old.  When the number of retained entries
    less than 60 seconds old has reached [files_per_minute] the event is
    rejected for the rate; otherwise, when the total size of the retained
    entries plus the size of the new file exceeds [total_mb_per_hour], it is
    rejected for the volume; otherwise it is passed to the handler.  The
    list stored afterwards is the retained entries, followed by the new
    [(now, size)] only when the event was accepted.  Entries outside the
    one-hour window do not contribute: a record with the same entries
    inside the window gives the same decision and the same stored list.
    The count and the total are [entries_within] and [total_size], which
    are written from the rule and not taken from the code. *)
Theorem volume_guard_decision
    (mw : t) (m : message) (now : Q) (u sz : Z) :
  attachment_size m = Some sz -> from_user m = Some u ->
  let d := record_of mw u in
  let retained := entries_within now 3600 (files d) in
  let recent := Z.of_nat (length (entries_within now 60 retained)) in
  let size_mb := (inject_Z sz / inject_Z (1024 * 1024))%Q in
  let over_rate := files_per_minute mw <= recent in
  let over_volume :=
    (total_mb_per_hour mw < total_size retained + size_mb)%Q in
  let mw' := fst (__call__ mw (Message m) now) in
  let o := snd (__call__ mw (Message m) now) in
  (forall e, In e retained <-> In e (files d) /\ (now - fst e < 3600)%Q) /\
  (over_rate -> exists warned, o = Rejected FilesPerMinute warned) /\
  (~ over_rate -> over_volume ->
   exists warned, o = Rejected MegabytesPerHour warned) /\
  (~ over_rate -> ~ over_volume -> o = PassedToHandler) /\
  (is_rejected o = true <-> over_rate \/ over_volume) /\
  (o = PassedToHandler <-> ~ (over_rate \/ over_volume)) /\
  files (record_of mw' u) =
    retained ++ (if is_rejected o then [] else [(now, size_mb)]) /\
  (forall mw2 : t,
     files_per_minute mw2 = files_per_minute mw ->
     total_mb_per_hour mw2 = total_mb_per_hour mw ->
     entries_within now 3600 (files (record_of mw2 u)) = retained ->
     is_rejected (snd (__call__ mw2 (Message m) now)) = is_rejected o /\
     files (record_of (fst (__call__ mw2 (Message m) now)) u)
       = files (record_of mw' u)).
Proof.
  intros Ha Hf d retained recent size_mb over_rate over_volume mw' o.
  assert (Hcall : forall mw0 : t,
     files_per_minute mw0 = files_per_minute mw ->
     total_mb_per_hour mw0 = total_mb_per_hour mw ->
     entries_within now 3600 (files (record_of mw0 u)) = retained ->
     let o0 := snd (__call__ mw0 (Message m) now) in
     (over_rate -> exists warned, o0 = Rejected FilesPerMinute warned) /\
     (~ over_rate -> over_volume ->
      exists warned, o0 = Rejected MegabytesPerHour warned) /\
     (~ over_rate -> ~ over_volume -> o0 = PassedToHandler) /\
     files (record_of (fst (__call__ mw0 (Message m) now)) u) =
       retained ++ (if is_rejected o0 then [] else [(now, size_mb)])).
  { intros mw0 E1 E2 E3.
    rewrite (call_attachment mw0 m now u sz Ha Hf). cbv zeta.
    rewrite filter_younger_entries_within, E1, E2, E3. fold size_mb.
    unfold count_younger. rewrite filter_younger_entries_within.
    fold recent.
    rewrite (Qltb_compat _ (sum_sizes retained + size_mb)
               (total_size retained + size_mb))
      by (rewrite sum_sizes_total_size; reflexivity).
    destruct (files_per_minute mw <=? recent) eqn:Er.
    - apply Z.leb_le in Er. cbn [fst snd is_rejected].
      rewrite record_of_insert. cbn [files].
      split; [intros _; eexists; reflexivity|].
      split; [intros H; contradiction|].
      split; [intros H; contradiction|].
      rewrite app_nil_r. reflexivity.
    - apply Z.leb_gt in Er.
      assert (Hr : ~ over_rate) by (unfold over_rate; lia).
      destruct (Qltb (total_mb_per_hour mw) (total_size retained + size_mb))
        eqn:Ev.
      + apply Qltb_lt in Ev. cbn [fst snd is_rejected].
        rewrite record_of_insert. cbn [files].
        split; [intros H; contradiction|].
        split; [intros _ _; eexists; reflexivity|].
        split; [intros _ H; contradiction|].
        rewrite app_nil_r. reflexivity.
      + apply Qltb_ge in Ev. cbn [fst snd is_rejected].
        rewrite record_of_insert. cbn [files].
        assert (Hv : ~ over_volume) by (unfold over_volume; lra).
        split; [intros H; contradiction|].
        split; [intros _ H; contradiction|].
        split; reflexivity. }
  assert (Hrej : forall o0 : outcome,
     (over_rate -> exists warned, o0 = Rejected FilesPerMinute warned) ->
     (~ over_rate -> over_volume ->
      exists warned, o0 = Rejected MegabytesPerHour warned) ->
     (~ over_rate -> ~ over_volume -> o0 = PassedToHandler) ->
     (is_rejected o0 = true <-> over_rate \/ over_volume) /\
     (o0 = PassedToHandler <-> ~ (over_rate \/ over_volume))).
  { intros o0 A B C.
    assert (Dr : over_rate \/ ~ over_rate) by (unfold over_rate; lia).
    assert (Dv : over_volume \/ ~ over_volume).
    { unfold over_volume.
      destruct (Qlt_le_dec (total_mb_per_hour mw)
                  (total_size retained + size_mb)) as [H|H];
        [left; exact H|right; lra]. }
    destruct Dr as [Hr|Hr].
    - destruct (A Hr) as [w ->]. simpl. split.
      + split; [intros _; left; exact Hr|reflexivity].
      + split; [discriminate|]. intros H. exfalso. apply H. left. exact Hr.
    - destruct Dv as [Hv|Hv].
      + destruct (B Hr Hv) as [w ->]. simpl. split.
        * split; [intros _; right; exact Hv|reflexivity].
        * split; [discriminate|].
          intros H. exfalso. apply H. right. exact Hv.
      + rewrite (C Hr Hv). simpl. split.
        * split; [discriminate|]. intros [H|H]; contradiction.
        * split; [intros _ [H|H]; contradiction|reflexivity]. }
  destruct (Hcall mw eq_refl eq_refl eq_refl) as (R1 & R2 & R3 & R4).
  destruct (Hrej _ R1 R2 R3) as [R5 R6].
  split.
  { intros e. subst retained. rewrite <- filter_younger_entries_within.
    apply kept_spec. }
  split; [exact R1|]. split; [exact R2|]. split; [exact R3|].
  split; [exact R5|]. split; [exact R6|]. split; [exact R4|].
  intros mw2 E1 E2 E3.
  destruct (Hcall mw2 E1 E2 E3) as (S1 & S2 & S3 & S4).
  destruct (Hrej _ S1 S2 S3) as [S5 _].
  assert (Eo : is_rejected (snd (__call__ mw2 (Message m) now)) = is_rejected o).
  { apply eq_true_iff_eq.
    split; intros H; [apply R5, S5, H|apply S5, R5, H]. }
  split; [exact Eo|].
  rewrite S4. fold mw' in R4. rewrite R4. fold o. rewrite Eo. reflexivity.
Qed.

Lemma volume_guard_decision_witness :
  (exists warned,
     snd (__call__ demo_busy_instance (demo_photo 1000) 8200)
     = Rejected FilesPerMinute warned) /\
  (exists warned,
     snd (__call__ demo_instance demo_document 8200)
     = Rejected MegabytesPerHour warned) /\
  snd (__call__ demo_instance (demo_photo (20 * 1024 * 1024)) 8200)
  = PassedToHandler.
Proof.
  split; [|split].
  - destruct (volume_guard_decision demo_busy_instance
                {| photo := [Some 1000]; document := None;
                   from_user := Some 7 |}
                8200 7 1000 eq_refl eq_refl) as (_ & H & _).
    apply H. vm_compute. discriminate.
  - destruct (volume_guard_decision demo_instance
                {| photo := []; document := Some (Some (40 * 1024 * 1024));
                   from_user := Some 7 |}
                8200 7 (40 * 1024 * 1024) eq_refl eq_refl)
      as (_ & _ & H & _).
    apply H; [vm_compute; intros H0; apply H0; reflexivity|reflexivity].
  - destruct (volume_guard_decision demo_instance
                {| photo := [Some (20 * 1024 * 1024)]; document := None;
                   from_user := Some 7 |}
                8200 7 (20 * 1024 * 1024) eq_refl eq_refl)
      as (_ & _ & _ & H & _).
    apply H; vm_compute; intros H0; [apply H0; reflexivity|discriminate H0].
Defined.

Lemma sum_sizes_app (l : list (Q * Q)) (e : Q * Q) :
  (sum_sizes (l ++ [e]) == sum_sizes l + snd e)%Q.
Proof.
  induction l as [|x l IH]; simpl.
  - rewrite sum_sizes_cons. unfold sum_sizes. simpl. lra.
  - rewrite !sum_sizes_cons, IH. lra.
Qed.

Lemma sum_sizes_filter (f : Q * Q -> bool) (l : list (Q * Q)) :
  Forall (fun entry => (0 <= snd entry)%Q) l ->
  (0 <= sum_sizes (List.filter f l) <= sum_sizes l)%Q.
Proof.
  induction 1 as [|e l He Hl IH]; simpl.
  - unfold sum_sizes. simpl. lra.
  - destruct (f e); rewrite ?sum_sizes_cons; lra.
Qed.

Lemma Forall_filter_nonneg (f : Q * Q -> bool) (l : list (Q * Q)) :
  Forall (fun entry => (0 <= snd entry)%Q) l ->
  Forall (fun entry => (0 <= snd entry)%Q) (List.filter f l).
Proof.
  intros H. rewrite List.Forall_forall in *. intros e He.
  apply filter_In in He as [He _]. exact (H e He).
Qed.

Lemma younger_mono (t t' age : Q) (e : Q * Q) :
  (t <= t')%Q -> younger t' age e = true -> younger t age e = true.
Proof.
  unfold younger. rewrite !Qltb_lt. intros; lra.
Qed.

Lemma count_younger_mono (t t' age : Q) (l : list (Q * Q)) :
  (t <= t')%Q -> count_younger t' age l <= count_younger t age l.
Proof.
  intros H. unfold count_younger. apply inj_le.
  induction l as [|e l IH]; simpl; [lia|].
  destruct (younger t' age e) eqn:E.
  - rewrite (younger_mono t t' age e H E). simpl. lia.
  - destruct (younger t age e); simpl; lia.
Qed.

Lemma count_younger_filter (f : Q * Q -> bool) (t age : Q) (l : list (Q * Q)) :
  count_younger t age (List.filter f l) <= count_younger t age l.
Proof.
  unfold count_younger. apply inj_le.
  induction l as [|e l IH]; simpl; [lia|].
  destruct (f e); simpl; destruct (younger t age e); simpl; lia.
Qed.

Lemma count_younger_app (t age : Q) (l : list (Q * Q)) (e : Q * Q) :
  count_younger t age (l ++ [e]) <= count_younger t age l + 1.
Proof.
  unfold count_younger. rewrite List.filter_app, length_app. simpl.
  destruct (younger t age e); simpl; lia.
Qed.

Lemma size_mb_nonneg (sz : Z) :
  0 <= sz -> (0 <= inject_Z sz / inject_Z (1024 * 1024))%Q.
Proof.
  intros H. unfold Qdiv. apply Qmult_le_0_compat.
  - unfold Qle. simpl. lia.
  - vm_compute. discriminate.
Qed.

Lemma within_quota_later (mw mw' : t) (clock now : Q) (d : user_data) :
  files_per_minute mw' = files_per_minute mw ->
  total_mb_per_hour mw' = total_mb_per_hour mw ->
  (clock <= now)%Q -> within_quota mw clock d -> within_quota mw' now d.
Proof.
  intros E1 E2 Hc (H1 & H2 & H3). unfold within_quota. rewrite E1, E2.
  split; [exact H1|]. split; [exact H2|].
  intros t Ht. apply H3. lra.
Qed.

Lemma call_limits (mw : t) (ev : event) (now : Q) :
  files_per_minute (fst (__call__ mw ev now)) = files_per_minute mw /\
  total_mb_per_hour (fst (__call__ mw ev now)) = total_mb_per_hour mw.
Proof.
  unfold __call__. destruct ev as [|m]; [auto|].
  destruct (attachment_size m) as [sz|]; [|auto].
  destruct (from_user m) as [u|]; [|auto].
  destruct (users_getitem (users mw) u) as [us d]. cbv zeta.
  destruct (warn now (last_warning d)).
  repeat match goal with
         | |- context [if ?b then _ else _] => destruct b
         end; auto.
Qed.

Lemma upload_getitem_other (mw : t) (u v : Z) :
  u <> v -> fst (users_getitem (users mw) u) !! v = users mw !! v.
Proof.
  intros H. unfold users_getitem.
  destruct (users mw !! u); simpl; [reflexivity|].
  apply lookup_insert_ne. exact H.
Qed.

Lemma record_within_quota (mw : t) (clock : Q) (u : Z) :
  0 <= files_per_minute mw -> (0 <= total_mb_per_hour mw)%Q ->
  (forall v d, users mw !! v = Some d -> within_quota mw clock d) ->
  within_quota mw clock (record_of mw u).
Proof.
  intros Hf Ht H. unfold record_of, users_getitem.
  destruct (users mw !! u) as [d|] eqn:E; simpl; [exact (H u d E)|].
  split; [constructor|]. split; [exact Ht|].
  intros t _. exact Hf.
Qed.

(** One call keeps every stored record within its quotas. *)
Lemma call_within_quota (mw : t) (ev : event) (clock now : Q) :
  0 <= files_per_minute mw -> (0 <= total_mb_per_hour mw)%Q ->
  (clock <= now)%Q ->
  match ev with
  | Message m =>
    match attachment_size m with
    | Some file_size => 0 <= file_size
    | None => True
    end
  | NotMessage => True
  end ->
  (forall v d, users mw !! v = Some d -> within_quota mw clock d) ->
  forall v d, users (fst (__call__ mw ev now)) !! v = Some d ->
              within_quota (fst (__call__ mw ev now)) now d.
Proof.
  intros Hf Ht Hc Hsz H v d'.
  destruct (call_limits mw ev now) as [E1 E2].
  assert (Hsame : users (fst (__call__ mw ev now)) = users mw ->
                  users (fst (__call__ mw ev now)) !! v = Some d' ->
                  within_quota (fst (__call__ mw ev now)) now d').
  { intros E Hv. rewrite E in Hv.
    apply (within_quota_later mw _ clock now d' E1 E2 Hc). exact (H v d' Hv). }
  destruct ev as [|m]; [apply Hsame; reflexivity|].
  destruct (attachment_size m) as [sz|] eqn:Ha;
    [|apply Hsame; unfold __call__; rewrite Ha; reflexivity].
  destruct (from_user m) as [u|] eqn:Hu;
    [|apply Hsame; unfold __call__; rewrite Ha, Hu; reflexivity].
  clear Hsame. revert E1 E2.
  rewrite (call_attachment mw m now u sz Ha Hu). cbv zeta.
  pose proof (record_within_quota mw clock u Hf Ht H) as (Q1 & Q2 & Q3).
  set (d := record_of mw u) in *.
  set (kept := List.filter (younger now 3600) (files d)).
  set (size_mb := (inject_Z sz / inject_Z (1024 * 1024))%Q).
  assert (K1 : Forall (fun entry => (0 <= snd entry)%Q) kept)
    by (apply Forall_filter_nonneg; exact Q1).
  assert (K2 : (sum_sizes kept <= total_mb_per_hour mw)%Q).
  { pose proof (sum_sizes_filter (younger now 3600) (files d) Q1). fold kept in H0.
    lra. }
  assert (K3 : forall t, (now <= t)%Q ->
                 count_younger t 60 kept <= files_per_minute mw).
  { intros t Hn.
    pose proof (count_younger_filter (younger now 3600) t 60 (files d)).
    fold kept in H0. specialize (Q3 t). lapply Q3; [lia|lra]. }
  assert (Hrej : forall lw mw',
            files_per_minute mw' = files_per_minute mw ->
            total_mb_per_hour mw' = total_mb_per_hour mw ->
            within_quota mw' now {| files := kept; last_warning := lw |}).
  { intros lw mw' E1 E2. unfold within_quota. rewrite E1, E2. simpl.
    split; [exact K1|]. split; [exact K2|exact K3]. }
  assert (Hother : forall (mw' : t) x, 
            files_per_minute mw' = files_per_minute mw ->
            total_mb_per_hour mw' = total_mb_per_hour mw ->
            users mw' = <[u := x]> (fst (users_getitem (users mw) u)) ->
            within_quota mw' now x ->
            users mw' !! v = Some d' -> within_quota mw' now d').
  { intros mw' x E1 E2 Eu Hx Hv. rewrite Eu in Hv.
    destruct (decide (u = v)) as [->|Hne].
    - rewrite lookup_insert_eq in Hv. inversion Hv. subst. exact Hx.
    - rewrite lookup_insert_ne in Hv by exact Hne.
      rewrite (upload_getitem_other mw u v Hne) in Hv.
      apply (within_quota_later mw mw' clock now d' E1 E2 Hc).
      exact (H v d' Hv). }
  destruct (files_per_minute mw <=? count_younger now 60 kept) eqn:Er.
  { cbn [fst]. intros E1 E2. eapply Hother; eauto. }
  destruct (Qltb (total_mb_per_hour mw) (sum_sizes kept + size_mb)) eqn:Ev.
  { cbn [fst]. intros E1 E2. eapply Hother; eauto. }
  cbn [fst]. intros E1 E2. eapply Hother; eauto.
  apply Z.leb_gt in Er. apply Qltb_ge in Ev.
  unfold within_quota. rewrite E1, E2. simpl. split; [|split].
  - apply Forall_app. split; [exact K1|].
    constructor; [|constructor]. simpl. apply size_mb_nonneg. exact Hsz.
  - rewrite sum_sizes_app. simpl. exact Ev.
  - intros t Hn.
    pose proof (count_younger_app t 60 kept (now, size_mb)).
    pose proof (count_younger_mono now t 60 kept Hn). lia.
Qed.

Lemma upload_run_cons (mw : t) (ev : event) (now : Q) (rest : list (event * Q)) :
  run mw ((ev, now) :: rest) =
    (fst (run (fst (__call__ mw ev now)) rest),
     snd (__call__ mw ev now) :: snd (run (fst (__call__ mw ev now)) rest)).
Proof.
  simpl. destruct (__call__ mw ev now) as [mw1 o]. simpl.
  destruct (run mw1 rest) as [mw2 os]. reflexivity.
Qed.

Lemma run_within_quota (fpm : Z) (limit : Q) :
  0 <= fpm -> (0 <= limit)%Q ->
  forall (calls : list (event * Q)) (mw : t) (clock : Q),
    files_per_minute mw = fpm -> total_mb_per_hour mw = limit ->
    orderly clock calls ->
    (forall v x, users mw !! v = Some x -> within_quota mw clock x) ->
    files_per_minute (fst (run mw calls)) = fpm /\
    total_mb_per_hour (fst (run mw calls)) = limit /\
    forall v x, users (fst (run mw calls)) !! v = Some x ->
                within_quota (fst (run mw calls)) (last_now clock calls) x.
Proof.
  intros Hf Hl.
  induction calls as [|[ev now] rest IH]; intros mw clock E1 E2 Ho H.
  - simpl. auto.
  - destruct Ho as (Hc & Hsz & Hrest).
    rewrite upload_run_cons. cbn [fst last_now].
    destruct (call_limits mw ev now) as [F1 F2].
    apply IH; [congruence|congruence|exact Hrest|].
    apply (call_within_quota mw ev clock now); try assumption.
    + rewrite E1. exact Hf.
    + rewrite E2. exact Hl.
Qed.

(** X4.  Starting from a new instance with non-negative limits, along any
    sequence of calls made with a clock that does not run backwards and
    with attachments of non-negative size, every stored record stays within
    both quotas: the sizes it lists add up to at most [total_mb_per_hour],
    and at any time from the last call on it lists at most
    [files_per_minute] entries younger than 60 seconds. *)
Theorem upload_quotas_hold
    (fpm : Z) (limit clock : Q) (calls : list (event * Q))
    (u : Z) (d : user_data) :
  0 <= fpm -> (0 <= limit)%Q -> orderly clock calls ->
  users (fst (run (__init__ fpm limit) calls)) !! u = Some d ->
  (sum_sizes (files d) <= limit)%Q /\
  forall now : Q, (last_now clock calls <= now)%Q ->
    count_younger now 60 (files d) <= fpm.
Proof.
  intros Hf Hl Ho Hu.
  destruct (run_within_quota fpm limit Hf Hl calls (__init__ fpm limit) clock
              eq_refl eq_refl Ho) as (E1 & E2 & H).
  { intros v x Hv. simpl in Hv. rewrite lookup_empty in Hv. discriminate. }
  destruct (H u d Hu) as (_ & H2 & H3).
  rewrite E1 in H3. rewrite E2 in H2. split; assumption.
Qed.

Lemma upload_quotas_hold_witness :
  (sum_sizes (files (record_of (fst (run (__init__ 10 100) demo_uploads)) 7))
   <= 100)%Q.
Proof.
  assert (Ho : orderly 0 demo_uploads).
  { simpl. repeat split; try lia; vm_compute; discriminate. }
  assert (Hu : users (fst (run (__init__ 10 100) demo_uploads)) !! 7
               = Some (record_of (fst (run (__init__ 10 100) demo_uploads)) 7)).
  { vm_compute. reflexivity. }
  apply (upload_quotas_hold 10 100 0 demo_uploads 7 _ ltac:(lia)
           ltac:(vm_compute; discriminate) Ho Hu).
Defined.

(** A rejected call that sends the warning: the warning was due, and the
    record afterwards carries the clock read of the call. *)
Lemma call_rejected_warned (mw : t) (m : message) (now : Q) (u : Z)
    (k : limit_kind) :
  from_user m = Some u ->
  snd (__call__ mw (Message m) now) = Rejected k true ->
  (30 < now - last_warning (record_of mw u))%Q /\
  exists d, users (fst (__call__ mw (Message m) now)) !! u = Some d /\
            last_warning d = now.
Proof.
  intros Hu. destruct (attachment_size m) as [sz|] eqn:Ha.
  2:{ unfold __call__. rewrite Ha. discriminate. }
  rewrite (call_attachment mw m now u sz Ha Hu). cbv zeta.
  set (d := record_of mw u). unfold warn.
  destruct (Qltb 30 (now - last_warning d)) eqn:Ew.
  - apply Qltb_lt in Ew.
    repeat match goal with
           | |- context [if ?b then _ else _] => destruct b
           end; cbn [fst snd]; intros H; try discriminate H;
      (split; [exact Ew|]); eexists; (split; [apply lookup_insert_eq|reflexivity]).
  - repeat match goal with
           | |- context [if ?b then _ else _] => destruct b
           end; cbn [fst snd]; intros H; discriminate H.
Qed.

(** A call made at or after [t] leaves a stored [last_warning] that was at
    or after [t] at or after [t]. *)
Lemma call_last_warning_from (mw : t) (ev : event) (now t : Q) (u : Z) :
  (t <= now)%Q ->
  (exists d, users mw !! u = Some d /\ (t <= last_warning d)%Q) ->
  exists d, users (fst (__call__ mw ev now)) !! u = Some d /\
            (t <= last_warning d)%Q.
Proof.
  intros Ht (d & Hd & Hl).
  destruct ev as [|m]; [exists d; auto|].
  destruct (attachment_size m) as [sz|] eqn:Ha.
  2:{ unfold __call__. rewrite Ha. exists d; auto. }
  destruct (from_user m) as [v|] eqn:Hv.
  2:{ unfold __call__. rewrite Ha, Hv. exists d; auto. }
  rewrite (call_attachment mw m now v sz Ha Hv). cbv zeta.
  destruct (decide (v = u)) as [->|Hne].
  - assert (Er : record_of mw u = d).
    { unfold record_of, users_getitem. rewrite Hd. reflexivity. }
    rewrite Er. unfold warn.
    destruct (Qltb 30 (now - last_warning d));
      repeat match goal with
             | |- context [if ?b then _ else _] => destruct b
             end; cbn [fst snd]; eexists;
      (split; [apply lookup_insert_eq|simpl; lra]).
  - assert (Ho : forall x mw', users mw' = <[v := x]> (fst (users_getitem (users mw) v)) ->
                   users mw' !! u = Some d).
    { intros x mw' E. rewrite E, lookup_insert_ne by exact Hne.
      rewrite (upload_getitem_other mw v u Hne). exact Hd. }
    exists d. split; [|exact Hl].
    repeat match goal with
           | |- context [if ?b then _ else _] => destruct b
           end; cbn [fst]; eapply Ho; reflexivity.
Qed.

Lemma run_last_warning_from (calls : list (event * Q)) (mw : t) (t : Q) (u : Z) :
  Forall (fun c => (t <= snd c)%Q) calls ->
  (exists d, users mw !! u = Some d /\ (t <= last_warning d)%Q) ->
  exists d, users (fst (run mw calls)) !! u = Some d /\
            (t <= last_warning d)%Q.
Proof.
  revert mw. induction calls as [|[ev now] rest IH]; intros mw Hf H.
  - exact H.
  - inversion Hf as [|c l Hc Hl]; subst. simpl in Hc.
    rewrite upload_run_cons. cbn [fst]. apply IH; [exact Hl|].
    apply call_last_warning_from; assumption.
Qed.

(** X5.  Two warnings to the same user are more than 30 seconds apart.  If
    an attachment of [u] is rejected at [t1] with the warning sent, and
    after any further calls, none of them made before [t1], another
    attachment of [u] is rejected at [t2] with the warning sent, then
    [t2 - t1 > 30]. *)
Theorem warnings_are_30_seconds_apart
    (mw : t) (m1 m2 : message) (t1 t2 : Q) (u : Z) (k1 k2 : limit_kind)
    (between : list (event * Q)) :
  from_user m1 = Some u -> from_user m2 = Some u ->
  Forall (fun c => (t1 <= snd c)%Q) between -> (t1 <= t2)%Q ->
  snd (__call__ mw (Message m1) t1) = Rejected k1 true ->
  snd (__call__ (fst (run (fst (__call__ mw (Message m1) t1)) between))
         (Message m2) t2) = Rejected k2 true ->
  (30 < t2 - t1)%Q.
Proof.
  intros Hu1 Hu2 Hb Ht H1 H2.
  destruct (call_rejected_warned mw m1 t1 u k1 Hu1 H1) as (_ & d & Hd & Hl).
  destruct (run_last_warning_from between (fst (__call__ mw (Message m1) t1))
              t1 u Hb) as (d' & Hd' & Hl').
  { exists d. split; [exact Hd|]. rewrite Hl. apply Qle_refl. }
  destruct (call_rejected_warned _ m2 t2 u k2 Hu2 H2) as (Hw & _).
  assert (Er : record_of (fst (run (fst (__call__ mw (Message m1) t1)) between)) u
               = d').
  { unfold record_of, users_getitem. rewrite Hd'. reflexivity. }
  rewrite Er in Hw. lra.
Qed.

Lemma warnings_are_30_seconds_apart_witness :
  (30 < (1060 # 1) - (1020 # 1))%Q.
Proof.
  apply (warnings_are_30_seconds_apart
           (fst (run (__init__ 10 100) (firstn 2 demo_uploads)))
           {| photo := [Some (20 * 1024 * 1024)]; document := None;
              from_user := Some 7 |}
           {| photo := [Some (20 * 1024 * 1024)]; document := None;
              from_user := Some 7 |}
           (1020 # 1) (1060 # 1) 7 MegabytesPerHour MegabytesPerHour
           [(demo_photo (20 * 1024 * 1024), 1030 # 1)]).
  - reflexivity.
  - reflexivity.
  - constructor; [vm_compute; discriminate|constructor].
  - vm_compute; discriminate.
  - vm_compute. reflexivity.
  - vm_compute. reflexivity.
Defined.

End FileUploadFacts.

(** ** The mass dispatcher *)

Module BroadcastFacts.
Import Broadcasts.

Section Task.
Variable send_ok : nat -> Z -> bool.
Variable broadcast_id : Z.

Lemma failures_from_cons (i : nat) (user_id : Z) (rest : list Z) :
  failures_from send_ok i (user_id :: rest) =
  (if send_ok i user_id then 0 else 1) + failures_from send_ok (S i) rest.
Proof.
  unfold failures_from. simpl.
  destruct (send_ok i user_id); simpl; lia.
Qed.

(** The loop visits every recipient in order, counts each send exactly once,
    and only ever rewrites the two counters of the job. *)
Lemma loop_counts (user_ids : list Z) :
  forall (i : nat) (st : loop_state) (b : Broadcast),
    db st !! broadcast_id = Some b ->
    let st' := fold_left (loop_body send_ok broadcast_id)
                 (enumerate_from i user_ids) st in
    attempted st' = attempted st ++ user_ids /\
    failed st' = failed st + failures_from send_ok i user_ids /\
    sent st' = sent st
      + (Z.of_nat (length user_ids) - failures_from send_ok i user_ids) /\
    exists b', db st' !! broadcast_id = Some b' /\
               status b' = status b /\ total_count b' = total_count b /\
               sent_at b' = sent_at b.
Proof.
  induction user_ids as [|user_id rest IH]; intros i st b Hb.
  - simpl. rewrite app_nil_r. unfold failures_from. simpl.
    repeat split; try lia. exists b. auto.
  - cbn [enumerate_from fold_left].
    set (st1 := loop_body send_ok broadcast_id st (i, user_id)).
    assert (H1 : exists b1, db st1 !! broadcast_id = Some b1 /\
                   status b1 = status b /\ total_count b1 = total_count b /\
                   sent_at b1 = sent_at b).
    { unfold st1, loop_body. cbn [db].
      destruct ((Z.of_nat i + 1) mod batch_size =? 0).
      - unfold update_progress. rewrite lookup_alter_eq, Hb. simpl.
        eexists. split; [reflexivity|]. simpl. auto.
      - exists b. auto. }
    destruct H1 as (b1 & Hb1 & E1 & E2 & E3).
    destruct (IH (S i) st1 b1 Hb1) as (A & F & G & b' & Hb' & E1' & E2' & E3').
    cbv zeta. rewrite A, F, G. rewrite failures_from_cons.
    split; [|split; [|split]].
    + unfold st1, loop_body. cbn [attempted].
      rewrite <- app_assoc. reflexivity.
    + unfold st1, loop_body. cbn [failed].
      destruct (send_ok i user_id); lia.
    + unfold st1, loop_body. cbn [sent length].
      rewrite Nat2Z.inj_succ. destruct (send_ok i user_id); lia.
    + exists b'. repeat split; congruence.
Qed.

End Task.



Section Scope.
Variable send_ok : nat -> Z -> bool.
Variable broadcast_id : Z.

Lemma loop_body_other_rows (st : loop_state) (p : nat * Z) (other : Z) :
  other <> broadcast_id ->
  db (loop_body send_ok broadcast_id st p) !! other = db st !! other.
Proof.
  intros H. destruct p as [i user_id]. unfold loop_body. cbn [db].
  destruct (_ =? 0); [|reflexivity].
  unfold update_progress. apply lookup_alter_ne. congruence.
Qed.

Lemma loop_other_rows (l : list (nat * Z)) (st : loop_state) (other : Z) :
  other <> broadcast_id ->
  db (fold_left (loop_body send_ok broadcast_id) l st) !! other
  = db st !! other.
Proof.
  intros H. revert st. induction l as [|p l IH]; intros st; [reflexivity|].
  simpl. rewrite IH. apply loop_body_other_rows. exact H.
Qed.

Lemma firstn_enumerate_from (n i : nat) (l : list Z) :
  firstn n (enumerate_from i l) = enumerate_from i (firstn n l).
Proof.
  revert i l. induction n as [|n IH]; intros i l; [reflexivity|].
  destruct l as [|x l]; [reflexivity|]. simpl. rewrite IH. reflexivity.
Qed.

Lemma enumerate_from_snoc (i : nat) (l : list Z) (x : Z) :
  enumerate_from i (l ++ [x]) = enumerate_from i l ++ [((i + length l)%nat, x)].
Proof.
  revert i. induction l as [|y l IH]; intros i; simpl.
  - rewrite Nat.add_0_r. reflexivity.
  - rewrite IH. replace (i + S (length l))%nat with (S i + length l)%nat by lia.
    reflexivity.
Qed.

Lemma failures_from_snoc (i : nat) (l : list Z) (x : Z) :
  failures_from send_ok i (l ++ [x]) =
  failures_from send_ok i l
  + (if send_ok (i + length l)%nat x then 0 else 1).
Proof.
  unfold failures_from. rewrite enumerate_from_snoc, List.filter_app, length_app.
  simpl. destruct (send_ok (i + length l)%nat x); simpl; lia.
Qed.

End Scope.

(** X6.  The task writes to no row but its own: every other row of the
    table is, at the end, what it was at the start.  When the job does not
    exist the task returns at once: the table is unchanged and no send is
    attempted. *)
Theorem task_touches_only_its_row
    (send_ok : nat -> Z -> bool) (broadcast_id : Z) (db0 : table)
    (user_ids : list Z) (now : Z) :
  let st := send_broadcast_task send_ok broadcast_id db0 user_ids now in
  (forall other : Z, other <> broadcast_id -> db st !! other = db0 !! other) /\
  (db0 !! broadcast_id = None -> db st = db0 /\ attempted st = []).
Proof.
  cbv zeta. split.
  - intros other H. unfold send_broadcast_task.
    destruct (db0 !! broadcast_id); [|reflexivity].
    cbn [db]. unfold update_final.
    rewrite lookup_alter_ne by congruence.
    rewrite loop_other_rows by exact H. cbn [db].
    unfold update_start. apply lookup_alter_ne. congruence.
  - intros H. unfold send_broadcast_task. rewrite H. split; reflexivity.
Qed.

(** X7.  Progress is stored after every batch.  For an existing job, right
    after the [n]-th iteration of the loop, [n] a positive multiple of
    [batch_size] within the recipient list, the stored row still has
    [status = sending] and holds the counts of the first [n] recipients:
    [failed_count] is the number of sends that raised among them and
    [sent_count] is [n] minus that number. *)
Theorem progress_is_stored_every_batch
    (send_ok : nat -> Z -> bool) (broadcast_id : Z) (db0 : table)
    (b : Broadcast) (user_ids : list Z) (n : nat) :
  db0 !! broadcast_id = Some b ->
  (0 < n <= length user_ids)%nat ->
  Z.of_nat n mod batch_size = 0 ->
  let k := failures send_ok (firstn n user_ids) in
  db (after_iterations send_ok broadcast_id db0 user_ids n) !! broadcast_id =
    Some {| status := SENDING; sent_count := Z.of_nat n - k;
            failed_count := k;
            total_count := Z.of_nat (length user_ids);
            sent_at := sent_at b |}.
Proof.
  intros Hb Hn Hmod k. unfold after_iterations.
  rewrite firstn_enumerate_from.
  assert (Hl : length (firstn n user_ids) = n) by (rewrite length_firstn; lia).
  assert (Hne : firstn n user_ids <> [])
    by (intros E; rewrite E in Hl; simpl in Hl; lia).
  destruct (exists_last Hne) as (pre & x & E). rewrite E in *.
  rewrite length_app in Hl. simpl in Hl.
  rewrite enumerate_from_snoc, fold_left_app. simpl fold_left.
  set (N := Z.of_nat (length user_ids)).
  assert (Hs : update_start db0 broadcast_id N !! broadcast_id =
    Some {| status := SENDING; sent_count := sent_count b;
            failed_count := failed_count b; total_count := N;
            sent_at := sent_at b |}).
  { unfold update_start. rewrite lookup_alter_eq, Hb. reflexivity. }
  pose proof (loop_counts send_ok broadcast_id pre 0%nat
                {| db := update_start db0 broadcast_id N; sent := 0;
                   failed := 0; attempted := [] |} _ Hs) as H.
  cbv zeta in H. destruct H as (_ & F & G & b' & Hb' & E1 & E2 & E3).
  cbn [attempted db failed sent] in *.
  set (st := fold_left _ _ _) in *.
  unfold loop_body.
  replace (Z.of_nat (length pre) + 1) with (Z.of_nat n) by lia.
  rewrite Hmod. simpl (0 =? 0). cbn [db].
  unfold update_progress. rewrite lookup_alter_eq, Hb'. simpl.
  subst k. unfold failures. rewrite ?E. rewrite failures_from_snoc. simpl.
  rewrite F, G, E1, E2, E3. simpl.
  destruct (send_ok (length pre) x); do 2 f_equal; lia.
Qed.

Lemma task_touches_only_its_row_witness :
  db (send_broadcast_task demo_send_ok 1
        (<[2 := {| status := DRAFT; sent_count := 0; failed_count := 0;
                   total_count := 0; sent_at := None |}]> demo_table)
        [11; 22; 33] 5) !! 2
  = Some {| status := DRAFT; sent_count := 0; failed_count := 0;
            total_count := 0; sent_at := None |}.
Proof.
  rewrite (proj1 (task_touches_only_its_row demo_send_ok 1
                    (<[2 := {| status := DRAFT; sent_count := 0;
                               failed_count := 0; total_count := 0;
                               sent_at := None |}]> demo_table)
                    [11; 22; 33] 5) 2) by discriminate.
  reflexivity.
Defined.

Lemma progress_is_stored_every_batch_witness :
  db (after_iterations demo_send_ok_10 1 demo_table demo_recipients 50) !! 1 =
    Some {| status := SENDING; sent_count := 45; failed_count := 5;
            total_count := 100; sent_at := None |}.
Proof.
  assert (Hn : (0 < 50 <= length demo_recipients)%nat)
    by (vm_compute; lia).
  exact (progress_is_stored_every_batch demo_send_ok_10 1 demo_table
           {| status := DRAFT; sent_count := 0; failed_count := 0;
              total_count := 0; sent_at := None |}
           demo_recipients 50 eq_refl Hn eq_refl).
Defined.

End BroadcastFacts.

(** ** Python strings *)

Module PyStrFacts.
Import PyStr.
Local Open Scope N_scope.

Lemma space_isspace : isspace space = true.
Proof. reflexivity. Qed.

(** *** [lstrip], [rstrip], [strip] *)

Lemma lstrip_head_nonspace (s : str) :
  head_nonspace s = true -> lstrip s = s.
Proof.
  destruct s as [|c r]; [reflexivity|]. simpl.
  destruct (isspace c); [discriminate|reflexivity].
Qed.

Lemma lstrip_app_last (a : str) (c : N) :
  lstrip (a ++ [c]) =
    if forallb isspace a then (if isspace c then [] else [c])
    else lstrip a ++ [c].
Proof.
  induction a as [|x a IH]; simpl.
  - destruct (isspace c); reflexivity.
  - destruct (isspace x) eqn:E; simpl; [exact IH|reflexivity].
Qed.

Lemma lstrip_nil_iff (s : str) : lstrip s = [] <-> forallb isspace s = true.
Proof.
  induction s as [|c r IH]; simpl; [tauto|].
  destruct (isspace c); simpl; [exact IH|].
  split; discriminate.
Qed.

Lemma rstrip_cons (c : N) (r : str) :
  rstrip (c :: r) =
    match rstrip r with
    | [] => if isspace c then [] else [c]
    | _ :: _ => c :: rstrip r
    end.
Proof.
  unfold rstrip. simpl. rewrite lstrip_app_last.
  destruct (forallb isspace (rev r)) eqn:E.
  - apply lstrip_nil_iff in E. rewrite E. simpl.
    destruct (isspace c); reflexivity.
  - destruct (lstrip (rev r)) as [|x l] eqn:El.
    + apply lstrip_nil_iff in El. congruence.
    + rewrite rev_app_distr. simpl.
      destruct (rev l ++ [x]) eqn:Er; [|reflexivity].
      destruct (rev l); discriminate.
Qed.

Lemma rstrip_nil : rstrip [] = [].
Proof. reflexivity. Qed.

Lemma rstrip_nil_iff (s : str) : rstrip s = [] <-> forallb isspace s = true.
Proof.
  induction s as [|c r IH]; [simpl; tauto|].
  rewrite rstrip_cons. simpl.
  destruct (rstrip r) eqn:E.
  - destruct (isspace c); simpl.
    + rewrite <- IH. tauto.
    + split; discriminate.
  - split; [discriminate|]. intros H. apply andb_true_iff in H as [_ H].
    apply IH in H. discriminate.
Qed.

(** *** [split] *)

Lemma split_cons_space (c : N) (r : str) :
  isspace c = true -> split (c :: r) = split r.
Proof. intros H. simpl. rewrite H. reflexivity. Qed.

Lemma split_nonempty (s : str) (c : N) (r : str) :
  s = c :: r -> isspace c = false -> split s <> [].
Proof.
  intros -> H. simpl. rewrite H.
  destruct r as [|c' r']; [discriminate|].
  destruct (isspace c'); [discriminate|].
  destruct (split (c' :: r')); discriminate.
Qed.

Lemma split_nil_iff (s : str) : split s = [] <-> forallb isspace s = true.
Proof.
  induction s as [|c r IH]; [simpl; tauto|].
  destruct (isspace c) eqn:E.
  - rewrite split_cons_space by exact E. simpl. rewrite E. exact IH.
  - simpl forallb. rewrite E. simpl.
    split; [|discriminate].
    intros H. exfalso. exact (split_nonempty _ c r eq_refl E H).
Qed.

(** The three shapes of [split] on a text that starts with a character that
    is not whitespace. *)
Lemma split_cons_word (c : N) (r : str) :
  isspace c = false ->
  (r = [] /\ split (c :: r) = [[c]]) \/
  (exists c' r', r = c' :: r' /\ isspace c' = true /\
                 split (c :: r) = [c] :: split r') \/
  (exists c' r' w ws, r = c' :: r' /\ isspace c' = false /\
                      split r = w :: ws /\ split (c :: r) = (c :: w) :: ws).
Proof.
  intros H. destruct r as [|c' r'].
  - left. simpl. rewrite H. auto.
  - right. destruct (isspace c') eqn:E.
    + left. exists c', r'. repeat split; auto.
      cbn [split]. rewrite H, E. reflexivity.
    + right. destruct (split (c' :: r')) as [|w ws] eqn:Es.
      * exfalso. exact (split_nonempty _ c' r' eq_refl E Es).
      * exists c', r', w, ws. repeat split; auto.
        change (split (c :: c' :: r')) with
          (if isspace c then split (c' :: r')
           else if isspace c' then [c] :: split (c' :: r')
                else match split (c' :: r') with
                     | w :: ws' => (c :: w) :: ws'
                     | [] => [[c]]
                     end).
        rewrite H, E, Es. reflexivity.
Qed.

Lemma split_words (s : str) : forallb is_word (split s) = true.
Proof.
  induction s as [|c r IH]; [reflexivity|].
  destruct (isspace c) eqn:E.
  - rewrite split_cons_space by exact E. exact IH.
  - destruct (split_cons_word c r E)
      as [[-> ->] | [(c' & r' & -> & E' & ->) | (c' & r' & w & ws & -> & E' & Es & ->)]].
    + simpl. unfold is_word. simpl. rewrite E. reflexivity.
    + rewrite split_cons_space in IH by exact E'.
      simpl. rewrite IH. unfold is_word. simpl. rewrite E. reflexivity.
    + rewrite Es in IH. simpl in IH. apply andb_true_iff in IH as [Hw Hws].
      simpl. rewrite Hws. unfold is_word in *. simpl. rewrite E. simpl.
      apply andb_true_iff in Hw as [_ Hw]. rewrite Hw. reflexivity.
Qed.

Lemma is_word_cons (c : N) (r : str) :
  is_word (c :: r) = true <->
  isspace c = false /\ (r = [] \/ is_word r = true).
Proof.
  unfold is_word. simpl. rewrite andb_true_iff, negb_true_iff.
  destruct r as [|c' r']; simpl.
  - split; [intros [H _]; auto|intros [H _]; auto].
  - split.
    + intros [H1 H2]. split; [exact H1|right; exact H2].
    + intros [H1 [H2|H2]]; [discriminate|auto].
Qed.

Lemma split_word (w : str) : is_word w = true -> split w = [w].
Proof.
  induction w as [|c r IH]; [discriminate|].
  intros H. apply is_word_cons in H as [Hc [->|Hr]].
  - simpl. rewrite Hc. reflexivity.
  - destruct (split_cons_word c r Hc)
      as [[-> ->] | [(c' & r' & -> & E' & _) | (c' & r' & w & ws & -> & E' & Es & ->)]].
    + reflexivity.
    + apply is_word_cons in Hr as [Hr _]. congruence.
    + rewrite (IH Hr) in Es. inversion Es; subst. reflexivity.
Qed.

Lemma split_word_app (w s : str) :
  is_word w = true -> split (w ++ space :: s) = w :: split s.
Proof.
  induction w as [|c r IH]; [discriminate|].
  intros H. apply is_word_cons in H as [Hc [->|Hr]].
  - simpl. rewrite Hc. reflexivity.
  - destruct (split_cons_word c (r ++ space :: s) Hc)
      as [[E _] | [(c' & r' & E & E' & _) | (c' & r' & w & ws & E & E' & Es & El)]].
    + destruct r; discriminate.
    + destruct r as [|x r]; [discriminate|].
      apply is_word_cons in Hr as [Hr _]. simpl in E. congruence.
    + simpl. simpl in El. rewrite El.
      rewrite (IH Hr) in Es. inversion Es; subst. reflexivity.
Qed.

(** *** [join] *)

Lemma join_cons2 (sep w w' : str) (rest : list str) :
  join sep (w :: w' :: rest) = w ++ sep ++ join sep (w' :: rest).
Proof. reflexivity. Qed.

Lemma join_cons_head (sep : str) (c : N) (w : str) (rest : list str) :
  join sep ((c :: w) :: rest) = c :: join sep (w :: rest).
Proof. destruct rest; reflexivity. Qed.

Lemma split_join (ws : list str) :
  forallb is_word ws = true -> split (join [space] ws) = ws.
Proof.
  induction ws as [|w ws IH]; [reflexivity|].
  intros H. simpl in H. apply andb_true_iff in H as [Hw Hws].
  destruct ws as [|w' ws'].
  - simpl. apply split_word. exact Hw.
  - rewrite join_cons2.
    change (w ++ [space] ++ join [space] (w' :: ws'))
      with (w ++ space :: join [space] (w' :: ws')).
    rewrite (split_word_app w _ Hw). rewrite (IH Hws). reflexivity.
Qed.

Lemma join_head_nonspace (ws : list str) :
  forallb is_word ws = true -> head_nonspace (join [space] ws) = true.
Proof.
  destruct ws as [|w ws]; [reflexivity|].
  intros H. simpl in H. apply andb_true_iff in H as [Hw _].
  destruct w as [|c r]; [discriminate|].
  rewrite join_cons_head. simpl.
  apply is_word_cons in Hw as [-> _]. reflexivity.
Qed.

Lemma join_nil_iff (ws : list str) :
  forallb is_word ws = true -> (join [space] ws = [] <-> ws = []).
Proof.
  destruct ws as [|w ws]; [simpl; tauto|].
  intros H. simpl in H. apply andb_true_iff in H as [Hw _].
  destruct w as [|c r]; [discriminate|].
  rewrite join_cons_head. split; discriminate.
Qed.

Lemma rstrip_app_nonnil (a s : str) :
  rstrip s <> [] -> rstrip (a ++ s) = a ++ rstrip s.
Proof.
  intros H. induction a as [|c a IH]; [reflexivity|].
  simpl. rewrite rstrip_cons, IH.
  destruct (a ++ rstrip s) eqn:E; [|reflexivity].
  destruct a; simpl in E; [contradiction|discriminate].
Qed.

Lemma rstrip_word (w : str) : is_word w = true -> rstrip w = w.
Proof.
  induction w as [|c r IH]; [discriminate|].
  intros H. apply is_word_cons in H as [Hc [->|Hr]].
  - rewrite rstrip_cons. simpl. rewrite Hc. reflexivity.
  - rewrite rstrip_cons, (IH Hr).
    destruct r; [discriminate|reflexivity].
Qed.

Lemma rstrip_join (ws : list str) :
  forallb is_word ws = true -> rstrip (join [space] ws) = join [space] ws.
Proof.
  induction ws as [|w ws IH]; [reflexivity|].
  intros H. simpl in H. apply andb_true_iff in H as [Hw Hws].
  destruct ws as [|w' ws'].
  - simpl. apply rstrip_word. exact Hw.
  - rewrite join_cons2.
    assert (Hn : rstrip (join [space] (w' :: ws')) <> []).
    { rewrite (IH Hws). intros E. apply join_nil_iff in E; [discriminate|exact Hws]. }
    rewrite app_assoc. rewrite (rstrip_app_nonnil _ _ Hn).
    rewrite (IH Hws). reflexivity.
Qed.

Lemma strip_join (ws : list str) :
  forallb is_word ws = true -> strip (join [space] ws) = join [space] ws.
Proof.
  intros H. unfold strip.
  rewrite (lstrip_head_nonspace _ (join_head_nonspace ws H)).
  apply rstrip_join. exact H.
Qed.

(** A character test that holds of the separator holds of a joined text
    exactly when it holds of every word. *)
Lemma forallb_join (P : N -> bool) (ws : list str) :
  P space = true ->
  forallb P (join [space] ws) = forallb (forallb P) ws.
Proof.
  intros Hs. induction ws as [|w ws IH]; [reflexivity|].
  destruct ws as [|w' ws'].
  - simpl. rewrite andb_true_r. reflexivity.
  - rewrite join_cons2. rewrite !forallb_app. rewrite IH.
    simpl. rewrite Hs. reflexivity.
Qed.

Lemma length_join_two (w w' : str) (rest : list str) :
  forallb is_word (w :: w' :: rest) = true ->
  (3 <= length (join [space] (w :: w' :: rest)))%nat.
Proof.
  intros H. simpl in H.
  apply andb_true_iff in H as [Hw H]. apply andb_true_iff in H as [Hw' _].
  rewrite join_cons2. rewrite !length_app.
  destruct w; [discriminate|]. destruct w' as [|c' r']; [discriminate|].
  rewrite join_cons_head. simpl. lia.
Qed.

(** With at most one word, stripping a text gives that word. *)
Lemma strip_at_most_one_word (s : str) :
  (length (split s) <= 1)%nat -> strip s = join [space] (split s).
Proof.
  induction s as [|c r IH]; [reflexivity|].
  intros H. destruct (isspace c) eqn:E.
  - rewrite split_cons_space in * by exact E.
    unfold strip in *. simpl. rewrite E. apply IH. exact H.
  - unfold strip. rewrite lstrip_head_nonspace by (simpl; rewrite E; reflexivity).
    destruct (split_cons_word c r E)
      as [[-> ->] | [(c' & r' & -> & E' & Hs) | (c' & r' & w & ws & -> & E' & Es & Hs)]].
    + rewrite rstrip_cons. simpl. rewrite E. reflexivity.
    + rewrite Hs in *. simpl in H.
      assert (Hn : split r' = []) by (destruct (split r'); [reflexivity|simpl in H; lia]).
      rewrite Hn. simpl.
      rewrite rstrip_cons.
      assert (Hr : rstrip (c' :: r') = []).
      { apply rstrip_nil_iff. simpl. rewrite E'. apply split_nil_iff. exact Hn. }
      rewrite Hr, E. reflexivity.
    + rewrite Hs in *. simpl in H.
      assert (ws = []) as -> by (destruct ws; [reflexivity|simpl in H; lia]).
      simpl. rewrite rstrip_cons.
      assert (Hr : strip (c' :: r') = w).
      { rewrite IH; rewrite Es; [reflexivity|simpl; lia]. }
      unfold strip in Hr.
      rewrite lstrip_head_nonspace in Hr by (simpl; rewrite E'; reflexivity).
      rewrite Hr.
      pose proof (split_words (c' :: r')) as Hw. rewrite Es in Hw.
      simpl in Hw. destruct w; [discriminate|reflexivity].
Qed.

(** *** Character classes and case mapping *)

Ltac bool_to_prop :=
  repeat match goal with
  | H : _ = false |- _ => apply not_true_iff_false in H
  end;
  unfold is_true in *;
  rewrite ?orb_true_iff, ?andb_true_iff, ?negb_true_iff,
    ?N.leb_le, ?N.eqb_eq in *;
  repeat match goal with
  | H : context [_ = false] |- _ => rewrite <- not_true_iff_false in H
  | |- context [_ = false] => rewrite <- not_true_iff_false
  end;
  rewrite ?orb_true_iff, ?andb_true_iff, ?N.leb_le, ?N.eqb_eq in *.

Ltac unfold_classes :=
  unfold isspace, is_ascii_lower, is_ascii_upper, is_ascii_digit,
    is_cyr_lower, is_cyr_upper, between, hyphen, dot, space, numero,
    underscore, at_sign, slash, backslash, newline in *.

(** Case analysis on the branches of [upper_char] and [lower_char]. *)
Ltac case_map :=
  unfold upper_char, lower_char;
  repeat match goal with
  | |- context [if ?b then _ else _] => destruct b eqn:?
  end.

Ltac char_facts := unfold_classes; bool_to_prop; try lia.

Lemma upper_char_class (P : N -> bool) (c : N) :
  (forall x, P x = true <-> P (upper_char x) = true) ->
  P (upper_char c) = P c.
Proof. intros H. apply eq_true_iff_eq. symmetry. apply H. Qed.

Lemma isspace_upper (c : N) : isspace (upper_char c) = isspace c.
Proof. apply eq_true_iff_eq. case_map; char_facts. Qed.

Lemma isspace_lower (c : N) : isspace (lower_char c) = isspace c.
Proof. apply eq_true_iff_eq. case_map; char_facts. Qed.

Lemma upper_char_idem (c : N) : upper_char (upper_char c) = upper_char c.
Proof.
  unfold upper_char at 2.
  repeat match goal with
  | |- context [if ?b then _ else _] => destruct b eqn:?
  end; unfold upper_char;
  repeat match goal with
  | |- context [if ?b then _ else _] => destruct b eqn:?
  end; char_facts.
Qed.

Lemma lower_char_idem (c : N) : lower_char (lower_char c) = lower_char c.
Proof.
  unfold lower_char at 2.
  repeat match goal with
  | |- context [if ?b then _ else _] => destruct b eqn:?
  end; unfold lower_char;
  repeat match goal with
  | |- context [if ?b then _ else _] => destruct b eqn:?
  end; char_facts.
Qed.

Lemma digit_upper (c : N) : is_ascii_digit (upper_char c) = is_ascii_digit c.
Proof. apply eq_true_iff_eq. case_map; char_facts. Qed.

Lemma forallb_map_same (P : N -> bool) (f : N -> N) (l : str) :
  (forall x, P (f x) = P x) -> forallb P (List.map f l) = forallb P l.
Proof.
  intros H. induction l as [|x l IH]; [reflexivity|].
  simpl. rewrite H, IH. reflexivity.
Qed.

Lemma capitalize_idem (w : str) : capitalize (capitalize w) = capitalize w.
Proof.
  destruct w as [|c r]; [reflexivity|].
  simpl. rewrite upper_char_idem. f_equal.
  unfold lower. rewrite map_map. apply map_ext. apply lower_char_idem.
Qed.

Lemma capitalize_word (w : str) : is_word (capitalize w) = is_word w.
Proof.
  destruct w as [|c r]; [reflexivity|].
  unfold is_word. simpl. rewrite isspace_upper. f_equal.
  unfold lower. apply forallb_map_same.
  intros x. rewrite isspace_lower. reflexivity.
Qed.

Lemma length_capitalize (w : str) : length (capitalize w) = length w.
Proof.
  destruct w as [|c r]; [reflexivity|].
  simpl. unfold lower. rewrite length_map. reflexivity.
Qed.

End PyStrFacts.

(** ** The validators *)

Module ValidationFacts.
Import PyStr PyStrFacts Validation.
Local Open Scope N_scope.

Lemma fio_char_upper (c : N) : fio_char (upper_char c) = fio_char c.
Proof.
  apply eq_true_iff_eq. unfold fio_char, is_letter.
  case_map; char_facts.
Qed.

Lemma fio_char_lower (c : N) : fio_char (lower_char c) = fio_char c.
Proof.
  apply eq_true_iff_eq. unfold fio_char, is_letter.
  case_map; char_facts.
Qed.

Lemma city_char_upper (c : N) : city_char (upper_char c) = city_char c.
Proof.
  apply eq_true_iff_eq. unfold city_char, is_letter.
  case_map; char_facts.
Qed.

Lemma city_char_lower (c : N) : city_char (lower_char c) = city_char c.
Proof.
  apply eq_true_iff_eq. unfold city_char, is_letter.
  case_map; char_facts.
Qed.

Lemma forallb_capitalize (P : N -> bool) (w : str) :
  (forall c, P (upper_char c) = P c) -> (forall c, P (lower_char c) = P c) ->
  forallb P (capitalize w) = forallb P w.
Proof.
  intros Hu Hl. destruct w as [|c r]; [reflexivity|].
  simpl. rewrite Hu. f_equal. unfold lower. apply forallb_map_same. exact Hl.
Qed.

Lemma forallb_map_words (P : str -> bool) (f : str -> str) (ws : list str) :
  (forall w, P (f w) = P w) ->
  forallb P (List.map f ws) = forallb P ws.
Proof.
  intros H. induction ws as [|w ws IH]; [reflexivity|].
  simpl. rewrite H, IH. reflexivity.
Qed.

Lemma length_join_map (f : str -> str) (ws : list str) :
  (forall w, length (f w) = length w) ->
  length (join [space] (List.map f ws)) = length (join [space] ws).
Proof.
  intros H. induction ws as [|w ws IH]; [reflexivity|].
  destruct ws as [|w' ws'].
  - simpl. apply H.
  - change (List.map f (w :: w' :: ws'))
      with (f w :: f w' :: List.map f ws').
    rewrite !join_cons2. rewrite !length_app.
    change (f w' :: List.map f ws') with (List.map f (w' :: ws')).
    rewrite IH, H. reflexivity.
Qed.

(** Collapsing the whitespace of a text whose stripped form has at least
    [k <= 3] characters leaves at least [k] characters. *)
Lemma length_join_split (text : str) (k : nat) :
  (k <= 3)%nat -> (k <= length (strip text))%nat ->
  (k <= length (join [space] (split text)))%nat.
Proof.
  intros Hk H.
  pose proof (split_words text) as Hw.
  destruct (split text) as [|w [|w' rest]] eqn:E.
  - rewrite strip_at_most_one_word in H by (rewrite E; simpl; lia).
    rewrite E in H. exact H.
  - rewrite strip_at_most_one_word in H by (rewrite E; simpl; lia).
    rewrite E in H. exact H.
  - pose proof (length_join_two w w' rest Hw). lia.
Qed.

Lemma is_empty_false (s : str) : (1 <= length s)%nat -> is_empty s = false.
Proof. destruct s; simpl; [lia|reflexivity]. Qed.

Lemma match_class_forallb (P : N -> bool) (s : str) :
  match_class P s = true <-> s <> [] /\ forallb P s = true.
Proof.
  destruct s as [|c r]; simpl.
  - split; [discriminate|intros [H _]; congruence].
  - split; [intros H; split; [discriminate|exact H]|tauto].
Qed.

(** What an accepted full name looks like. *)
Lemma validate_fio_Valid (text n : str) :
  validate_fio text = Valid n ->
  let ws := split text in
  n = join [space] (List.map capitalize ws) /\
  (2 <= length ws)%nat /\
  forallb (forallb fio_char) ws = true.
Proof.
  unfold validate_fio. intros H.
  destruct (is_empty text || (length (strip text) <? 5)%nat); [discriminate|].
  rewrite (split_join _ (split_words text)) in H.
  destruct (length (split text) <? 2)%nat eqn:E2; [discriminate|].
  destruct (match_class fio_char (join [space] (split text))) eqn:Em;
    [|discriminate].
  simpl in H. inversion H. cbv zeta.
  split; [reflexivity|]. split.
  - apply Nat.ltb_ge in E2. exact E2.
  - apply match_class_forallb in Em as [_ Em].
    rewrite forallb_join in Em by reflexivity. exact Em.
Qed.

(** A full name in normal form with at least five characters is accepted
    again, unchanged. *)
Lemma validate_fio_normal (ws : list str) :
  forallb is_word ws = true ->
  (2 <= length ws)%nat ->
  forallb (forallb fio_char) ws = true ->
  (5 <= length (join [space] (List.map capitalize ws)))%nat ->
  validate_fio (join [space] (List.map capitalize ws))
    = Valid (join [space] (List.map capitalize ws)).
Proof.
  intros Hw Hl Hc H5.
  set (ws' := List.map capitalize ws) in *.
  assert (Hw' : forallb is_word ws' = true).
  { unfold ws'. rewrite forallb_map_words; [exact Hw|apply capitalize_word]. }
  assert (Hc' : forallb (forallb fio_char) ws' = true).
  { unfold ws'. rewrite forallb_map_words; [exact Hc|].
    intros w. apply forallb_capitalize; [apply fio_char_upper|apply fio_char_lower]. }
  unfold validate_fio.
  rewrite is_empty_false by lia.
  rewrite (strip_join _ Hw').
  assert (E5 : (length (join [space] ws') <? 5)%nat = false)
    by (apply Nat.ltb_ge; exact H5).
  rewrite E5. simpl orb. cbv iota.
  rewrite (split_join _ Hw').
  rewrite (split_join _ Hw').
  assert (E2 : (length ws' <? 2)%nat = false).
  { apply Nat.ltb_ge. unfold ws'. rewrite length_map. exact Hl. }
  rewrite E2.
  assert (Em : match_class fio_char (join [space] ws') = true).
  { apply match_class_forallb. split.
    - intros E. rewrite E in H5. simpl in H5. lia.
    - rewrite forallb_join by reflexivity. exact Hc'. }
  rewrite Em. simpl negb. cbv iota.
  unfold ws'. rewrite map_map.
  f_equal. f_equal. apply map_ext. apply capitalize_idem.
Qed.

Lemma cud_idem (w : str) :
  capitalize_unless_digit (capitalize_unless_digit w) = capitalize_unless_digit w.
Proof.
  destruct w as [|c r]; [reflexivity|].
  unfold capitalize_unless_digit at 2.
  destruct (is_ascii_digit c) eqn:E.
  - unfold capitalize_unless_digit. rewrite E. reflexivity.
  - unfold capitalize_unless_digit. simpl. rewrite digit_upper, E.
    exact (capitalize_idem (c :: r)).
Qed.

Lemma cud_word (w : str) : is_word (capitalize_unless_digit w) = is_word w.
Proof.
  destruct w as [|c r]; [reflexivity|].
  unfold capitalize_unless_digit.
  destruct (is_ascii_digit c); [reflexivity|apply capitalize_word].
Qed.

Lemma length_cud (w : str) : length (capitalize_unless_digit w) = length w.
Proof.
  destruct w as [|c r]; [reflexivity|].
  unfold capitalize_unless_digit.
  destruct (is_ascii_digit c); [reflexivity|apply length_capitalize].
Qed.

Lemma forallb_cud (w : str) :
  forallb city_char (capitalize_unless_digit w) = forallb city_char w.
Proof.
  destruct w as [|c r]; [reflexivity|].
  unfold capitalize_unless_digit.
  destruct (is_ascii_digit c); [reflexivity|].
  apply forallb_capitalize; [apply city_char_upper|apply city_char_lower].
Qed.

(** [validate_city] accepts its own output and returns it unchanged. *)
Lemma validate_city_idem (text n : str) :
  validate_city text = Valid n -> validate_city n = Valid n.
Proof.
  unfold validate_city at 1. intros H.
  destruct (is_empty text || (length (strip text) <? 2)%nat) eqn:E0;
    [discriminate|].
  apply orb_false_iff in E0 as [_ E0]. apply Nat.ltb_ge in E0.
  rewrite (split_join _ (split_words text)) in H.
  destruct (match_class city_char (join [space] (split text))) eqn:Em;
    [|discriminate].
  simpl in H. inversion H as [Hn]. clear H.
  apply match_class_forallb in Em as [_ Em].
  rewrite forallb_join in Em by reflexivity.
  set (ws := split text) in *.
  set (ws' := List.map capitalize_unless_digit ws) in *.
  pose proof (split_words text) as Hw. fold ws in Hw.
  assert (Hw' : forallb is_word ws' = true).
  { unfold ws'. rewrite forallb_map_words; [exact Hw|apply cud_word]. }
  assert (Hc' : forallb (forallb city_char) ws' = true).
  { unfold ws'. rewrite forallb_map_words; [exact Em|apply forallb_cud]. }
  assert (H2 : (2 <= length (join [space] ws'))%nat).
  { unfold ws'. rewrite length_join_map by apply length_cud.
    apply length_join_split; [lia|exact E0]. }
  unfold validate_city.
  rewrite is_empty_false by lia.
  rewrite (strip_join _ Hw').
  assert (E2 : (length (join [space] ws') <? 2)%nat = false)
    by (apply Nat.ltb_ge; exact H2).
  rewrite E2. simpl orb. cbv iota.
  rewrite (split_join _ Hw').
  assert (Em' : match_class city_char (join [space] ws') = true).
  { apply match_class_forallb. split.
    - intros E. rewrite E in H2. simpl in H2. lia.
    - rewrite forallb_join by reflexivity. exact Hc'. }
  rewrite Em'. simpl negb. cbv iota.
  rewrite (split_join _ Hw').
  unfold ws'. rewrite map_map.
  f_equal. f_equal. apply map_ext. apply cud_idem.
Qed.

(** *** The two replacements of [validate_school] *)

Lemma replace_numero_cons (c : N) (r : str) :
  replace [numero] [numero; space] (c :: r) =
    if c =? numero then numero :: space :: replace [numero] [numero; space] r
    else c :: replace [numero] [numero; space] r.
Proof.
  unfold replace. simpl. rewrite andb_true_r, N.eqb_sym.
  destruct (c =? numero); reflexivity.
Qed.

Lemma replace_numero_head (c : N) (r : str) :
  exists t, replace [numero] [numero; space] (c :: r) = c :: t.
Proof.
  rewrite replace_numero_cons. destruct (c =? numero) eqn:E; eauto.
  apply N.eqb_eq in E. subst. eauto.
Qed.

Lemma replace_from_0 (old new : str) (c : N) (rest : str) :
  replace_from 0 old new (c :: rest) =
    if startswith old (c :: rest)
    then new ++ replace_from (length old - 1) old new rest
    else c :: replace_from 0 old new rest.
Proof. reflexivity. Qed.

Lemma collapse_cons_other (c : N) (r : str) :
  c <> space ->
  replace [space; space] [space] (c :: r) = c :: replace [space; space] [space] r.
Proof.
  intros H. unfold replace. rewrite replace_from_0.
  assert (E : (space =? c) = false) by (apply N.eqb_neq; congruence).
  cbn [startswith]. rewrite E. reflexivity.
Qed.

Lemma collapse_space_space (r : str) :
  replace [space; space] [space] (space :: space :: r)
    = space :: replace [space; space] [space] r.
Proof. reflexivity. Qed.

Lemma collapse_space_other (c : N) (r : str) :
  c <> space ->
  replace [space; space] [space] (space :: c :: r)
    = space :: replace [space; space] [space] (c :: r).
Proof.
  intros H. unfold replace. rewrite replace_from_0.
  assert (E : (space =? c) = false) by (apply N.eqb_neq; congruence).
  cbn [startswith]. rewrite E, andb_false_r. reflexivity.
Qed.

Lemma collapse_space_end :
  replace [space; space] [space] [space] = [space].
Proof. reflexivity. Qed.

Lemma head_nonspace_not_space (c : N) (r : str) :
  head_nonspace (c :: r) = true -> c <> space.
Proof. simpl. intros H E. subst. discriminate. Qed.

(** On a single-spaced text the two replacements put a space after every
    numero sign that lacks one. *)
Lemma replace_replace_single_spaced (s : str) :
  single_spaced s = true ->
  replace [space; space] [space] (replace [numero] [numero; space] s)
    = space_after_numero s.
Proof.
  induction s as [|c r IH]; [reflexivity|].
  intros H. simpl in H. apply andb_true_iff in H as [Hc Hr].
  specialize (IH Hr).
  rewrite replace_numero_cons.
  destruct (c =? numero) eqn:En.
  - apply N.eqb_eq in En. subst c.
    rewrite collapse_cons_other by discriminate.
    destruct r as [|c' r'].
    + reflexivity.
    + cbn [space_after_numero]. simpl (numero =? numero).
      destruct (replace_numero_head c' r') as [t Et].
      rewrite Et in *.
      destruct (c' =? space) eqn:Es.
      * apply N.eqb_eq in Es. subst c'.
        rewrite collapse_space_space. f_equal.
        simpl in Hr. apply andb_true_iff in Hr as [Hh _].
        cbn [space_after_numero] in IH. simpl (space =? numero) in IH.
        cbv iota in IH. rewrite <- IH.
        rewrite replace_numero_cons in Et. simpl in Et. inversion Et.
        destruct r' as [|x r'']; [reflexivity|].
        destruct (replace_numero_head x r'') as [t' Et'].
        rewrite Et'. rewrite collapse_space_other; [reflexivity|].
        apply (head_nonspace_not_space x r''). exact Hh.
      * apply N.eqb_neq in Es.
        rewrite collapse_space_other by exact Es.
        rewrite IH. reflexivity.
  - apply N.eqb_neq in En.
    cbn [space_after_numero].
    assert (En' : (c =? numero) = false) by (apply N.eqb_neq; exact En).
    rewrite En'.
    destruct (N.eq_dec c space) as [->|Hs].
    + simpl in Hc.
      destruct r as [|x r']; [reflexivity|].
      destruct (replace_numero_head x r') as [t Et].
      rewrite Et in *.
      rewrite collapse_space_other; [rewrite IH; reflexivity|].
      apply (head_nonspace_not_space x r'). exact Hc.
    + rewrite collapse_cons_other by exact Hs. rewrite IH. reflexivity.
Qed.

(** *** [space_after_numero] *)

Lemma san_cons_other (c : N) (r : str) :
  c <> numero -> space_after_numero (c :: r) = c :: space_after_numero r.
Proof.
  intros H. cbn [space_after_numero].
  assert (E : (c =? numero) = false) by (apply N.eqb_neq; exact H).
  rewrite E. reflexivity.
Qed.

Lemma san_numero_nil : space_after_numero [numero] = [numero; space].
Proof. reflexivity. Qed.

Lemma san_numero_space (r : str) :
  space_after_numero (numero :: space :: r)
    = numero :: space :: space_after_numero r.
Proof. reflexivity. Qed.

Lemma san_numero_other (c : N) (r : str) :
  c <> space ->
  space_after_numero (numero :: c :: r)
    = numero :: space :: space_after_numero (c :: r).
Proof.
  intros H.
  assert (E : (c =? space) = false) by (apply N.eqb_neq; exact H).
  change (space_after_numero (numero :: c :: r))
    with (if c =? space then numero :: space_after_numero (c :: r)
          else numero :: space :: space_after_numero (c :: r)).
  rewrite E. reflexivity.
Qed.

(** The case analysis that the lemmas on [space_after_numero] share. *)
Lemma san_cases (c : N) (r : str) :
  (c <> numero /\ space_after_numero (c :: r) = c :: space_after_numero r) \/
  (c = numero /\ r = [] /\ space_after_numero (c :: r) = [numero; space]) \/
  (c = numero /\ (exists r', r = space :: r') /\
   space_after_numero (c :: r) = numero :: space_after_numero r) \/
  (c = numero /\ (exists c' r', r = c' :: r' /\ c' <> space) /\
   space_after_numero (c :: r) = numero :: space :: space_after_numero r).
Proof.
  destruct (N.eq_dec c numero) as [->|Hc].
  - right. destruct r as [|c' r'].
    + left. auto.
    + right. destruct (N.eq_dec c' space) as [->|Hs].
      * left. split; [reflexivity|]. split; [eauto|reflexivity].
      * right. split; [reflexivity|]. split; [eauto|].
        apply san_numero_other. exact Hs.
  - left. split; [exact Hc|]. apply san_cons_other. exact Hc.
Qed.

Lemma san_head (c : N) (r : str) :
  exists t, space_after_numero (c :: r) = c :: t.
Proof.
  destruct (san_cases c r)
    as [[_ ->] | [(-> & _ & ->) | [(-> & _ & ->) | (-> & _ & ->)]]]; eauto.
Qed.

Lemma san_nil_iff (s : str) : space_after_numero s = [] <-> s = [].
Proof.
  destruct s as [|c r]; [tauto|].
  destruct (san_head c r) as [t ->]. split; discriminate.
Qed.

Lemma san_head_nonspace (s : str) :
  head_nonspace (space_after_numero s) = head_nonspace s.
Proof.
  destruct s as [|c r]; [reflexivity|].
  destruct (san_head c r) as [t ->]. reflexivity.
Qed.

Lemma san_idem (s : str) :
  space_after_numero (space_after_numero s) = space_after_numero s.
Proof.
  induction s as [|c r IH]; [reflexivity|].
  destruct (san_cases c r)
    as [[Hc ->] | [(-> & -> & ->) | [(-> & (r' & ->) & ->) | (-> & (c' & r' & -> & Hs) & ->)]]].
  - rewrite san_cons_other by exact Hc. rewrite IH. reflexivity.
  - reflexivity.
  - rewrite (san_cons_other space r') in * by discriminate.
    rewrite san_numero_space.
    rewrite (san_cons_other space) in IH by discriminate.
    injection IH as IH'. rewrite IH'. reflexivity.
  - rewrite san_numero_space. rewrite IH. reflexivity.
Qed.

Lemma length_san (s : str) : (length s <= length (space_after_numero s))%nat.
Proof.
  induction s as [|c r IH]; [simpl; lia|].
  destruct (san_cases c r)
    as [[Hc ->] | [(-> & -> & ->) | [(-> & _ & ->) | (-> & _ & ->)]]];
    simpl; lia.
Qed.

Lemma san_longer (s : str) :
  space_after_numero s = s \/ (length s < length (space_after_numero s))%nat.
Proof.
  induction s as [|c r IH]; [left; reflexivity|].
  pose proof (length_san r) as Hl.
  destruct (san_cases c r)
    as [[Hc ->] | [(-> & -> & ->) | [(-> & _ & ->) | (-> & _ & ->)]]].
  - destruct IH as [->|IH]; [left; reflexivity|right; simpl; lia].
  - right. simpl. lia.
  - destruct IH as [->|IH]; [left; reflexivity|right; simpl; lia].
  - right. simpl. lia.
Qed.

Lemma san_snoc_numero (m : str) :
  space_after_numero (m ++ [numero]) = space_after_numero (m ++ [numero; space]).
Proof.
  induction m as [|c m IH]; [reflexivity|].
  destruct (N.eq_dec c numero) as [->|Hc].
  - destruct m as [|x m'].
    + reflexivity.
    + destruct (N.eq_dec x space) as [->|Hs].
      * change ((numero :: space :: m') ++ [numero])
          with (numero :: space :: (m' ++ [numero])).
        change ((numero :: space :: m') ++ [numero; space])
          with (numero :: space :: (m' ++ [numero; space])).
        rewrite !san_numero_space.
        change ((space :: m') ++ [numero]) with (space :: (m' ++ [numero])) in IH.
        change ((space :: m') ++ [numero; space])
          with (space :: (m' ++ [numero; space])) in IH.
        rewrite !(san_cons_other space) in IH by discriminate.
        injection IH as IH'. rewrite IH'. reflexivity.
      * change ((numero :: x :: m') ++ [numero])
          with (numero :: x :: (m' ++ [numero])).
        change ((numero :: x :: m') ++ [numero; space])
          with (numero :: x :: (m' ++ [numero; space])).
        rewrite !san_numero_other by exact Hs.
        change (x :: (m' ++ [numero])) with ((x :: m') ++ [numero]).
        change (x :: (m' ++ [numero; space])) with ((x :: m') ++ [numero; space]).
        rewrite IH. reflexivity.
  - change ((c :: m) ++ [numero]) with (c :: (m ++ [numero])).
    change ((c :: m) ++ [numero; space]) with (c :: (m ++ [numero; space])).
    rewrite !san_cons_other by exact Hc. rewrite IH. reflexivity.
Qed.

(** *** Single-spaced texts *)

Lemma single_spaced_cons (c : N) (r : str) :
  single_spaced (c :: r) = true <->
  (isspace c = true -> c = space /\ head_nonspace r = true) /\
  single_spaced r = true.
Proof.
  cbn [single_spaced]. rewrite andb_true_iff.
  destruct (isspace c); rewrite ?andb_true_iff, ?N.eqb_eq.
  - split; [intros [H1 H2]; split; [intros _; exact H1|exact H2]|].
    intros [H1 H2]. split; [apply H1; reflexivity|exact H2].
  - split; [intros [_ H]; split; [discriminate|exact H]|].
    intros [_ H]. split; [reflexivity|exact H].
Qed.

Lemma single_spaced_word (w : str) :
  forallb (fun c => negb (isspace c)) w = true -> single_spaced w = true.
Proof.
  induction w as [|c r IH]; [reflexivity|].
  intros H. simpl in H. apply andb_true_iff in H as [Hc Hr].
  apply single_spaced_cons. apply negb_true_iff in Hc.
  split; [rewrite Hc; discriminate|apply IH; exact Hr].
Qed.

Lemma single_spaced_app (w s : str) :
  forallb (fun c => negb (isspace c)) w = true ->
  single_spaced s = true -> single_spaced (w ++ s) = true.
Proof.
  induction w as [|c r IH]; [intros _ H; exact H|].
  intros H Hs. simpl in H. apply andb_true_iff in H as [Hc Hr].
  change ((c :: r) ++ s) with (c :: (r ++ s)).
  apply single_spaced_cons. apply negb_true_iff in Hc.
  split; [rewrite Hc; discriminate|apply IH; assumption].
Qed.

Lemma single_spaced_join (ws : list str) :
  forallb is_word ws = true -> single_spaced (join [space] ws) = true.
Proof.
  induction ws as [|w ws IH]; [reflexivity|].
  intros H. simpl in H. apply andb_true_iff in H as [Hw Hws].
  unfold is_word in Hw. apply andb_true_iff in Hw as [_ Hw].
  destruct ws as [|w' ws'].
  - simpl. apply single_spaced_word. exact Hw.
  - rewrite join_cons2. apply single_spaced_app; [exact Hw|].
    change ([space] ++ join [space] (w' :: ws'))
      with (space :: join [space] (w' :: ws')).
    apply single_spaced_cons. split.
    + intros _. split; [reflexivity|]. apply join_head_nonspace. exact Hws.
    + apply IH. exact Hws.
Qed.

Lemma single_spaced_san (s : str) :
  single_spaced s = true -> single_spaced (space_after_numero s) = true.
Proof.
  induction s as [|c r IH]; [reflexivity|].
  intros H. apply single_spaced_cons in H as [Hc Hr].
  specialize (IH Hr).
  destruct (san_cases c r)
    as [[Hn ->] | [(-> & -> & ->) | [(-> & _ & ->) | (-> & (c' & r' & -> & Hs) & ->)]]].
  - apply single_spaced_cons. split; [|exact IH].
    intros Hsp. destruct (Hc Hsp) as [-> Hh]. split; [reflexivity|].
    rewrite san_head_nonspace. exact Hh.
  - reflexivity.
  - apply single_spaced_cons. split; [discriminate|exact IH].
  - apply single_spaced_cons. split; [discriminate|].
    apply single_spaced_cons. split; [|exact IH].
    intros _. split; [reflexivity|].
    rewrite san_head_nonspace. simpl.
    apply single_spaced_cons in Hr as [Hc' _].
    destruct (isspace c') eqn:E; [|reflexivity].
    destruct (Hc' eq_refl) as [-> _]. congruence.
Qed.

(** Collapsing the whitespace of a single-spaced text that does not start
    with a space only removes a final space. *)
Lemma join_split_single_spaced (n : str) :
  single_spaced n = true -> head_nonspace n = true ->
  n = join [space] (split n) \/ n = join [space] (split n) ++ [space].
Proof.
  remember (length n) as k eqn:Hk. revert n Hk.
  induction k as [k IH] using lt_wf_ind. intros n Hk Hss Hh.
  destruct n as [|c r]; [left; reflexivity|].
  apply single_spaced_cons in Hss as [_ Hr].
  simpl in Hh. apply negb_true_iff in Hh.
  destruct (split_cons_word c r Hh)
    as [[-> ->] | [(c' & r' & -> & E' & ->) | (c' & r' & w & ws & -> & E' & Es & ->)]].
  - left. reflexivity.
  - apply single_spaced_cons in Hr as [Hc' Hr'].
    destruct (Hc' E') as [-> Hh'].
    destruct (split r') as [|w ws] eqn:Es.
    + apply split_nil_iff in Es.
      destruct r' as [|x r'']; [right; reflexivity|].
      simpl in Hh', Es. apply andb_true_iff in Es as [Es _].
      rewrite Es in Hh'. discriminate.
    + rewrite join_cons2. rewrite <- Es.
      assert (Hlt : (length r' < k)%nat) by (subst k; simpl; lia).
      destruct (IH (length r') Hlt r' eq_refl Hr' Hh') as [IH'|IH'].
      * left. simpl. do 2 f_equal. exact IH'.
      * right. simpl. do 2 f_equal. exact IH'.
  - rewrite join_cons_head. rewrite <- Es.
    assert (Hh2 : head_nonspace (c' :: r') = true)
      by (simpl; rewrite E'; reflexivity).
    assert (Hlt : (length (c' :: r') < k)%nat) by (subst k; simpl; lia).
    destruct (IH _ Hlt (c' :: r') eq_refl Hr Hh2) as [IH'|IH'].
    + left. f_equal. exact IH'.
    + right. change ((c :: join [space] (split (c' :: r'))) ++ [space])
        with (c :: (join [space] (split (c' :: r')) ++ [space])).
      f_equal. exact IH'.
Qed.

Lemma cons_eq_snoc (c a : N) (x m : str) :
  c :: x = m ++ [a] -> x <> [] -> exists m1, m = c :: m1 /\ x = m1 ++ [a].
Proof.
  intros H Hx. destruct m as [|c0 m1].
  - simpl in H. injection H as _ H. contradiction.
  - simpl in H. injection H as -> H. eauto.
Qed.

Lemma rstrip_fixed_cons (c : N) (r : str) :
  rstrip (c :: r) = c :: r ->
  (r = [] /\ isspace c = false) \/ (r <> [] /\ rstrip r = r).
Proof.
  rewrite rstrip_cons. destruct (rstrip r) as [|x l] eqn:E.
  - destruct (isspace c); [discriminate|].
    intros H. injection H as H. left. auto.
  - intros H. injection H as H. right.
    split; [rewrite <- H; discriminate|exact H].
Qed.

(** When a text that does not end with whitespace gets a final space from
    [space_after_numero], that space follows a numero sign. *)
Lemma san_trailing_space (T : str) :
  forall m, rstrip T = T -> space_after_numero T = m ++ [space] ->
            exists m', m = m' ++ [numero].
Proof.
  induction T as [|c r IH]; intros m Hfix H.
  - destruct m; discriminate.
  - destruct (rstrip_fixed_cons c r Hfix) as [[-> Hc]|[Hne Hr]].
    + destruct (N.eq_dec c numero) as [->|Hn].
      * rewrite san_numero_nil in H.
        exists []. destruct m as [|x [|y m]]; simpl in H.
        -- discriminate.
        -- injection H as ->. reflexivity.
        -- injection H as _ _ H. destruct m; discriminate.
      * rewrite san_cons_other in H by exact Hn. simpl in H.
        destruct m as [|x m]; simpl in H.
        -- injection H as ->. discriminate.
        -- injection H as _ H. destruct m; discriminate.
    + assert (Hg : space_after_numero r <> [])
        by (intros E; apply (proj1 (san_nil_iff r)) in E; contradiction).
      destruct (san_cases c r)
        as [[Hn E] | [(-> & -> & _) | [(-> & _ & E) | (-> & _ & E)]]].
      * rewrite E in H.
        destruct (cons_eq_snoc _ _ _ _ H Hg) as (m1 & -> & H1).
        destruct (IH m1 Hr H1) as [m' ->]. exists (c :: m'). reflexivity.
      * contradiction.
      * rewrite E in H.
        destruct (cons_eq_snoc _ _ _ _ H Hg) as (m1 & -> & H1).
        destruct (IH m1 Hr H1) as [m' ->]. exists (numero :: m'). reflexivity.
      * rewrite E in H.
        destruct (cons_eq_snoc _ _ _ _ H ltac:(discriminate)) as (m1 & -> & H1).
        destruct (cons_eq_snoc _ _ _ _ H1 Hg) as (m2 & -> & H2).
        destruct (IH m2 Hr H2) as [m' ->].
        exists (numero :: space :: m'). reflexivity.
Qed.

Lemma rstrip_snoc_space (s : str) : rstrip (s ++ [space]) = rstrip s.
Proof. unfold rstrip. rewrite rev_app_distr. reflexivity. Qed.

Lemma length_rstrip (s : str) : (length (rstrip s) <= length s)%nat.
Proof.
  induction s as [|c r IH]; [simpl; lia|].
  rewrite rstrip_cons. destruct (rstrip r); [destruct (isspace c)|];
    simpl in *; lia.
Qed.

Lemma strip_join_space (ws : list str) :
  forallb is_word ws = true ->
  strip (join [space] ws ++ [space]) = join [space] ws.
Proof.
  intros H. destruct ws as [|w ws'] eqn:E; [reflexivity|]. rewrite <- E in *.
  unfold strip. rewrite lstrip_head_nonspace.
  - rewrite rstrip_snoc_space. apply rstrip_join. exact H.
  - pose proof (join_head_nonspace ws H) as Hh.
    destruct (join [space] ws) eqn:Ej; [|exact Hh].
    apply join_nil_iff in Ej; [congruence|exact H].
Qed.

(** [validate_school] accepts its own output and returns it unchanged. *)
Lemma validate_school_idem (text n : str) :
  validate_school text = Valid n -> validate_school n = Valid n.
Proof.
  unfold validate_school at 1. intros H.
  destruct (is_empty text || (length (strip text) <? 3)%nat) eqn:E0;
    [discriminate|].
  apply orb_false_iff in E0 as [_ E0]. apply Nat.ltb_ge in E0.
  cbv zeta in H. injection H as Hn.
  set (T := join [space] (split text)) in *.
  pose proof (split_words text) as HwT.
  assert (HssT : single_spaced T = true) by (apply single_spaced_join; exact HwT).
  rewrite (replace_replace_single_spaced T HssT) in Hn.
  assert (HlT : (3 <= length T)%nat) by (apply length_join_split; [lia|exact E0]).
  assert (HfixT : rstrip T = T) by (apply rstrip_join; exact HwT).
  assert (Hss : single_spaced n = true)
    by (rewrite <- Hn; apply single_spaced_san; exact HssT).
  assert (Hh : head_nonspace n = true).
  { rewrite <- Hn, san_head_nonspace. apply join_head_nonspace. exact HwT. }
  assert (Hln : (length T <= length n)%nat) by (rewrite <- Hn; apply length_san).
  assert (Hidem : space_after_numero n = n) by (rewrite <- Hn; apply san_idem).
  pose proof (split_words n) as Hw.
  set (m := join [space] (split n)) in *.
  assert (Hssm : single_spaced m = true) by (apply single_spaced_join; exact Hw).
  assert (Hcase : (n = m /\ strip n = m /\ space_after_numero m = n) \/
                  (n = m ++ [space] /\ strip n = m /\ space_after_numero m = n)).
  { destruct (join_split_single_spaced n Hss Hh) as [En|En]; fold m in En.
    - left. split; [exact En|]. split.
      + rewrite En at 1. apply strip_join. exact Hw.
      + rewrite <- En. exact Hidem.
    - right. split; [exact En|]. split.
      + rewrite En at 1. apply strip_join_space. exact Hw.
      + rewrite <- Hn in En.
        destruct (san_trailing_space T m HfixT En) as [m' Em'].
        rewrite Em'. rewrite san_snoc_numero.
        change (m' ++ [numero; space]) with (m' ++ [numero] ++ [space]).
        rewrite app_assoc, <- Em', <- En, Hn. exact Hidem. }
  assert (Hlm : (3 <= length m)%nat).
  { destruct Hcase as [(En & _ & _)|(En & _ & _)].
    - rewrite <- En. lia.
    - destruct (san_longer T) as [Eq|Hlt].
      + exfalso. rewrite Hn, En in Eq.
        pose proof (length_rstrip m) as Hr.
        rewrite <- Eq in HfixT. rewrite rstrip_snoc_space in HfixT.
        rewrite HfixT in Hr. rewrite length_app in Hr. simpl in Hr. lia.
      + rewrite Hn, En in Hlt. rewrite length_app in Hlt. simpl in Hlt. lia. }
  assert (Es : strip n = m) by (destruct Hcase as [(_ & E & _)|(_ & E & _)]; exact E).
  assert (Eg : space_after_numero m = n)
    by (destruct Hcase as [(_ & _ & E)|(_ & _ & E)]; exact E).
  unfold validate_school.
  rewrite is_empty_false by lia.
  rewrite Es.
  assert (E3 : (length m <? 3)%nat = false) by (apply Nat.ltb_ge; exact Hlm).
  rewrite E3. simpl orb. cbv iota zeta. fold m.
  rewrite (replace_replace_single_spaced m Hssm). rewrite Eg. reflexivity.
Qed.

(** *** [validate_grade] *)

Section GradeFacts.

Variable unicode_upper : str -> str.
Variable decimal_value : N -> option N.

(** What is assumed of the Unicode tables: upper-casing leaves ASCII digits
    and upper-case ASCII and Russian letters as they are; the ASCII digits
    are decimal digits with their usual value; the upper-case letters of the
    pattern are not decimal digits. *)
Hypothesis upper_stable :
  forall s, forallb grade_stable s = true -> unicode_upper s = s.
Hypothesis decimal_ascii :
  forall c, is_ascii_digit c = true -> decimal_value c = Some (c - 48).
Hypothesis decimal_letter :
  forall c, is_grade_letter c = true -> decimal_value c = None.

Let is_decimal := is_decimal decimal_value.
Let int_of := int_of decimal_value.
Let grade_match := grade_match decimal_value.
Let validate_grade := validate_grade unicode_upper decimal_value.

Lemma is_decimal_digit (c : N) : is_ascii_digit c = true -> is_decimal c = true.
Proof.
  intros H. unfold is_decimal, Validation.is_decimal.
  rewrite (decimal_ascii c H). reflexivity.
Qed.

Lemma is_decimal_letter (c : N) : is_grade_letter c = true -> is_decimal c = false.
Proof.
  intros H. unfold is_decimal, Validation.is_decimal.
  rewrite (decimal_letter c H). reflexivity.
Qed.

Lemma grade_letter_nonspace (c : N) :
  is_grade_letter c = true -> isspace c = false.
Proof.
  intros H. apply not_true_iff_false. intros Hs.
  unfold is_grade_letter in H. revert H Hs. char_facts.
Qed.

Lemma grade_digit_nonspace (c : N) :
  is_ascii_digit c = true -> isspace c = false.
Proof.
  intros H. apply not_true_iff_false. intros Hs.
  revert H Hs. char_facts.
Qed.

Lemma grade_tail_nil : grade_tail [] = Some None.
Proof. reflexivity. Qed.

Lemma grade_tail_letter (c : N) :
  is_grade_letter c = true -> grade_tail [c] = Some (Some c).
Proof.
  intros H. unfold grade_tail. cbn [lstrip].
  rewrite (grade_letter_nonspace c H).
  unfold is_grade_letter in H. rewrite H. reflexivity.
Qed.

Lemma grade_tail_Some_letter (rest : str) (c : N) :
  grade_tail rest = Some (Some c) -> is_grade_letter c = true.
Proof.
  unfold grade_tail, is_grade_letter.
  destruct (lstrip rest) as [|x [|y [|z l]]]; try discriminate.
  - destruct (is_cyr_upper x || is_ascii_upper x) eqn:E; [|discriminate].
    intros H. injection H as <-. exact E.
  - destruct (is_cyr_upper x || is_ascii_upper x) eqn:E; [|discriminate].
    destruct (y =? newline); [|discriminate].
    intros H. injection H as <-. exact E.
Qed.

Lemma grade_match_letter (text g1 : str) (c : N) :
  grade_match text = Some (g1, Some c) -> is_grade_letter c = true.
Proof.
  unfold grade_match, Validation.grade_match.
  assert (Hone : forall d1 rest,
            (if Validation.is_decimal decimal_value d1
             then match grade_tail rest with
                  | Some g2 => Some ([d1], g2)
                  | None => None
                  end
             else None) = Some (g1, Some c) -> is_grade_letter c = true).
  { intros d1 rest. destruct (Validation.is_decimal decimal_value d1); [|discriminate].
    destruct (grade_tail rest) as [g2|] eqn:E; [|discriminate].
    intros H. injection H as _ ->. exact (grade_tail_Some_letter _ _ E). }
  destruct text as [|d1 [|d2 rest]].
  - discriminate.
  - apply Hone.
  - destruct (Validation.is_decimal decimal_value d1
              && Validation.is_decimal decimal_value d2).
    + destruct (grade_tail rest) as [g2|] eqn:E.
      * intros H. injection H as _ ->. exact (grade_tail_Some_letter _ _ E).
      * apply Hone.
    + apply Hone.
Qed.

Lemma grade_match_1 (d1 : N) :
  is_ascii_digit d1 = true -> grade_match [d1] = Some ([d1], None).
Proof.
  intros H. unfold grade_match, Validation.grade_match.
  fold is_decimal. rewrite (is_decimal_digit d1 H). reflexivity.
Qed.

Lemma grade_match_1L (d1 c : N) :
  is_ascii_digit d1 = true -> is_grade_letter c = true ->
  grade_match [d1; c] = Some ([d1], Some c).
Proof.
  intros H Hc. unfold grade_match, Validation.grade_match.
  fold is_decimal.
  rewrite (is_decimal_digit d1 H), (is_decimal_letter c Hc).
  rewrite (grade_tail_letter c Hc). reflexivity.
Qed.

Lemma grade_match_2 (d1 d2 : N) :
  is_ascii_digit d1 = true -> is_ascii_digit d2 = true ->
  grade_match [d1; d2] = Some ([d1; d2], None).
Proof.
  intros H1 H2. unfold grade_match, Validation.grade_match.
  fold is_decimal.
  rewrite (is_decimal_digit d1 H1), (is_decimal_digit d2 H2). reflexivity.
Qed.

Lemma grade_match_2L (d1 d2 c : N) :
  is_ascii_digit d1 = true -> is_ascii_digit d2 = true ->
  is_grade_letter c = true ->
  grade_match [d1; d2; c] = Some ([d1; d2], Some c).
Proof.
  intros H1 H2 Hc. unfold grade_match, Validation.grade_match.
  fold is_decimal.
  rewrite (is_decimal_digit d1 H1), (is_decimal_digit d2 H2).
  simpl andb. cbv iota.
  rewrite (grade_tail_letter c Hc). reflexivity.
Qed.

Lemma int_of_1 (d1 : N) :
  is_ascii_digit d1 = true -> int_of [d1] = d1 - 48.
Proof.
  intros H. unfold int_of, Validation.int_of. cbn [fold_left].
  rewrite (decimal_ascii d1 H). lia.
Qed.

Lemma int_of_2 (d1 d2 : N) :
  is_ascii_digit d1 = true -> is_ascii_digit d2 = true ->
  int_of [d1; d2] = 10 * (d1 - 48) + (d2 - 48).
Proof.
  intros H1 H2. unfold int_of, Validation.int_of. cbn [fold_left].
  rewrite (decimal_ascii d1 H1), (decimal_ascii d2 H2). lia.
Qed.

(** A text made of digits and grade letters is left alone by [strip] and by
    the upper-casing. *)
Lemma grade_prepare (t : str) :
  forallb grade_stable t = true -> unicode_upper (strip t) = t.
Proof.
  intros H.
  assert (Hs : strip t = t).
  { destruct t as [|c r]; [reflexivity|].
    assert (Hw : forallb is_word [c :: r] = true).
    { simpl. rewrite andb_true_r. unfold is_word. simpl negb. cbv iota.
      rewrite andb_true_l. revert H. generalize (c :: r).
      induction l as [|x l IH]; [reflexivity|].
      simpl. intros Hx. apply andb_true_iff in Hx as [Hx Hl].
      rewrite (IH Hl), andb_true_r. apply negb_true_iff.
      unfold grade_stable in Hx. apply orb_true_iff in Hx as [Hx|Hx].
      - apply grade_digit_nonspace. exact Hx.
      - apply grade_letter_nonspace. exact Hx. }
    exact (strip_join [c :: r] Hw). }
  rewrite Hs. apply upper_stable. exact H.
Qed.

(** A grade in normal form is accepted again, unchanged. *)
Lemma validate_grade_normal (num : N) (letter : option N) :
  1 <= num <= 11 ->
  (forall c, letter = Some c -> is_grade_letter c = true) ->
  validate_grade (str_of_N num ++ letter_text letter)
    = Valid (str_of_N num ++ letter_text letter).
Proof.
  intros Hnum Hletter.
  assert (Hcases : num = 1 \/ num = 2 \/ num = 3 \/ num = 4 \/ num = 5 \/
                   num = 6 \/ num = 7 \/ num = 8 \/ num = 9 \/ num = 10 \/
                   num = 11) by lia.
  assert (Hone : forall d1, is_ascii_digit d1 = true ->
            1 <= d1 - 48 <= 11 -> str_of_N (d1 - 48) = [d1] ->
            validate_grade ([d1] ++ letter_text letter)
              = Valid ([d1] ++ letter_text letter)).
  { intros d1 Hd Hr Hstr.
    unfold validate_grade, Validation.validate_grade.
    cbn [app is_empty]. rewrite grade_prepare.
    - fold grade_match. destruct letter as [c|]; cbn [letter_text app].
      + rewrite (grade_match_1L d1 c Hd (Hletter c eq_refl)).
        fold int_of. rewrite (int_of_1 d1 Hd), Hstr.
        assert (E : ((d1 - 48 <? 1) || (11 <? d1 - 48)) = false).
        { apply orb_false_iff. split; apply N.ltb_ge; lia. }
        rewrite E. reflexivity.
      + rewrite (grade_match_1 d1 Hd).
        fold int_of. rewrite (int_of_1 d1 Hd), Hstr.
        assert (E : ((d1 - 48 <? 1) || (11 <? d1 - 48)) = false).
        { apply orb_false_iff. split; apply N.ltb_ge; lia. }
        rewrite E. reflexivity.
    - destruct letter as [c|]; cbn [letter_text app forallb].
      + unfold grade_stable at 1 2. rewrite Hd, (Hletter c eq_refl).
        rewrite orb_true_r. reflexivity.
      + unfold grade_stable. rewrite Hd. reflexivity. }
  assert (Htwo : forall d1 d2, is_ascii_digit d1 = true ->
            is_ascii_digit d2 = true ->
            1 <= 10 * (d1 - 48) + (d2 - 48) <= 11 ->
            str_of_N (10 * (d1 - 48) + (d2 - 48)) = [d1; d2] ->
            validate_grade ([d1; d2] ++ letter_text letter)
              = Valid ([d1; d2] ++ letter_text letter)).
  { intros d1 d2 Hd1 Hd2 Hr Hstr.
    unfold validate_grade, Validation.validate_grade.
    cbn [app is_empty]. rewrite grade_prepare.
    - fold grade_match. destruct letter as [c|]; cbn [letter_text app].
      + rewrite (grade_match_2L d1 d2 c Hd1 Hd2 (Hletter c eq_refl)).
        fold int_of. rewrite (int_of_2 d1 d2 Hd1 Hd2), Hstr.
        assert (E : ((10 * (d1 - 48) + (d2 - 48) <? 1)
                     || (11 <? 10 * (d1 - 48) + (d2 - 48))) = false).
        { apply orb_false_iff. split; apply N.ltb_ge; lia. }
        rewrite E. reflexivity.
      + rewrite (grade_match_2 d1 d2 Hd1 Hd2).
        fold int_of. rewrite (int_of_2 d1 d2 Hd1 Hd2), Hstr.
        assert (E : ((10 * (d1 - 48) + (d2 - 48) <? 1)
                     || (11 <? 10 * (d1 - 48) + (d2 - 48))) = false).
        { apply orb_false_iff. split; apply N.ltb_ge; lia. }
        rewrite E. reflexivity.
    - destruct letter as [c|]; cbn [letter_text app forallb].
      + unfold grade_stable at 1 2 3. rewrite Hd1, Hd2, (Hletter c eq_refl).
        rewrite orb_true_r. reflexivity.
      + unfold grade_stable. rewrite Hd1, Hd2. reflexivity. }
  destruct Hcases as [->|[->|[->|[->|[->|[->|[->|[->|[->|[->| ->]]]]]]]]]].
  - exact (Hone 49 eq_refl ltac:(lia) eq_refl).
  - exact (Hone 50 eq_refl ltac:(lia) eq_refl).
  - exact (Hone 51 eq_refl ltac:(lia) eq_refl).
  - exact (Hone 52 eq_refl ltac:(lia) eq_refl).
  - exact (Hone 53 eq_refl ltac:(lia) eq_refl).
  - exact (Hone 54 eq_refl ltac:(lia) eq_refl).
  - exact (Hone 55 eq_refl ltac:(lia) eq_refl).
  - exact (Hone 56 eq_refl ltac:(lia) eq_refl).
  - exact (Hone 57 eq_refl ltac:(lia) eq_refl).
  - exact (Htwo 49 48 eq_refl eq_refl ltac:(lia) eq_refl).
  - exact (Htwo 49 49 eq_refl eq_refl ltac:(lia) eq_refl).
Qed.

(** [validate_grade] accepts its own output and returns it unchanged. *)
Lemma validate_grade_idem (text n : str) :
  validate_grade text = Valid n -> validate_grade n = Valid n.
Proof.
  unfold validate_grade at 1, Validation.validate_grade.
  destruct (is_empty text); [discriminate|].
  fold grade_match.
  destruct (grade_match (unicode_upper (strip text))) as [[g1 g2]|] eqn:Em;
    [|discriminate].
  fold int_of.
  destruct ((int_of g1 <? 1) || (11 <? int_of g1)) eqn:Er; [discriminate|].
  intros H. injection H as <-.
  apply orb_false_iff in Er as [E1 E2].
  apply N.ltb_ge in E1. apply N.ltb_ge in E2.
  change (match g2 with Some c => [c] | None => [] end) with (letter_text g2).
  apply validate_grade_normal; [lia|].
  intros c ->. exact (grade_match_letter _ _ _ Em).
Qed.

End GradeFacts.

(** The tables restricted to ASCII and Russian meet the assumptions. *)
Lemma upper_basic_stable (s : str) :
  forallb grade_stable s = true -> upper s = s.
Proof.
  induction s as [|c r IH]; [reflexivity|].
  intros H. simpl in H. apply andb_true_iff in H as [Hc Hr].
  unfold upper in *. simpl. rewrite (IH Hr). f_equal.
  unfold grade_stable, is_grade_letter in Hc. revert Hc.
  case_map; char_facts.
Qed.

Lemma ascii_decimal_digit (c : N) :
  is_ascii_digit c = true -> ascii_decimal_value c = Some (c - 48).
Proof. intros H. unfold ascii_decimal_value. rewrite H. reflexivity. Qed.

Lemma ascii_decimal_letter (c : N) :
  is_grade_letter c = true -> ascii_decimal_value c = None.
Proof.
  intros H. unfold ascii_decimal_value.
  destruct (is_ascii_digit c) eqn:E; [|reflexivity].
  exfalso. unfold is_grade_letter in H. revert H E. char_facts.
Qed.

(** C10, as amended.  [validate_city], [validate_school] and
    [validate_grade] accept every normalized value they return and return it
    unchanged; [validate_fio] does so for every normalized value of at least
    five characters.  For [validate_grade] the Unicode tables are parameters,
    assumed to agree with Unicode on ASCII digits and on the upper-case
    letters of the pattern. *)
Theorem validators_accept_their_output
    (unicode_upper : str -> str) (decimal_value : N -> option N) :
  (forall s, forallb grade_stable s = true -> unicode_upper s = s) ->
  (forall c, is_ascii_digit c = true -> decimal_value c = Some (c - 48)) ->
  (forall c, is_grade_letter c = true -> decimal_value c = None) ->
  (forall text n, validate_fio text = Valid n -> (5 <= length n)%nat ->
                  validate_fio n = Valid n) /\
  (forall text n, validate_city text = Valid n -> validate_city n = Valid n) /\
  (forall text n, validate_school text = Valid n ->
                  validate_school n = Valid n) /\
  (forall text n, validate_grade unicode_upper decimal_value text = Valid n ->
                  validate_grade unicode_upper decimal_value n = Valid n).
Proof.
  intros Hu Hd Hl. split; [|split; [|split]].
  - intros text n H H5.
    destruct (validate_fio_Valid text n H) as (-> & H2 & Hc).
    apply validate_fio_normal; auto. apply split_words.
  - apply validate_city_idem.
  - apply validate_school_idem.
  - apply validate_grade_idem; assumption.
Qed.

Lemma validators_accept_their_output_witness :
  validate_grade upper ascii_decimal_value (lit "10A") = Valid (lit "10A").
Proof.
  apply (proj2 (proj2 (proj2
           (validators_accept_their_output upper ascii_decimal_value
              upper_basic_stable ascii_decimal_digit ascii_decimal_letter)))
           (lit "10a") (lit "10A")).
  reflexivity.
Defined.

(** C10 as stated fails for [validate_fio]: the minimum length is checked
    before the whitespace is collapsed, so ["a   b"] is accepted with the
    normalized value ["A B"], which is then rejected as too short. *)
Lemma validate_fio_rejects_its_output :
  validate_fio (lit "a   b") = Valid (lit "A B") /\
  validate_fio (lit "A B") = Invalid fio_too_short.
Proof. split; reflexivity. Qed.

(** Scenarios A and B of the specification. *)
Example scenario_A : validate_fio ivanov_ivan = Valid Ivanov_Ivan.
Proof. reflexivity. Qed.

Example scenario_B :
  validate_grade upper ascii_decimal_value (lit "10a") = Valid (lit "10A") /\
  validate_grade upper ascii_decimal_value (lit "12") = Invalid grade_out_of_range.
Proof. split; reflexivity. Qed.

(** *** Whitespace around the input, and the shape of what is accepted *)

Lemma lstrip_app (s t : str) :
  lstrip (s ++ t) = if forallb isspace s then lstrip t else lstrip s ++ t.
Proof.
  induction s as [|c r IH]; [reflexivity|].
  simpl. destruct (isspace c); [exact IH|reflexivity].
Qed.

Lemma forallb_isspace_rev (s : str) :
  forallb isspace (rev s) = forallb isspace s.
Proof.
  apply eq_true_iff_eq. rewrite !forallb_forall.
  split; intros H x Hx; apply H; [apply in_rev in Hx|apply in_rev]; exact Hx.
Qed.

Lemma rstrip_app_space (s b : str) :
  forallb isspace b = true -> rstrip (s ++ b) = rstrip s.
Proof.
  intros H. unfold rstrip. rewrite rev_app_distr, lstrip_app.
  rewrite forallb_isspace_rev, H. reflexivity.
Qed.

Lemma strip_surrounded (a s b : str) :
  forallb isspace a = true -> forallb isspace b = true ->
  strip (a ++ s ++ b) = strip s.
Proof.
  intros Ha Hb. unfold strip. rewrite lstrip_app, Ha, lstrip_app.
  destruct (forallb isspace s) eqn:Es.
  - rewrite (proj2 (lstrip_nil_iff b) Hb), (proj2 (lstrip_nil_iff s) Es).
    reflexivity.
  - apply rstrip_app_space. exact Hb.
Qed.

Lemma split_app_space_l (a s : str) :
  forallb isspace a = true -> split (a ++ s) = split s.
Proof.
  induction a as [|c a IH]; [reflexivity|].
  simpl forallb. intros H. apply andb_true_iff in H as [Hc Ha].
  rewrite <- app_comm_cons, split_cons_space by exact Hc. apply IH. exact Ha.
Qed.

Lemma split_app_space_r (s b : str) :
  forallb isspace b = true -> split (s ++ b) = split s.
Proof.
  intros Hb. induction s as [|c r IH].
  - simpl. apply split_nil_iff. exact Hb.
  - destruct (isspace c) eqn:E.
    + rewrite <- app_comm_cons, !split_cons_space by exact E. exact IH.
    + rewrite <- app_comm_cons.
      destruct r as [|c' r'].
      * simpl app. destruct b as [|x b']; [reflexivity|].
        simpl in Hb. apply andb_true_iff in Hb as [Hx Hb'].
        destruct (split_cons_word c (x :: b') E)
          as [[Hn _] | [(y & r2 & Hr & Ey & ->) | (y & r2 & w & ws & Hr & Ey & _)]].
        -- discriminate.
        -- inversion Hr; subst. rewrite (proj2 (split_nil_iff r2) Hb').
           simpl. rewrite E. reflexivity.
        -- inversion Hr; subst. congruence.
      * simpl app in *.
        destruct (split_cons_word c (c' :: r' ++ b) E)
          as [[Hn _] | [(y & r2 & Hr & Ey & ->) | (y & r2 & w & ws & Hr & Ey & Es & ->)]];
        destruct (split_cons_word c (c' :: r') E)
          as [[Hn' _] | [(y' & r2' & Hr' & Ey' & ->) | (y' & r2' & w' & ws' & Hr' & Ey' & Es' & ->)]];
          try discriminate; inversion Hr; inversion Hr'; subst; try congruence.
        -- f_equal. rewrite !split_cons_space in IH by exact Ey. exact IH.
Qed.

Lemma split_surrounded (a s b : str) :
  forallb isspace a = true -> forallb isspace b = true ->
  split (a ++ s ++ b) = split s.
Proof.
  intros Ha Hb. rewrite split_app_space_l by exact Ha.
  apply split_app_space_r. exact Hb.
Qed.

(** With a positive minimum, the test [not text or len(text.strip()) < k]
    is the test on the stripped length alone. *)
Lemma too_short_test (text : str) (k : nat) :
  (0 < k)%nat ->
  is_empty text || (length (strip text) <? k)%nat
  = (length (strip text) <? k)%nat.
Proof.
  intros Hk. destruct text as [|c r]; [|reflexivity].
  simpl. symmetry. apply Nat.ltb_lt. exact Hk.
Qed.

(** X8.  Whitespace before and after the input does not matter:
    [validate_fio], [validate_city] and [validate_school] give on
    [a ++ s ++ b], with [a] and [b] made of whitespace, the result they give
    on [s]; so does [validate_grade] when [s] is not empty.  A text made of
    whitespace only is rejected by the first three as too short. *)
Theorem surrounding_whitespace_is_ignored (a s b : str) :
  forallb isspace a = true -> forallb isspace b = true ->
  validate_fio (a ++ s ++ b) = validate_fio s /\
  validate_city (a ++ s ++ b) = validate_city s /\
  validate_school (a ++ s ++ b) = validate_school s /\
  (s <> [] ->
   forall (unicode_upper : str -> str) (decimal_value : N -> option N),
     validate_grade unicode_upper decimal_value (a ++ s ++ b)
     = validate_grade unicode_upper decimal_value s) /\
  validate_fio (a ++ b) = Invalid fio_too_short /\
  validate_city (a ++ b) = Invalid city_too_short /\
  validate_school (a ++ b) = Invalid school_too_short.
Proof.
  intros Ha Hb.
  pose proof (strip_surrounded a s b Ha Hb) as Es.
  pose proof (split_surrounded a s b Ha Hb) as Ew.
  assert (E0 : strip (a ++ b) = []).
  { pose proof (strip_surrounded a [] b Ha Hb) as E. simpl in E. exact E. }
  repeat split.
  - unfold validate_fio. rewrite !too_short_test, Es, Ew by lia. reflexivity.
  - unfold validate_city. rewrite !too_short_test, Es, Ew by lia. reflexivity.
  - unfold validate_school. rewrite !too_short_test, Es, Ew by lia. reflexivity.
  - intros Hs unicode_upper decimal_value. unfold validate_grade. rewrite Es.
    destruct s as [|c r]; [contradiction|].
    destruct a; reflexivity.
  - unfold validate_fio. rewrite too_short_test, E0 by lia. reflexivity.
  - unfold validate_city. rewrite too_short_test, E0 by lia. reflexivity.
  - unfold validate_school. rewrite too_short_test, E0 by lia. reflexivity.
Qed.

Lemma surrounding_whitespace_is_ignored_witness :
  validate_fio ([space; 9] ++ ivanov_ivan ++ [newline]) = Valid Ivanov_Ivan.
Proof.
  rewrite (proj1 (surrounding_whitespace_is_ignored [space; 9] ivanov_ivan
                    [newline] eq_refl eq_refl)).
  reflexivity.
Defined.

Lemma capitalize_forallb_letter (w : str) :
  forallb (fun c => is_letter c || (c =? hyphen)) w = true ->
  forallb (fun c => is_letter c || (c =? hyphen)) (capitalize w) = true.
Proof.
  assert (Hu : forall c, is_letter (upper_char c) || (upper_char c =? hyphen)
                         = is_letter c || (c =? hyphen)).
  { intros c. apply eq_true_iff_eq. unfold is_letter, hyphen. case_map; char_facts. }
  assert (Hl : forall c, is_letter (lower_char c) || (lower_char c =? hyphen)
                         = is_letter c || (c =? hyphen)).
  { intros c. apply eq_true_iff_eq. unfold is_letter, hyphen. case_map; char_facts. }
  destruct w as [|c r]; [reflexivity|]. simpl.
  rewrite Hu. intros H. apply andb_true_iff in H as [Hc Hr].
  rewrite Hc. simpl. unfold lower.
  rewrite (forallb_map_same (fun c => is_letter c || (c =? hyphen)) lower_char r Hl).
  exact Hr.
Qed.

Lemma word_fio_chars (w : str) :
  is_word w = true -> forallb fio_char w = true ->
  forallb (fun c => is_letter c || (c =? hyphen)) w = true.
Proof.
  unfold is_word. intros Hw Hc. apply andb_true_iff in Hw as [_ Hw].
  rewrite forallb_forall in *. intros c Hin.
  specialize (Hw c Hin). specialize (Hc c Hin).
  unfold fio_char in Hc. apply negb_true_iff in Hw. rewrite Hw in Hc.
  rewrite orb_false_r in Hc. exact Hc.
Qed.

Lemma upper_char_letter (c : N) :
  is_letter c || (c =? hyphen) = true ->
  is_ascii_upper (upper_char c) || is_cyr_upper (upper_char c)
  || (upper_char c =? hyphen) = true.
Proof. unfold is_letter, hyphen. case_map; char_facts. Qed.

Lemma lower_char_letter (c : N) :
  is_letter c || (c =? hyphen) = true ->
  is_ascii_lower (lower_char c) || is_cyr_lower (lower_char c)
  || (lower_char c =? hyphen) = true.
Proof. unfold is_letter, hyphen. case_map; char_facts. Qed.

Lemma capitalize_name_word (w : str) :
  w <> [] -> forallb (fun c => is_letter c || (c =? hyphen)) w = true ->
  name_word (capitalize w) = true.
Proof.
  destruct w as [|c r]; [contradiction|]. intros _ H.
  cbn [forallb] in H. apply andb_true_iff in H as [Hc Hr].
  cbn [capitalize name_word]. rewrite (upper_char_letter c Hc).
  cbn [andb]. unfold lower. rewrite forallb_forall. intros x Hx.
  apply in_map_iff in Hx as (y & <- & Hy).
  rewrite forallb_forall in Hr. apply lower_char_letter, Hr, Hy.
Qed.

(** X9.  An accepted full name is a list of at least two words joined by
    single spaces, as many as the input has; splitting it gives these words
    back; in every word the first character is an upper-case Latin or
    Russian letter or a hyphen and the others are lower-case letters or
    hyphens, so that [str.capitalize] leaves every word as it is.  A word
    can start with a hyphen: "ab -cd" is accepted as "Ab -cd". *)
Theorem accepted_full_name_shape (text n : str) :
  validate_fio text = Valid n ->
  exists words : list str,
    n = join [space] words /\ split n = words /\
    (2 <= length words)%nat /\ length words = length (split text) /\
    forallb name_word words = true /\
    List.map capitalize words = words.
Proof.
  intros H. destruct (validate_fio_Valid text n H) as (Hn & Hl & Hc).
  pose proof (split_words text) as Hw.
  set (ws := split text) in *.
  assert (Hw' : forallb is_word (List.map capitalize ws) = true).
  { rewrite forallb_map_words; [exact Hw|apply capitalize_word]. }
  exists (List.map capitalize ws).
  split; [exact Hn|]. split; [rewrite Hn; apply split_join; exact Hw'|].
  split; [rewrite length_map; exact Hl|]. split; [apply length_map|].
  split.
  - rewrite forallb_forall. intros w' Hin.
    apply in_map_iff in Hin as (w & <- & Hin).
    rewrite forallb_forall in Hw, Hc.
    specialize (Hw w Hin). specialize (Hc w Hin).
    apply capitalize_name_word; [|exact (word_fio_chars w Hw Hc)].
    destruct w; [discriminate Hw|discriminate].
  - rewrite map_map. apply map_ext. intros w. apply capitalize_idem.
Qed.

Lemma accepted_full_name_shape_witness :
  (exists words : list str,
     Ivanov_Ivan = join [space] words /\ split Ivanov_Ivan = words /\
     (2 <= length words)%nat /\ length words = length (split ivanov_ivan) /\
     forallb name_word words = true /\ List.map capitalize words = words) /\
  (exists words : list str,
     lit "Ab -cd" = join [space] words /\ split (lit "Ab -cd") = words /\
     (2 <= length words)%nat /\ length words = length (split ab_cd) /\
     forallb name_word words = true /\ List.map capitalize words = words).
Proof.
  split.
  - apply (accepted_full_name_shape ivanov_ivan Ivanov_Ivan). reflexivity.
  - apply (accepted_full_name_shape ab_cd (lit "Ab -cd")). reflexivity.
Defined.

Section GradeShape.
Variable unicode_upper : str -> str.
Variable decimal_value : N -> option N.

Lemma grade_tail_letter_class (rest : str) (c : N) :
  grade_tail rest = Some (Some c) -> is_grade_letter c = true.
Proof.
  unfold grade_tail, is_grade_letter.
  destruct (lstrip rest) as [|x [|y [|z l]]]; try discriminate.
  - destruct (is_cyr_upper x || is_ascii_upper x) eqn:E; [|discriminate].
    intros H. inversion H. subst. exact E.
  - destruct (is_cyr_upper x || is_ascii_upper x) eqn:E; [|discriminate].
    simpl. destruct (y =? newline); [|discriminate].
    intros H. inversion H. subst. exact E.
Qed.

Lemma grade_match_letter_class (text g1 : str) (c : N) :
  grade_match decimal_value text = Some (g1, Some c) ->
  is_grade_letter c = true.
Proof.
  unfold grade_match.
  assert (H1 : forall t : str,
            (match t with
             | d1 :: rest =>
               if is_decimal decimal_value d1 then
                 match grade_tail rest with
                 | Some g2 => Some ([d1], g2)
                 | None => None
                 end
               else None
             | [] => None
             end) = Some (g1, Some c) -> is_grade_letter c = true).
  { intros [|d1 rest]; [discriminate|].
    destruct (is_decimal decimal_value d1); [|discriminate].
    destruct (grade_tail rest) as [g2|] eqn:E; [|discriminate].
    intros H. inversion H. subst. apply (grade_tail_letter_class rest c E). }
  destruct text as [|d1 [|d2 rest]];
    [simpl; discriminate|apply (H1 [d1])|].
  destruct (is_decimal decimal_value d1 && is_decimal decimal_value d2);
    [|apply (H1 (d1 :: d2 :: rest))].
  destruct (grade_tail rest) as [g2|] eqn:E; [|apply (H1 (d1 :: d2 :: rest))].
  intros H. inversion H. subst. apply (grade_tail_letter_class rest c E).
Qed.

(** X10.  Whatever the Unicode tables, an accepted grade is the decimal
    numeral of a number from 1 to 11, without leading zeros, followed by
    nothing or by one upper-case Latin or Russian letter. *)
Theorem accepted_grade_shape (text n : str) :
  validate_grade unicode_upper decimal_value text = Valid n ->
  exists (num : N) (letter : option N),
    1 <= num <= 11 /\
    n = str_of_N num ++ letter_text letter /\
    (forall c, letter = Some c -> is_grade_letter c = true).
Proof.
  unfold validate_grade.
  destruct (is_empty text); [discriminate|].
  destruct (grade_match decimal_value (unicode_upper (strip text)))
    as [[g1 g2]|] eqn:Em; [|discriminate].
  destruct ((int_of decimal_value g1 <? 1) || (11 <? int_of decimal_value g1))
    eqn:Er; [discriminate|].
  intros H. inversion H.
  apply orb_false_iff in Er as [E1 E2].
  apply N.ltb_ge in E1, E2.
  exists (int_of decimal_value g1), g2.
  split; [lia|]. split; [destruct g2; reflexivity|].
  intros c ->. exact (grade_match_letter_class _ g1 c Em).
Qed.

End GradeShape.

Lemma accepted_grade_shape_witness :
  exists (num : N) (letter : option N),
    1 <= num <= 11 /\
    lit "7B" = str_of_N num ++ letter_text letter /\
    (forall c, letter = Some c -> is_grade_letter c = true).
Proof.
  apply (accepted_grade_shape upper ascii_decimal_value (lit " 07 b ")).
  reflexivity.
Defined.

End ValidationFacts.

(** ** The storage layer *)

Module LocalStorageFacts.
Import PyStr PyStrFacts LocalStorage.
Local Open Scope N_scope.

Lemma forallb_sub_outside (class : N -> bool) (s : str) :
  class underscore = true -> forallb class (sub_outside class s) = true.
Proof.
  intros Hu. induction s as [|c r IH]; [reflexivity|].
  simpl. rewrite IH, andb_true_r.
  destruct (class c) eqn:E; [exact E|exact Hu].
Qed.

Lemma forallb_firstn (P : N -> bool) (k : nat) (s : str) :
  forallb P s = true -> forallb P (List.firstn k s) = true.
Proof.
  revert s. induction k as [|k IH]; intros s H; [reflexivity|].
  destruct s as [|c r]; [reflexivity|].
  simpl in *. apply andb_true_iff in H as [Hc Hr].
  rewrite Hc, (IH r Hr). reflexivity.
Qed.

Lemma folder_char_not_separator (c : N) :
  folder_char c = true -> c <> slash /\ c <> backslash /\ c <> dot.
Proof.
  unfold folder_char, name_char. intros H. revert H. char_facts.
Qed.

Lemma name_char_not_separator (c : N) :
  name_char c = true -> c <> slash /\ c <> backslash /\ c <> dot.
Proof.
  unfold name_char. intros H. revert H. char_facts.
Qed.

(** [sanitize_folder_name] returns a non-empty name of at most 64 characters,
    all of them ASCII letters, digits, underscore, hyphen or [@]; so it
    contains no slash, no backslash and no dot. *)
Lemma sanitize_folder_name_safe (name : str) :
  sanitize_folder_name name <> [] /\
  (length (sanitize_folder_name name) <= 64)%nat /\
  forallb folder_char (sanitize_folder_name name) = true /\
  (forall c, In c (sanitize_folder_name name) ->
             c <> slash /\ c <> backslash /\ c <> dot).
Proof.
  assert (H : sanitize_folder_name name <> [] /\
              (length (sanitize_folder_name name) <= 64)%nat /\
              forallb folder_char (sanitize_folder_name name) = true).
  { unfold sanitize_folder_name.
    set (n := List.firstn 64 (sub_outside folder_char (strip_separators name))).
    destruct (is_empty n || str_eqb n [at_sign]) eqn:E.
    - split; [discriminate|]. split; [vm_compute; lia|reflexivity].
    - apply orb_false_iff in E as [E _].
      split; [destruct n; [discriminate|discriminate]|].
      split.
      + unfold n. rewrite length_firstn. lia.
      + unfold n. apply forallb_firstn. apply forallb_sub_outside. reflexivity. }
  destruct H as (H1 & H2 & H3). repeat split; auto;
    rewrite forallb_forall in H3; specialize (H3 c H);
    apply folder_char_not_separator in H3; tauto.
Qed.

Section Storage.
Variable unicode_lower : str -> str.

(** [sanitize_filename] returns [name ++ ext] where [name] is not empty, has
    at most 50 characters, all of them ASCII letters, digits, underscore or
    hyphen, and [ext] is one of the allowed extensions or [.bin]. *)
Lemma sanitize_filename_safe (filename : str) :
  exists name ext,
    sanitize_filename unicode_lower filename = name ++ ext /\
    name <> [] /\ (length name <= 50)%nat /\
    forallb name_char name = true /\
    In ext (allowed_extensions ++ [lit ".bin"]).
Proof.
  unfold sanitize_filename.
  destruct (splitext (strip_separators (basename filename))) as [name0 ext0].
  set (name := List.firstn 50 (sub_outside name_char name0)).
  set (ext := if existsb (str_eqb (unicode_lower ext0)) allowed_extensions
              then unicode_lower ext0 else lit ".bin").
  assert (Hext : In ext (allowed_extensions ++ [lit ".bin"])).
  { unfold ext.
    destruct (existsb (str_eqb (unicode_lower ext0)) allowed_extensions) eqn:E.
    - apply existsb_exists in E as (x & Hx & Ex).
      unfold str_eqb in Ex. apply bool_decide_eq_true in Ex. rewrite Ex.
      apply in_or_app. left. exact Hx.
    - apply in_or_app. right. left. reflexivity. }
  destruct (is_empty name) eqn:E.
  - exists (lit "file"), ext.
    split; [reflexivity|]. split; [discriminate|].
    split; [vm_compute; lia|]. split; [reflexivity|exact Hext].
  - exists name, ext.
    split; [reflexivity|]. split; [destruct name; discriminate|].
    split; [unfold name; rewrite length_firstn; lia|].
    split; [|exact Hext].
    unfold name. apply forallb_firstn. apply forallb_sub_outside. reflexivity.
Qed.

(** So the sanitized file name contains neither a slash nor a backslash. *)
Lemma sanitize_filename_no_separator (filename : str) (c : N) :
  In c (sanitize_filename unicode_lower filename) ->
  c <> slash /\ c <> backslash.
Proof.
  destruct (sanitize_filename_safe filename)
    as (name & ext & -> & _ & _ & Hn & He).
  intros H. apply in_app_or in H as [H|H].
  - rewrite forallb_forall in Hn. specialize (Hn c H).
    apply name_char_not_separator in Hn. tauto.
  - assert (Hall : forallb (fun e => forallb (fun x => negb (x =? slash)
                      && negb (x =? backslash)) e)
                     (allowed_extensions ++ [lit ".bin"]) = true)
      by reflexivity.
    rewrite forallb_forall in Hall. specialize (Hall ext He).
    rewrite forallb_forall in Hall. specialize (Hall c H).
    apply andb_true_iff in Hall as [H1 H2].
    apply negb_true_iff in H1, H2.
    apply N.eqb_neq in H1, H2. tauto.
Qed.

Variable UPLOADS_DIR : str.
Variable realpath : str -> str.
Variable path_exists : str -> bool.
Variable relpath : str -> str -> str.

(** The guard of [create_user_folder] is a test on strings: the function
    raises exactly when the resolved folder does not start with the resolved
    uploads directory, character by character. *)
Lemma create_user_folder_guard (username : str) :
  let user_folder :=
    path_join UPLOADS_DIR ([at_sign] ++ sanitize_folder_name username) in
  snd (create_user_folder UPLOADS_DIR realpath path_exists username) = ValueError
  <-> startswith (realpath UPLOADS_DIR) (realpath user_folder) = false.
Proof.
  cbv zeta. unfold create_user_folder, get_uploads_dir.
  destruct (startswith _ _); simpl; split; congruence.
Qed.

End Storage.

(** C9.  The sanitizers are safe ([sanitize_folder_name_safe],
    [sanitize_filename_safe]), but the guard of [create_user_folder] and
    [save_file] compares strings with [startswith], so a resolved path in a
    sibling directory whose name merely continues the name of the uploads
    directory passes it.  In the deployment where /srv/bot/uploads/@bob is a
    link to /srv/bot/uploads_old/bob, [create_user_folder "bob"] returns the
    folder without raising, and [save_file] into it writes a file whose
    resolved path /srv/bot/uploads_old/bob/photo_20240101_120000.jpg is
    outside /srv/bot/uploads.  The same happens without any link when
    [save_file] is given the folder /srv/bot/uploads_old. *)
Theorem save_file_writes_outside_uploads (content : list N) :
  let file_path := lit "/srv/bot/uploads/@bob/photo_20240101_120000.jpg" in
  create_user_folder demo_uploads demo_realpath demo_exists (lit "bob")
    = ([], Returned demo_link) /\
  save_file lower demo_uploads demo_realpath demo_relpath content
      (lit "photo.jpg") demo_link demo_timestamp
    = ([WriteFile file_path content],
       Returned (file_path, lit "/uploads/@bob/photo_20240101_120000.jpg")) /\
  demo_realpath file_path
    = lit "/srv/bot/uploads_old/bob/photo_20240101_120000.jpg" /\
  path_inside demo_uploads (demo_realpath file_path) = false /\
  fst (save_file lower demo_uploads (fun p => p) demo_relpath content
         (lit "photo.jpg") (lit "/srv/bot/uploads_old") demo_timestamp)
    = [WriteFile (lit "/srv/bot/uploads_old/photo_20240101_120000.jpg") content] /\
  path_inside demo_uploads
    (lit "/srv/bot/uploads_old/photo_20240101_120000.jpg") = false.
Proof.
  cbv zeta. repeat split; vm_compute; reflexivity.
Qed.

(** [replace] leaves a text in which the first character of [old] does not
    occur as it is. *)
Lemma replace_absent (c : N) (old new s : str) :
  forallb (fun x => negb (c =? x)) s = true ->
  replace (c :: old) new s = s.
Proof.
  unfold replace. induction s as [|x r IH]; [reflexivity|].
  simpl forallb. intros H. apply andb_true_iff in H as [Hx Hr].
  apply negb_true_iff in Hx.
  cbn [replace_from startswith]. rewrite Hx. simpl. f_equal. apply IH. exact Hr.
Qed.

Lemma folder_chars_no (c : N) (s : str) :
  folder_char c = false -> forallb folder_char s = true ->
  forallb (fun x => negb (c =? x)) s = true.
Proof.
  intros Hc H. rewrite forallb_forall in *. intros x Hx.
  specialize (H x Hx). apply negb_true_iff. apply N.eqb_neq. congruence.
Qed.

Lemma strip_separators_safe (s : str) :
  forallb folder_char s = true -> strip_separators s = s.
Proof.
  intros H. unfold strip_separators.
  rewrite (replace_absent slash [] [] s) by (apply folder_chars_no; [reflexivity|exact H]).
  rewrite (replace_absent backslash [] [] s) by (apply folder_chars_no; [reflexivity|exact H]).
  apply (replace_absent dot [dot] [] s). apply folder_chars_no; [reflexivity|exact H].
Qed.

Lemma sub_outside_fixed (class : N -> bool) (s : str) :
  forallb class s = true -> sub_outside class s = s.
Proof.
  induction s as [|c r IH]; [reflexivity|].
  simpl. intros H. apply andb_true_iff in H as [Hc Hr].
  rewrite Hc, (IH Hr). reflexivity.
Qed.

(** X11.  Sanitizing a folder name twice gives what sanitizing it once
    gives. *)
Theorem sanitize_folder_name_idempotent (name : str) :
  sanitize_folder_name (sanitize_folder_name name) = sanitize_folder_name name.
Proof.
  destruct (sanitize_folder_name_safe name) as (Hne & Hlen & Hc & _).
  set (n := sanitize_folder_name name) in *.
  assert (Hat : n <> [at_sign]).
  { unfold n, sanitize_folder_name.
    destruct (is_empty _ || str_eqb _ [at_sign]) eqn:E; [discriminate|].
    apply orb_false_iff in E as [_ E]. unfold str_eqb in E.
    apply bool_decide_eq_false in E. exact E. }
  unfold sanitize_folder_name at 1.
  rewrite (strip_separators_safe n Hc), (sub_outside_fixed folder_char n Hc).
  rewrite firstn_all2 by exact Hlen.
  destruct n as [|c r]; [contradiction|]. simpl is_empty.
  unfold str_eqb. rewrite bool_decide_eq_false_2 by exact Hat. reflexivity.
Qed.

Lemma startswith_app (a b : str) : startswith a (a ++ b) = true.
Proof.
  induction a as [|c a IH]; [reflexivity|].
  simpl. rewrite N.eqb_refl. exact IH.
Qed.

Section Folder.
Variable UPLOADS_DIR : str.
Variable path_exists : str -> bool.

(** X12.  When no path is changed by [os.path.realpath] (no symbolic link
    is involved) and the uploads directory is a non-empty path that does
    not end with a slash, [create_user_folder] does not raise for any user
    name: it returns the folder [UPLOADS_DIR/@name], creating the uploads
    directory and the folder when they are missing, where [name] is the
    sanitized user name: not empty, at most 64 characters, with no slash,
    no backslash and no dot.  The folder is inside the uploads directory. *)
Theorem user_folder_is_child_of_uploads (username : str) :
  UPLOADS_DIR <> [] -> last UPLOADS_DIR <> Some slash ->
  let name := sanitize_folder_name username in
  let folder := UPLOADS_DIR ++ [slash; at_sign] ++ name in
  create_user_folder UPLOADS_DIR (fun p => p) path_exists username
  = ((if path_exists UPLOADS_DIR then [] else [MakeDirs UPLOADS_DIR])
     ++ (if path_exists folder then [] else [MakeDirs folder]),
     Returned folder) /\
  path_inside UPLOADS_DIR folder = true /\
  name <> [] /\ (length name <= 64)%nat /\
  forallb (fun c => negb (c =? slash) && negb (c =? backslash)
                    && negb (c =? dot)) name = true.
Proof.
  intros Hne Hlast name folder.
  destruct (sanitize_folder_name_safe username) as (H1 & H2 & H3 & H4).
  fold name in H1, H2, H3, H4.
  assert (Hj : path_join UPLOADS_DIR ([at_sign] ++ name) = folder).
  { unfold folder, path_join. simpl startswith.
    destruct (last UPLOADS_DIR) as [x|] eqn:El.
    - destruct (x =? slash) eqn:Ex.
      + apply N.eqb_eq in Ex. subst x. contradiction.
      + destruct UPLOADS_DIR; [contradiction|reflexivity].
    - destruct UPLOADS_DIR; [contradiction|reflexivity]. }
  split; [|split; [|split; [|split]]].
  - unfold create_user_folder, get_uploads_dir. fold name. rewrite Hj.
    unfold folder at 1. rewrite startswith_app. reflexivity.
  - unfold path_inside. apply orb_true_iff. right.
    unfold folder. change ([slash; at_sign] ++ name) with ([slash] ++ [at_sign] ++ name).
    rewrite app_assoc. apply startswith_app.
  - exact H1.
  - exact H2.
  - rewrite forallb_forall. intros c Hc. destruct (H4 c Hc) as (A & B & C).
    apply N.eqb_neq in A, B, C. rewrite A, B, C. reflexivity.
Qed.

End Folder.

Lemma user_folder_is_child_of_uploads_witness :
  create_user_folder demo_uploads (fun p => p) demo_exists (lit "../../etc")
  = ([], Returned (lit "/srv/bot/uploads/@etc")).
Proof.
  apply (proj1 (user_folder_is_child_of_uploads demo_uploads demo_exists
                  (lit "../../etc") ltac:(discriminate) ltac:(discriminate))).
Defined.

Lemma rfind_from_app (c : N) (l r : str) (i : nat) (found : option nat) :
  rfind_from i c (l ++ r) found
  = rfind_from (i + length l) c r (rfind_from i c l found).
Proof.
  revert i found. induction l as [|x l IH]; intros i found; simpl.
  - rewrite Nat.add_0_r. reflexivity.
  - rewrite IH. f_equal. lia.
Qed.

Lemma rfind_from_absent (c : N) (l : str) (i : nat) (found : option nat) :
  forallb (fun x => negb (x =? c)) l = true -> rfind_from i c l found = found.
Proof.
  revert i found. induction l as [|x l IH]; intros i found H; [reflexivity|].
  simpl in *. apply andb_true_iff in H as [Hx Hl].
  apply negb_true_iff in Hx. rewrite Hx. apply IH. exact Hl.
Qed.

(** [os.path.splitext] gives back the two parts of [name ++ "." ++ rest]
    when neither part contains a dot or a slash and [name] is not empty. *)
Lemma splitext_name_ext (name rest : str) :
  name <> [] ->
  forallb (fun x => negb (x =? dot)) name = true ->
  forallb (fun x => negb (x =? slash)) name = true ->
  forallb (fun x => negb (x =? dot)) rest = true ->
  forallb (fun x => negb (x =? slash)) rest = true ->
  splitext (name ++ dot :: rest) = (name, dot :: rest).
Proof.
  intros Hne Hd Hs Hrd Hrs. unfold splitext, rfind.
  rewrite !rfind_from_app, (rfind_from_absent dot name), (rfind_from_absent slash name)
    by assumption.
  cbn [rfind_from]. rewrite N.eqb_refl.
  change (dot =? slash) with false. cbv iota.
  rewrite (rfind_from_absent dot rest), (rfind_from_absent slash rest)
    by assumption.
  simpl Nat.add. simpl Nat.leb. rewrite Nat.sub_0_r.
  change (skipn 0 (name ++ dot :: rest)) with (name ++ dot :: rest).
  assert (F1 : firstn (length name) (name ++ dot :: rest) = name).
  { rewrite firstn_app, firstn_all, Nat.sub_diag. simpl. apply app_nil_r. }
  assert (F2 : skipn (length name) (name ++ dot :: rest) = dot :: rest).
  { rewrite skipn_app, skipn_all, Nat.sub_diag. reflexivity. }
  rewrite F1, F2.
  destruct name as [|c r]; [contradiction|].
  simpl in Hd. apply andb_true_iff in Hd as [Hc _].
  simpl. rewrite Hc. reflexivity.
Qed.

Lemma replace_same (c : N) (s : str) : replace [c] [c] s = s.
Proof.
  unfold replace. induction s as [|x r IH]; [reflexivity|].
  cbn [replace_from startswith length Nat.sub].
  destruct (c =? x) eqn:E.
  - apply N.eqb_eq in E. subst x. simpl. f_equal. exact IH.
  - simpl. f_equal. exact IH.
Qed.

Lemma name_chars_no (c : N) (s : str) :
  name_char c = false -> forallb name_char s = true ->
  forallb (fun x => negb (x =? c)) s = true.
Proof.
  intros Hc H. rewrite forallb_forall in *. intros x Hx.
  specialize (H x Hx). apply negb_true_iff. apply N.eqb_neq. congruence.
Qed.

Section Save.
Variable unicode_lower : str -> str.
Variable UPLOADS_DIR : str.
Variable realpath : str -> str.
Variable relpath : str -> str -> str.

(** X13.  [save_file] splits the sanitized file name again and gets back
    its two parts: a name of 1 to 50 letters, digits, underscores and
    hyphens, and an extension that is one of the allowed ones or [.bin].
    It writes exactly one file, [folder_path/name_timestamp.ext], and
    returns this path and the web path under [/uploads/], unless the guard
    on the resolved path fails, in which case it raises and writes
    nothing. *)
Theorem save_file_effect (content : list N) (file_name folder_path timestamp : str) :
  exists name ext : str,
    sanitize_filename unicode_lower file_name = name ++ ext /\
    name <> [] /\ (length name <= 50)%nat /\
    forallb name_char name = true /\
    In ext (allowed_extensions ++ [lit ".bin"]) /\
    let file_path :=
      path_join folder_path (name ++ [underscore] ++ timestamp ++ ext) in
    save_file unicode_lower UPLOADS_DIR realpath relpath content file_name
      folder_path timestamp
    = if startswith (realpath UPLOADS_DIR) (realpath file_path)
      then ([WriteFile file_path content],
            Returned (file_path, lit "/uploads/" ++ relpath file_path UPLOADS_DIR))
      else ([], ValueError).
Proof.
  destruct (sanitize_filename_safe unicode_lower file_name)
    as (name & ext & Hs & Hne & Hlen & Hc & Hext).
  exists name, ext. repeat (split; [assumption|]).
  cbv zeta. unfold save_file. rewrite Hs.
  assert (Hsplit : splitext (name ++ ext) = (name, ext)).
  { assert (Hd : forallb (fun x => negb (x =? dot)) name = true)
      by (apply name_chars_no; [reflexivity|exact Hc]).
    assert (Hsl : forallb (fun x => negb (x =? slash)) name = true)
      by (apply name_chars_no; [reflexivity|exact Hc]).
    simpl in Hext.
    repeat (destruct Hext as [<-|Hext];
            [apply (splitext_name_ext name _ Hne Hd Hsl); reflexivity|]).
    contradiction. }
  rewrite Hsplit, replace_same.
  destruct (startswith _ _); reflexivity.
Qed.

End Save.

End LocalStorageFacts.

(** ** The submission dialogue *)

Module ApplicationFacts.
Import PyStr Validation Application.






Section Handlers.
Variable unicode_upper : str -> str.
Variable unicode_lower : str -> str.
Variable decimal_value : N -> option N.
Variable int_of_str : str -> option Z.
Variable max_file_size_mb : Z.
Variable start_router_handles : Message -> bool.


(** *** The number of files of a session *)

Ltac break_match :=
  repeat match goal with
  | |- context [match ?x with _ => _ end] => destruct x eqn:?
  end.

Ltac bounds :=
  repeat match goal with
  | H : (_ <=? _)%nat = true |- _ => apply Nat.leb_le in H
  | H : (_ <=? _)%nat = false |- _ => apply Nat.leb_gt in H
  | H : (_ <? _)%nat = true |- _ => apply Nat.ltb_lt in H
  | H : (_ <? _)%nat = false |- _ => apply Nat.ltb_ge in H
  end;
  unfold files_in_bounds, MAX_FILES, MIN_FILES in *; simpl in *;
  try rewrite !length_app in *; simpl in *;
  try (split; [lia|intros; try discriminate; try lia]);
  try lia.

Lemma bounds_clear : files_in_bounds clear.
Proof. bounds. Qed.

Lemma bounds_cancel_application (c : FSMContext) (d : Crud.database) :
  files_in_bounds c -> files_in_bounds (ctx (cancel_application c d)).
Proof.
  intros H. unfold cancel_application. destruct (state c); simpl;
    [apply bounds_clear|exact H].
Qed.

Lemma bounds_start_application (c : FSMContext) (d : Crud.database)
    (m : Message) (e : env) :
  files_in_bounds c ->
  files_in_bounds (ctx (start_application unicode_lower c d m e)).
Proof.
  intros H. unfold start_application. break_match; bounds; tauto.
Qed.

Lemma bounds_process_fio (c : FSMContext) (d : Crud.database) (m : Message) :
  files_in_bounds c -> files_in_bounds (ctx (process_fio c d m)).
Proof.
  intros H. unfold process_fio.
  destruct (text_is m cancel_text); [apply bounds_cancel_application; exact H|].
  break_match; bounds; tauto.
Qed.

Lemma bounds_process_city (c : FSMContext) (d : Crud.database) (m : Message) :
  files_in_bounds c -> files_in_bounds (ctx (process_city c d m)).
Proof.
  intros H. unfold process_city.
  destruct (text_is m cancel_text); [apply bounds_cancel_application; exact H|].
  break_match; bounds; tauto.
Qed.

Lemma bounds_process_school (c : FSMContext) (d : Crud.database) (m : Message) :
  files_in_bounds c -> files_in_bounds (ctx (process_school c d m)).
Proof.
  intros H. unfold process_school.
  destruct (text_is m cancel_text); [apply bounds_cancel_application; exact H|].
  break_match; bounds; tauto.
Qed.

Lemma bounds_process_grade (c : FSMContext) (d : Crud.database) (m : Message)
    (e : env) :
  files_in_bounds c ->
  files_in_bounds (ctx (process_grade unicode_upper decimal_value c d m e)).
Proof.
  intros H. unfold process_grade.
  destruct (text_is m cancel_text); [apply bounds_cancel_application; exact H|].
  break_match; bounds; tauto.
Qed.

Lemma bounds_process_stage_choice (c : FSMContext) (d : Crud.database)
    (cb : CallbackQuery) (e : env) :
  files_in_bounds c ->
  files_in_bounds (ctx (process_stage_choice int_of_str c d cb e)).
Proof.
  intros H. unfold process_stage_choice. break_match; bounds; tauto.
Qed.

Lemma bounds_send_file_status (c : FSMContext) (d : Crud.database) :
  (length (files (data c)) <= MAX_FILES)%nat ->
  (state c = Some entering_comment ->
   (MIN_FILES <= length (files (data c)))%nat) ->
  files_in_bounds (ctx (_send_file_status c d (files (data c)))).
Proof.
  intros H1 H2. unfold _send_file_status. break_match; bounds.
  apply H2. assumption.
Qed.

Lemma bounds_process_photo (c : FSMContext) (d : Crud.database) (m : Message) :
  files_in_bounds c ->
  files_in_bounds (ctx (process_photo max_file_size_mb c d m)).
Proof.
  intros [H1 H2]. unfold process_photo.
  destruct (MAX_FILES <=? length (files (data c)))%nat eqn:E;
    [split; assumption|].
  destruct (last (photo m)) as [p|]; [|split; assumption].
  destruct (photo_too_large max_file_size_mb (photo_file_size p));
    [split; assumption|].
  cbv zeta.
  set (c' := set_data c (update_files (data c)
                (files (data c) ++ [photo_entry p])
                (file_ids (data c) ++ [photo_file_id p]))).
  change (files (data c) ++ [photo_entry p]) with (files (data c')).
  apply bounds_send_file_status; unfold c'; bounds.
  intros Hs. specialize (H2 Hs). lia.
Qed.

Lemma bounds_process_document (c : FSMContext) (d : Crud.database)
    (m : Message) :
  files_in_bounds c ->
  files_in_bounds (ctx (process_document unicode_lower max_file_size_mb c d m)).
Proof.
  intros [H1 H2]. unfold process_document.
  destruct (MAX_FILES <=? length (files (data c)))%nat eqn:E;
    [split; assumption|].
  destruct (document m) as [doc|]; [|split; assumption].
  destruct (wrong_format unicode_lower doc); [split; assumption|].
  destruct (doc_file_size doc) as [size|]; [|split; assumption].
  destruct (max_file_size_bytes max_file_size_mb <? size)%Z;
    [split; assumption|].
  cbv zeta.
  set (c' := set_data c (update_files (data c)
                (files (data c) ++ [document_entry unicode_lower doc])
                (file_ids (data c) ++ [doc_file_id doc]))).
  change (files (data c) ++ [document_entry unicode_lower doc])
    with (files (data c')).
  apply bounds_send_file_status; unfold c'; bounds.
  intros Hs. specialize (H2 Hs). lia.
Qed.

Lemma bounds_finish_application (c : FSMContext) (d : Crud.database)
    (m : Message) (e : env) (out : list reply) :
  files_in_bounds c -> files_in_bounds (ctx (finish_application c d m e out)).
Proof.
  intros H. unfold finish_application. break_match; bounds; tauto.
Qed.

Lemma bounds_process_voice_comment (c : FSMContext) (d : Crud.database)
    (m : Message) (e : env) :
  files_in_bounds c -> files_in_bounds (ctx (process_voice_comment c d m e)).
Proof.
  intros H. unfold process_voice_comment.
  destruct (voice m) as [v|]; [|exact H].
  destruct (MAX_VOICE_DURATION <? duration v)%Z; [exact H|].
  apply bounds_finish_application. exact H.
Qed.

Lemma bounds_process_text_comment (c : FSMContext) (d : Crud.database)
    (m : Message) (e : env) :
  files_in_bounds c -> files_in_bounds (ctx (process_text_comment c d m e)).
Proof.
  intros H. unfold process_text_comment.
  destruct (text_is m cancel_text); [apply bounds_cancel_application; exact H|].
  apply bounds_finish_application. exact H.
Qed.

Lemma bounds_process_invalid_file (c : FSMContext) (d : Crud.database)
    (m : Message) (e : env) :
  files_in_bounds c -> files_in_bounds (ctx (process_invalid_file c d m e)).
Proof.
  intros H. unfold process_invalid_file.
  destruct (MIN_FILES <=? length (files (data c)))%nat eqn:E; [|exact H].
  assert (H' : files_in_bounds (set_state c entering_comment)) by bounds.
  destruct (voice m); [apply bounds_process_voice_comment; exact H'|].
  destruct (truthy (text m) && negb (text_is m cancel_text));
    [apply bounds_process_text_comment; exact H'|].
  destruct (text_is m cancel_text);
    [apply bounds_cancel_application; exact H'|exact H'].
Qed.

Lemma bounds_process_extra_photo (c : FSMContext) (d : Crud.database)
    (m : Message) :
  files_in_bounds c -> files_in_bounds (ctx (process_extra_photo c d m)).
Proof.
  intros [H1 H2]. unfold process_extra_photo.
  destruct (MAX_FILES <=? length (files (data c)))%nat eqn:E;
    [split; assumption|].
  destruct (last (photo m)) as [p|]; [|split; assumption].
  bounds. specialize (H2 H). lia.
Qed.

Lemma bounds_process_extra_document (c : FSMContext) (d : Crud.database)
    (m : Message) :
  files_in_bounds c ->
  files_in_bounds
    (ctx (process_extra_document unicode_lower max_file_size_mb c d m)).
Proof.
  intros [H1 H2]. unfold process_extra_document.
  destruct (MAX_FILES <=? length (files (data c)))%nat eqn:E;
    [split; assumption|].
  destruct (document m) as [doc|]; [|split; assumption].
  destruct (wrong_format unicode_lower doc); [split; assumption|].
  destruct (doc_file_size doc) as [size|]; [|split; assumption].
  destruct (max_file_size_bytes max_file_size_mb <? size)%Z;
    [split; assumption|].
  bounds. specialize (H2 H). lia.
Qed.

Lemma bounds_route (c : FSMContext) (d : Crud.database) (ev : event)
    (e : env) (o : outcome) :
  files_in_bounds c ->
  route unicode_upper unicode_lower decimal_value int_of_str max_file_size_mb
    start_router_handles c d ev e = Some o ->
  files_in_bounds (ctx o).
Proof.
  intros H Hr. destruct ev as [m|cb]; simpl in Hr.
  - unfold route_message in Hr.
    destruct (start_router_handles m); [discriminate|].
    destruct (text_is m submit_text).
    { injection Hr as <-. apply bounds_start_application. exact H. }
    destruct (state c) as [[| | | | | |]|].
    + injection Hr as <-. apply bounds_process_fio. exact H.
    + injection Hr as <-. apply bounds_process_city. exact H.
    + injection Hr as <-. apply bounds_process_school. exact H.
    + injection Hr as <-. apply bounds_process_grade. exact H.
    + destruct (text_is m cancel_text); [|discriminate].
      injection Hr as <-. apply bounds_cancel_application. exact H.
    + destruct (has_photo m).
      { injection Hr as <-. apply bounds_process_photo. exact H. }
      destruct (has_document m).
      { injection Hr as <-. apply bounds_process_document. exact H. }
      destruct (text_is m cancel_text).
      { injection Hr as <-. apply bounds_cancel_application. exact H. }
      injection Hr as <-. apply bounds_process_invalid_file. exact H.
    + destruct (has_voice m).
      { injection Hr as <-. apply bounds_process_voice_comment. exact H. }
      destruct (truthy (text m)).
      { injection Hr as <-. apply bounds_process_text_comment. exact H. }
      destruct (has_photo m).
      { injection Hr as <-. apply bounds_process_extra_photo. exact H. }
      destruct (has_document m); [|discriminate].
      injection Hr as <-. apply bounds_process_extra_document. exact H.
    + destruct (text_is m cancel_text); [|discriminate].
      injection Hr as <-. apply bounds_cancel_application. exact H.
  - unfold route_callback in Hr.
    destruct (state c) as [[| | | | | |]|]; try discriminate.
    destruct (startswith (lit "stage_") (callback_data cb)).
    { injection Hr as <-. apply bounds_process_stage_choice. exact H. }
    destruct (str_eqb (callback_data cb) (lit "cancel_application")).
    { injection Hr as <-. apply bounds_clear. }
    destruct (str_eqb (callback_data cb) (lit "change_profile"));
      [|discriminate].
    injection Hr as <-. unfold change_profile_data. bounds.
Qed.

Lemma bounds_step (c : FSMContext) (x : Crud.database * event * env) :
  files_in_bounds c ->
  files_in_bounds
    (step unicode_upper unicode_lower decimal_value int_of_str
       max_file_size_mb start_router_handles c x).
Proof.
  intros H. destruct x as [[d ev] e]. unfold step.
  destruct (route _ _ _ _ _ _ c d ev e) as [o|] eqn:E; [|exact H].
  exact (bounds_route c d ev e o H E).
Qed.

Lemma bounds_run (xs : list (Crud.database * event * env)) (c : FSMContext) :
  files_in_bounds c ->
  files_in_bounds
    (run unicode_upper unicode_lower decimal_value int_of_str
       max_file_size_mb start_router_handles c xs).
Proof.
  revert c. induction xs as [|x xs IH]; intros c H; [exact H|].
  unfold run. simpl. apply IH. apply bounds_step. exact H.
Qed.

(** At [MAX_FILES] each of the four attachment handlers answers with one
    message and returns the session and the database as they were. *)
Lemma full_session_rejects (c : FSMContext) (d : Crud.database) (m : Message) :
  (MAX_FILES <= length (files (data c)))%nat ->
  process_photo max_file_size_mb c d m = done c d [error_photo_count] /\
  process_document unicode_lower max_file_size_mb c d m
    = done c d [error_photo_count] /\
  process_extra_photo c d m = done c d [already_max_files] /\
  process_extra_document unicode_lower max_file_size_mb c d m
    = done c d [already_max_files].
Proof.
  intros H. apply Nat.leb_le in H.
  unfold process_photo, process_document, process_extra_photo,
    process_extra_document.
  rewrite H. repeat split.
Qed.

(** C2.  Along every sequence of events, starting from a session whose file
    list is within bounds (the empty session is), the session reached holds
    at most [MAX_FILES] files, and holds at least [MIN_FILES] files whenever
    its state is [entering_comment], the state after file collection.  In
    the session reached, when the list holds [MAX_FILES] files, a message
    that carries a photo or a document and neither text nor voice is taken,
    in the state [uploading_photos] and in the state [entering_comment], by
    a handler that answers with one message and returns the session and the
    database unchanged. *)
Theorem files_count_invariant (c : FSMContext)
    (xs : list (Crud.database * event * env)) :
  files_in_bounds c ->
  let c' := run unicode_upper unicode_lower decimal_value int_of_str
              max_file_size_mb start_router_handles c xs in
  (length (files (data c')) <= MAX_FILES)%nat /\
  (state c' = Some entering_comment ->
   (MIN_FILES <= length (files (data c')))%nat) /\
  (forall (d : Crud.database) (m : Message) (e : env),
     length (files (data c')) = MAX_FILES ->
     start_router_handles m = false ->
     text m = None -> voice m = None ->
     has_photo m || has_document m = true ->
     state c' = Some uploading_photos \/ state c' = Some entering_comment ->
     exists r : reply,
       route unicode_upper unicode_lower decimal_value int_of_str
         max_file_size_mb start_router_handles c' d (MessageEvent m) e
       = Some (done c' d [r]) /\
       step unicode_upper unicode_lower decimal_value int_of_str
         max_file_size_mb start_router_handles c' (d, MessageEvent m, e) = c').
Proof.
  intros H c'.
  destruct (bounds_run xs c H) as [H1 H2]. fold c' in H1, H2.
  split; [exact H1|]. split; [exact H2|].
  intros d m e Hlen Hs Ht Hv Hatt Hst.
  assert (Hmax : (MAX_FILES <= length (files (data c')))%nat) by lia.
  destruct (full_session_rejects c' d m Hmax) as (Hp & Hd & Hxp & Hxd).
  unfold step, route, route_message, text_is, has_voice.
  rewrite Hs, Ht, Hv. simpl.
  destruct Hst as [-> | ->].
  - destruct (has_photo m); simpl in Hatt.
    + exists error_photo_count. rewrite Hp. split; reflexivity.
    + rewrite Hatt. exists error_photo_count. rewrite Hd. split; reflexivity.
  - destruct (has_photo m); simpl in Hatt.
    + exists already_max_files. rewrite Hxp. split; reflexivity.
    + rewrite Hatt. exists already_max_files. rewrite Hxd. split; reflexivity.
Qed.

(** *** Text and voice during and after file collection *)

(** [finish_application] with a known user and a chosen stage: one
    application row is appended, with the file ids of the session in their
    order and the comment of the session; the session is cleared. *)
Lemma finish_application_persists (c : FSMContext) (d : Crud.database)
    (m : Message) (e : env) (out : list reply) (u : Crud.User) (sid : Z) :
  Crud.get_user_by_telegram_id d (tg_id (from_user m)) = Some u ->
  stage_id (data c) = Some sid ->
  let o := finish_application c d m e out in
  raised o = false /\ ctx o = clear /\ sent o = (out ++ [saving]) ++ [finish] /\
  exists a : Crud.Application,
    Crud.applications (db o) = Crud.applications d ++ [a] /\
    Crud.photos a = List.map file_id (files (data c)) /\
    Crud.app_user_id a = Crud.id u /\
    Crud.nomination_id a = sid /\
    Crud.comment_text a = comment_text (data c) /\
    Crud.voice_file_id a = voice_file_id (data c).
Proof.
  intros Hu Hs. unfold finish_application. rewrite Hu, Hs. simpl.
  repeat split. eexists. split; [reflexivity|]. simpl. repeat split.
Qed.

Lemma set_state_same (c : FSMContext) (st : ApplicationForm) :
  state c = Some st -> set_state c st = c.
Proof. destruct c as [s dt]. simpl. intros ->. reflexivity. Qed.

(** C7, amended.  The message carries no photo and no document, is not taken
    by the start router, and its text is neither the submit button nor the
    cancel button; it carries a voice recording or a non-empty text.
    Below [MIN_FILES], in [uploading_photos], the answer is
    [error_not_photo] and the session and the database are returned as they
    were.  From [MIN_FILES] on, in [uploading_photos] and in
    [entering_comment]: a voice recording longer than [MAX_VOICE_DURATION]
    is answered with [error_voice_length], nothing is stored and the session
    stays in [entering_comment]; otherwise, when the user row exists and the
    session holds a stage, one application row is appended whose photos are
    the file ids of the session in order and whose comment is the text or
    the voice id, and the session is cleared. *)
Theorem comment_input_outcomes (c : FSMContext) (d : Crud.database)
    (m : Message) (e : env) :
  start_router_handles m = false ->
  text_is m submit_text = false ->
  text_is m cancel_text = false ->
  photo m = [] -> document m = None ->
  voice m <> None \/ truthy (text m) = true ->
  let r := route unicode_upper unicode_lower decimal_value int_of_str
             max_file_size_mb start_router_handles c d (MessageEvent m) e in
  (state c = Some uploading_photos ->
   (length (files (data c)) < MIN_FILES)%nat ->
   r = Some (done c d [error_not_photo])) /\
  (state c = Some uploading_photos \/ state c = Some entering_comment ->
   (MIN_FILES <= length (files (data c)))%nat ->
   (forall v : Voice, voice m = Some v ->
      (MAX_VOICE_DURATION < duration v)%Z ->
      r = Some (done (set_state c entering_comment) d [error_voice_length])) /\
   (forall (u : Crud.User) (sid : Z),
      Crud.get_user_by_telegram_id d (tg_id (from_user m)) = Some u ->
      stage_id (data c) = Some sid ->
      (forall v : Voice, voice m = Some v ->
         (duration v <= MAX_VOICE_DURATION)%Z) ->
      exists (o : outcome) (a : Crud.Application),
        r = Some o /\ raised o = false /\ ctx o = clear /\
        sent o = [saving; finish] /\
        Crud.applications (db o) = Crud.applications d ++ [a] /\
        Crud.photos a = List.map file_id (files (data c)) /\
        Crud.app_user_id a = Crud.id u /\
        Crud.nomination_id a = sid /\
        match voice m with
        | Some v => Crud.voice_file_id a = Some (voice_id v) /\
                    Crud.comment_text a = None
        | None => Crud.comment_text a = text m /\ Crud.voice_file_id a = None
        end)).
Proof.
  intros Hsr Hsub Hcan Hph Hdoc Hin r.
  assert (Hr_up : state c = Some uploading_photos ->
                  r = Some (process_invalid_file c d m e)).
  { intros Hst. unfold r, route, route_message, has_photo, has_document.
    rewrite Hsr, Hsub, Hst, Hph, Hdoc, Hcan. reflexivity. }
  split.
  - intros Hst Hlt. rewrite (Hr_up Hst). unfold process_invalid_file.
    apply Nat.leb_gt in Hlt. rewrite Hlt. reflexivity.
  - intros Hst Hge.
    (* in both states the event is handled as the comment of the session
       put in [entering_comment] *)
    assert (Hr : r = Some (match voice m with
                           | Some _ => process_voice_comment
                                         (set_state c entering_comment) d m e
                           | None => process_text_comment
                                       (set_state c entering_comment) d m e
                           end)).
    { destruct Hst as [Hst|Hst].
      - rewrite (Hr_up Hst). unfold process_invalid_file.
        apply Nat.leb_le in Hge. rewrite Hge. cbv zeta.
        destruct (voice m) as [v|]; [reflexivity|].
        destruct Hin as [Hin|Hin]; [congruence|].
        rewrite Hin, Hcan. reflexivity.
      - unfold r, route, route_message, has_voice.
        rewrite Hsr, Hsub, Hst, (set_state_same c entering_comment Hst).
        destruct (voice m) as [v|]; [reflexivity|].
        destruct Hin as [Hin|Hin]; [congruence|].
        rewrite Hin. reflexivity. }
    split.
    + intros v Hv Hlong. rewrite Hr, Hv. unfold process_voice_comment.
      rewrite Hv. apply Z.ltb_lt in Hlong. rewrite Hlong. reflexivity.
    + intros u sid Hu Hsid Hshort. rewrite Hr.
      destruct (voice m) as [v|] eqn:Hv.
      * unfold process_voice_comment. rewrite Hv.
        assert (Hd : (MAX_VOICE_DURATION <? duration v)%Z = false)
          by (apply Z.ltb_ge; apply Hshort; reflexivity).
        rewrite Hd. cbv zeta.
        set (c2 := set_data (set_state c entering_comment)
                     (update_comment (data (set_state c entering_comment))
                        None (Some (voice_id v)))).
        destruct (finish_application_persists c2 d m e [] u sid Hu Hsid)
          as (H1 & H2 & H3 & a & H4 & H5 & H6 & H7 & H8 & H9).
        exists (finish_application c2 d m e []), a.
        repeat split; assumption.
      * unfold process_text_comment. rewrite Hcan. cbv zeta.
        set (c2 := set_data (set_state c entering_comment)
                     (update_comment (data (set_state c entering_comment))
                        (text m) None)).
        destruct (finish_application_persists c2 d m e [] u sid Hu Hsid)
          as (H1 & H2 & H3 & a & H4 & H5 & H6 & H7 & H8 & H9).
        exists (finish_application c2 d m e []), a.
        repeat split; assumption.
Qed.

(** The three handlers that do test the size refuse a file above the
    ceiling and leave the session as it was. *)
Lemma process_photo_too_large (c : FSMContext) (d : Crud.database)
    (m : Message) (p : PhotoSize) :
  (length (files (data c)) < MAX_FILES)%nat ->
  last (photo m) = Some p ->
  photo_too_large max_file_size_mb (photo_file_size p) = true ->
  process_photo max_file_size_mb c d m = done c d [error_file_too_large].
Proof.
  intros Hl Hp Hs. unfold process_photo.
  assert (E : (MAX_FILES <=? length (files (data c)))%nat = false)
    by (apply Nat.leb_gt; exact Hl).
  rewrite E, Hp, Hs. reflexivity.
Qed.

Lemma process_document_too_large (c : FSMContext) (d : Crud.database)
    (m : Message) (doc : Document) (size : Z) :
  (length (files (data c)) < MAX_FILES)%nat ->
  document m = Some doc ->
  wrong_format unicode_lower doc = false ->
  doc_file_size doc = Some size ->
  (max_file_size_bytes max_file_size_mb < size)%Z ->
  process_document unicode_lower max_file_size_mb c d m
    = done c d [error_file_too_large] /\
  process_extra_document unicode_lower max_file_size_mb c d m
    = done c d [error_file_too_large].
Proof.
  intros Hl Hd Hw Hs Hb.
  assert (E : (MAX_FILES <=? length (files (data c)))%nat = false)
    by (apply Nat.leb_gt; exact Hl).
  assert (E2 : (max_file_size_bytes max_file_size_mb <? size)%Z = true)
    by (apply Z.ltb_lt; exact Hb).
  unfold process_document, process_extra_document.
  rewrite E, Hd, Hw, Hs, E2. split; reflexivity.
Qed.

End Handlers.

(** C5.  The per-file ceiling is enforced by [process_photo],
    [process_document] and [process_extra_document], but [process_extra_photo]
    makes no size test.  With the default ceiling of 20 MB, a session in the
    comment state that holds three files receives a photo of 25 MB: the
    router calls [process_extra_photo], which appends the photo and answers
    with the file count, where [process_photo] answers the same photo with
    the too-large message and appends nothing. *)
Theorem extra_photo_accepted_without_size_check :
  let c := demo_session entering_comment [lit "f1"; lit "f2"; lit "f3"] in
  let big := photo_message (lit "big") (25 * 1024 * 1024) in
  photo_too_large 20 (Some (25 * 1024 * 1024)%Z) = true /\
  route_message upper lower ascii_decimal_value 20 no_start_router
    c demo_db big demo_env = Some (process_extra_photo c demo_db big) /\
  process_extra_photo c demo_db big =
    done (demo_session entering_comment
            [lit "f1"; lit "f2"; lit "f3"; lit "big"])
      demo_db [extra_file_can_send_more 4] /\
  process_photo 20 (demo_session uploading_photos [lit "f1"; lit "f2"])
      demo_db big =
    done (demo_session uploading_photos [lit "f1"; lit "f2"]) demo_db
      [error_file_too_large].
Proof.
  cbv zeta. repeat split; vm_compute; reflexivity.
Qed.


(** A stage is chosen and six photos arrive: the session reached holds five
    files and is in the comment state. *)
Lemma files_count_invariant_witness :
  let c' := run upper lower ascii_decimal_value ascii_int_of_str 20
              no_start_router demo_choosing demo_upload in
  (length (files (data c')) <= MAX_FILES)%nat /\
  (state c' = Some entering_comment ->
   (MIN_FILES <= length (files (data c')))%nat).
Proof.
  assert (H : files_in_bounds demo_choosing)
    by (split; [vm_compute; lia|discriminate]).
  destruct (files_count_invariant upper lower ascii_decimal_value
              ascii_int_of_str 20 no_start_router demo_choosing demo_upload H)
    as (H1 & H2 & _).
  split; [exact H1|exact H2].
Defined.

(** C7 as stated fails twice.  With three files in the session, a voice
    recording of 61 seconds is not taken as the comment: the answer is
    [error_voice_length], the session keeps its files and no application is
    stored.  With two files, the text of the cancel button is not answered
    with [error_not_photo]: the session is cleared. *)
Lemma long_voice_comment_not_stored :
  let c := run upper lower ascii_decimal_value ascii_int_of_str 20
             no_start_router demo_choosing demo_three_photos in
  let c2 := demo_session uploading_photos [lit "f1"; lit "f2"] in
  (state c = Some entering_comment /\ length (files (data c)) = MIN_FILES /\
   route upper lower ascii_decimal_value ascii_int_of_str 20 no_start_router
     c demo_db (MessageEvent (voice_message 61)) demo_env
   = Some (done c demo_db [error_voice_length])) /\
  route upper lower ascii_decimal_value ascii_int_of_str 20 no_start_router
    c2 demo_db (MessageEvent (text_message cancel_text)) demo_env
  = Some (done clear demo_db [cancelled]).
Proof.
  cbv zeta. split; [split; [|split]|]; vm_compute; reflexivity.
Qed.

(** Scenario C: with three photos in the session a text is taken as the
    comment and one application with the three file ids is stored. *)
Lemma comment_input_outcomes_witness :
  let c := run upper lower ascii_decimal_value ascii_int_of_str 20
             no_start_router demo_choosing demo_three_photos in
  exists (o : outcome) (a : Crud.Application),
    route upper lower ascii_decimal_value ascii_int_of_str 20 no_start_router
      c demo_db (MessageEvent (text_message (lit "hello"))) demo_env = Some o /\
    ctx o = clear /\
    Crud.applications (db o) = Crud.applications demo_db ++ [a] /\
    Crud.photos a = [lit "f1"; lit "f2"; lit "f3"] /\
    Crud.comment_text a = Some (lit "hello").
Proof.
  intros c.
  assert (Hge : (MIN_FILES <= length (files (data c)))%nat)
    by (vm_compute; lia).
  assert (Hv : forall v : Voice, voice (text_message (lit "hello")) = Some v ->
               (duration v <= MAX_VOICE_DURATION)%Z)
    by (intros v Hv; discriminate Hv).
  destruct (comment_input_outcomes upper lower ascii_decimal_value
              ascii_int_of_str 20 no_start_router c demo_db
              (text_message (lit "hello")) demo_env
              eq_refl eq_refl eq_refl eq_refl eq_refl (or_intror eq_refl))
    as [_ H].
  destruct (H (or_intror eq_refl) Hge) as [_ Hp].
  destruct (Hp demo_user 2%Z eq_refl eq_refl Hv)
    as (o & a & H1 & _ & H3 & _ & H5 & H6 & _ & _ & H9).
  exists o, a. simpl in H9. destruct H9 as [H9 _].
  repeat split; assumption.
Defined.

(** *** The dialogue as a whole *)

Section Dialogue.
Variable unicode_upper : str -> str.
Variable unicode_lower : str -> str.
Variable decimal_value : N -> option N.
Variable int_of_str : str -> option Z.
Variable max_file_size_mb : Z.
Variable start_router_handles : Message -> bool.

Let route := route unicode_upper unicode_lower decimal_value int_of_str
               max_file_size_mb start_router_handles.
Let step := step unicode_upper unicode_lower decimal_value int_of_str
              max_file_size_mb start_router_handles.
Let run := run unicode_upper unicode_lower decimal_value int_of_str
             max_file_size_mb start_router_handles.

(** The handler that takes an event, by the state of the session and the
    filters, in the order of registration. *)
Lemma route_handlers (P : outcome -> Prop) (c : FSMContext)
    (d : Crud.database) (ev : event) (e : env) (o : outcome) :
  (forall m, ev = MessageEvent m -> text_is m submit_text = true ->
             P (start_application unicode_lower c d m e)) ->
  (forall m, ev = MessageEvent m -> state c = Some entering_fio ->
             P (process_fio c d m)) ->
  (forall m, ev = MessageEvent m -> state c = Some entering_city ->
             P (process_city c d m)) ->
  (forall m, ev = MessageEvent m -> state c = Some entering_school ->
             P (process_school c d m)) ->
  (forall m, ev = MessageEvent m -> state c = Some entering_grade ->
             P (process_grade unicode_upper decimal_value c d m e)) ->
  (forall m, ev = MessageEvent m -> text_is m cancel_text = true ->
             P (cancel_application c d)) ->
  (forall m, ev = MessageEvent m -> state c = Some uploading_photos ->
             has_photo m = true -> P (process_photo max_file_size_mb c d m)) ->
  (forall m, ev = MessageEvent m -> state c = Some uploading_photos ->
             has_photo m = false -> has_document m = true ->
             P (process_document unicode_lower max_file_size_mb c d m)) ->
  (forall m, ev = MessageEvent m -> state c = Some uploading_photos ->
             has_photo m = false -> has_document m = false ->
             text_is m cancel_text = false ->
             P (process_invalid_file c d m e)) ->
  (forall m, ev = MessageEvent m -> state c = Some entering_comment ->
             has_voice m = true -> P (process_voice_comment c d m e)) ->
  (forall m, ev = MessageEvent m -> state c = Some entering_comment ->
             has_voice m = false -> truthy (text m) = true ->
             P (process_text_comment c d m e)) ->
  (forall m, ev = MessageEvent m -> state c = Some entering_comment ->
             has_photo m = true -> P (process_extra_photo c d m)) ->
  (forall m, ev = MessageEvent m -> state c = Some entering_comment ->
             has_document m = true ->
             P (process_extra_document unicode_lower max_file_size_mb c d m)) ->
  (forall cb, ev = CallbackEvent cb -> state c = Some choosing_stage ->
              P (process_stage_choice int_of_str c d cb e)) ->
  (state c = Some choosing_stage -> P (cancel_stage_choice c d)) ->
  (state c = Some choosing_stage -> P (change_profile_data c d)) ->
  route c d ev e = Some o -> P o.
Proof.
  intros Hstart Hfio Hcity Hschool Hgrade Hcancel Hphoto Hdoc Hinv Hvoice
    Htext Hxp Hxd Hstage Hcs Hcp Hr.
  unfold route, Application.route in Hr. destruct ev as [m|cb].
  - unfold route_message in Hr.
    destruct (start_router_handles m); [discriminate|].
    destruct (text_is m submit_text) eqn:Es.
    { injection Hr as <-. apply (Hstart m); auto. }
    destruct (state c) as [[| | | | | |]|] eqn:Est.
    + injection Hr as <-. apply (Hfio m); auto.
    + injection Hr as <-. apply (Hcity m); auto.
    + injection Hr as <-. apply (Hschool m); auto.
    + injection Hr as <-. apply (Hgrade m); auto.
    + destruct (text_is m cancel_text) eqn:Ec; [|discriminate].
      injection Hr as <-. apply (Hcancel m); auto.
    + destruct (has_photo m) eqn:Ep.
      { injection Hr as <-. apply (Hphoto m); auto. }
      destruct (has_document m) eqn:Ed.
      { injection Hr as <-. apply (Hdoc m); auto. }
      destruct (text_is m cancel_text) eqn:Ec.
      { injection Hr as <-. apply (Hcancel m); auto. }
      injection Hr as <-. apply (Hinv m); auto.
    + destruct (has_voice m) eqn:Ev.
      { injection Hr as <-. apply (Hvoice m); auto. }
      destruct (truthy (text m)) eqn:Et.
      { injection Hr as <-. apply (Htext m); auto. }
      destruct (has_photo m) eqn:Ep.
      { injection Hr as <-. apply (Hxp m); auto. }
      destruct (has_document m) eqn:Ed; [|discriminate].
      injection Hr as <-. apply (Hxd m); auto.
    + destruct (text_is m cancel_text) eqn:Ec; [|discriminate].
      injection Hr as <-. apply (Hcancel m); auto.
  - unfold route_callback in Hr.
    destruct (state c) as [[| | | | | |]|] eqn:Est; try discriminate.
    destruct (startswith (lit "stage_") (callback_data cb)).
    { injection Hr as <-. apply (Hstage cb); auto. }
    destruct (str_eqb (callback_data cb) (lit "cancel_application")).
    { injection Hr as <-. apply Hcs; auto. }
    destruct (str_eqb (callback_data cb) (lit "change_profile"));
      [|discriminate].
    injection Hr as <-. apply Hcp; auto.
Qed.

Ltac case_matches :=
  repeat match goal with
  | |- context [match ?x with _ => _ end] => destruct x eqn:?
  end.













(** X16.  The states follow the dialogue.  After any event the state is
    what it was, or the idle state, or [entering_fio] or [choosing_stage]
    (the submit button, the change of the profile), or the next state in the
    order of the dialogue.  In particular [uploading_photos] is entered only
    from [choosing_stage] and [entering_comment] only from
    [uploading_photos]. *)
Theorem state_follows_the_dialogue
    (c : FSMContext) (x : Crud.database * event * env) :
  let s := state c in
  let s' := state (step c x) in
  s' = s \/ s' = None \/ s' = Some entering_fio \/ s' = Some choosing_stage \/
  s' = next_state s.
Proof.
  cbv zeta. destruct x as [[d ev] e]. unfold step, Application.step.
  destruct (Application.route _ _ _ _ _ _ c d ev e) as [o|] eqn:E;
    [|left; reflexivity].
  revert E. fold route.
  apply (route_handlers
           (fun o => state (ctx o) = state c \/ state (ctx o) = None \/
                     state (ctx o) = Some entering_fio \/
                     state (ctx o) = Some choosing_stage \/
                     state (ctx o) = next_state (state c)) c d ev e o);
    cbv beta.
  - intros m _ _. unfold start_application. case_matches; simpl; tauto.
  - intros m _ Hs. rewrite Hs. unfold process_fio, cancel_application.
    case_matches; simpl; tauto.
  - intros m _ Hs. rewrite Hs. unfold process_city, cancel_application.
    case_matches; simpl; tauto.
  - intros m _ Hs. rewrite Hs. unfold process_school, cancel_application.
    case_matches; simpl; tauto.
  - intros m _ Hs. rewrite Hs. unfold process_grade, cancel_application.
    case_matches; simpl; tauto.
  - intros m _ _. unfold cancel_application. case_matches; simpl; tauto.
  - intros m _ Hs _. rewrite Hs. unfold process_photo, _send_file_status.
    case_matches; simpl; tauto.
  - intros m _ Hs _ _. rewrite Hs. unfold process_document, _send_file_status.
    case_matches; simpl; tauto.
  - intros m _ Hs _ _ _. rewrite Hs.
    unfold process_invalid_file, process_voice_comment, process_text_comment,
      finish_application, cancel_application.
    case_matches; simpl; tauto.
  - intros m _ Hs _. rewrite Hs.
    unfold process_voice_comment, finish_application.
    case_matches; simpl; tauto.
  - intros m _ Hs _ _. rewrite Hs.
    unfold process_text_comment, finish_application, cancel_application.
    case_matches; simpl; tauto.
  - intros m _ Hs _. rewrite Hs. unfold process_extra_photo.
    case_matches; simpl; tauto.
  - intros m _ Hs _. rewrite Hs. unfold process_extra_document.
    case_matches; simpl; tauto.
  - intros cb _ Hs. rewrite Hs. unfold process_stage_choice.
    case_matches; simpl; tauto.
  - intros Hs. rewrite Hs. simpl. tauto.
  - intros Hs. rewrite Hs. simpl. tauto.
Qed.

(** X17.  The button of [get_cancel_menu] ends the dialogue in every
    state: a text message that carries the text of the button is answered
    with the cancellation and the session is cleared, whatever is stored in
    it; in the idle state the menu is shown and nothing changes.  The
    database is left as it is. *)
Theorem cancel_button_ends_the_dialogue
    (c : FSMContext) (d : Crud.database) (m : Message) (e : env)
    (row : list str) (label : str) :
  In row get_cancel_menu -> In label row ->
  start_router_handles m = false ->
  text m = Some label ->
  photo m = [] -> document m = None -> voice m = None ->
  route c d (MessageEvent m) e
  = Some (match state c with
          | Some _ => done clear d [cancelled]
          | None => done c d [choose_action]
          end).
Proof.
  intros Hrow Hlabel Hr Ht Hp Hd Hv.
  destruct Hrow as [<-|[]]. destruct Hlabel as [<-|[]].
  assert (Ec : text_is m cancel_text = true)
    by (unfold text_is; rewrite Ht; reflexivity).
  assert (Es : text_is m submit_text = false)
    by (unfold text_is; rewrite Ht; reflexivity).
  assert (Et : truthy (text m) = true) by (rewrite Ht; reflexivity).
  unfold route, Application.route, route_message, has_photo, has_document,
    has_voice.
  rewrite Hr, Es, Hp, Hd, Hv, Ec, Et.
  unfold process_fio, process_city, process_school, process_grade,
    process_text_comment. rewrite Ec. unfold cancel_application.
  destruct (state c) as [[| | | | | |]|]; reflexivity.
Qed.

End Dialogue.



Lemma cancel_button_ends_the_dialogue_witness :
  route upper lower ascii_decimal_value ascii_int_of_str 20 no_start_router
    (demo_session entering_comment [lit "f1"; lit "f2"; lit "f3"]) demo_db
    (MessageEvent (text_message cancel_text)) demo_env
  = Some (done clear demo_db [cancelled]).
Proof.
  apply (cancel_button_ends_the_dialogue upper lower ascii_decimal_value
           ascii_int_of_str 20 no_start_router
           (demo_session entering_comment [lit "f1"; lit "f2"; lit "f3"])
           demo_db (text_message cancel_text) demo_env
           [cancel_text] cancel_text);
    try reflexivity; left; reflexivity.
Defined.

(** *** The stage keyboard *)

Lemma split_on_absent (sep : N) (s : str) :
  forallb (fun c => negb (c =? sep)%N) s = true -> split_on sep s = [s].
Proof.
  induction s as [|c r IH]; [reflexivity|].
  simpl forallb. intros H. apply andb_true_iff in H as [Hc Hr].
  apply negb_true_iff in Hc. cbn [split_on]. rewrite Hc, (IH Hr). reflexivity.
Qed.

Lemma digits_of_digits (fuel : nat) (n : N) :
  forallb is_ascii_digit (digits_of fuel n) = true.
Proof.
  revert n. induction fuel as [|fuel IH]; intros n; [reflexivity|].
  cbn [digits_of]. destruct (n <? 10)%N eqn:E.
  - apply N.ltb_lt in E. simpl. rewrite andb_true_r.
    unfold is_ascii_digit, between.
    apply andb_true_iff. split; apply N.leb_le; lia.
  - rewrite forallb_app, IH. simpl. rewrite andb_true_r.
    assert (H10 : (10 <> 0)%N) by discriminate.
    pose proof (N.mod_upper_bound n 10 H10) as Hm.
    set (r := (n mod 10)%N) in *. clearbody r.
    unfold is_ascii_digit, between.
    apply andb_true_iff. split; apply N.leb_le; lia.
Qed.

Lemma str_of_Z_no_underscore (z : Z) :
  forallb (fun c => negb (c =? underscore)%N) (str_of_Z z) = true.
Proof.
  assert (H : forall n, forallb (fun c => negb (c =? underscore)%N)
                          (str_of_N n) = true).
  { intros n. pose proof (digits_of_digits (S (N.size_nat n)) n) as H.
    unfold str_of_N. rewrite forallb_forall in *. intros c Hc.
    specialize (H c Hc). unfold is_ascii_digit, between in H.
    apply andb_true_iff in H as [H1 H2]. apply N.leb_le in H1, H2.
    apply negb_true_iff. apply N.eqb_neq. unfold underscore. lia. }
  unfold str_of_Z. destruct (z <? 0); [|apply H].
  simpl. apply H.
Qed.

Lemma parse_stage_button (int_of_str : str -> option Z) (z : Z) :
  parse_stage_id int_of_str (lit "stage_" ++ str_of_Z z)
  = int_of_str (str_of_Z z).
Proof.
  unfold parse_stage_id.
  change (lit "stage_" ++ str_of_Z z)
    with (115 :: 116 :: 97 :: 103 :: 101 :: 95 :: str_of_Z z)%N.
  cbn [split_on].
  change (115 =? underscore)%N with false.
  change (116 =? underscore)%N with false.
  change (97 =? underscore)%N with false.
  change (103 =? underscore)%N with false.
  change (101 =? underscore)%N with false.
  change (95 =? underscore)%N with true.
  cbv iota.
  rewrite (split_on_absent underscore (str_of_Z z) (str_of_Z_no_underscore z)).
  reflexivity.
Qed.

Lemma get_nomination_by_id_unique (d : Crud.database) (stage : Crud.Nomination) :
  (forall s1 s2, In s1 (Crud.nominations d) -> In s2 (Crud.nominations d) ->
                 Crud.nom_id s1 = Crud.nom_id s2 -> s1 = s2) ->
  In stage (Crud.nominations d) ->
  Crud.get_nomination_by_id d (Crud.nom_id stage) = Some stage.
Proof.
  intros Hkey Hin. unfold Crud.get_nomination_by_id.
  destruct (find (fun x => Crud.nom_id x =? Crud.nom_id stage)
              (Crud.nominations d)) as [x|] eqn:E.
  - apply find_some in E as [Hx Ex]. apply Z.eqb_eq in Ex.
    f_equal. apply Hkey; assumption.
  - pose proof (find_none _ _ E stage Hin) as H. simpl in H.
    rewrite Z.eqb_refl in H. discriminate.
Qed.

Section KeyboardFacts.
Variable int_of_str : str -> option Z.
Variable sorted_by_order : list Crud.Nomination -> list Crud.Nomination.

(** X18.  No button of the stage keyboard is dead.  Let the keyboard be
    made by [get_stages_keyboard] from [get_available_nominations], with
    stage ids that are unique in the table and that [int] reads back from
    their [str].  Pressed in [choosing_stage] while the database and the
    clock are as they were when the keyboard was made, every button is taken
    by a handler that raises nothing and leaves the database alone: a stage
    button selects the available stage whose name it shows, empties the
    file list and moves the session to [uploading_photos]; the profile
    button moves it to [entering_fio]; the cancel button clears it. *)
Theorem keyboard_buttons_are_handled
    (c : FSMContext) (d : Crud.database) (e : env)
    (show_change_profile : bool) (row : list InlineKeyboardButton)
    (button : InlineKeyboardButton) (user : TgUser) :
  (forall l x, In x (sorted_by_order l) -> In x l) ->
  (forall s1 s2, In s1 (Crud.nominations d) -> In s2 (Crud.nominations d) ->
                 Crud.nom_id s1 = Crud.nom_id s2 -> s1 = s2) ->
  (forall s, In s (Crud.nominations d) ->
             int_of_str (str_of_Z (Crud.nom_id s)) = Some (Crud.nom_id s)) ->
  state c = Some choosing_stage ->
  In row (get_stages_keyboard sorted_by_order
            (Crud.get_available_nominations d (now e)) show_change_profile) ->
  In button row ->
  exists o : outcome,
    route_callback int_of_str c d (press button user) e = Some o /\
    raised o = false /\ db o = d /\
    ((exists stage : Crud.Nomination,
        In stage (Crud.get_available_nominations d (now e)) /\
        button_text button = Crud.name stage /\
        state (ctx o) = Some uploading_photos /\
        stage_id (data (ctx o)) = Some (Crud.nom_id stage) /\
        stage_name (data (ctx o)) = Some (button_text button) /\
        files (data (ctx o)) = []) \/
     (show_change_profile = true /\
      button_callback_data button = lit "change_profile" /\
      ctx o = set_state c entering_fio) \/
     (button_callback_data button = lit "cancel_application" /\
      ctx o = clear)).
Proof.
  intros Hsort Hkey Hint Hs Hrow Hb.
  unfold get_stages_keyboard in Hrow.
  apply in_app_or in Hrow as [Hrow|Hrow]; [|apply in_app_or in Hrow as [Hrow|Hrow]].
  - apply in_map_iff in Hrow as (stage & <- & Hin).
    destruct Hb as [<-|[]].
    apply Hsort in Hin. pose proof Hin as Hav.
    unfold Crud.get_available_nominations in Hin.
    apply filter_In in Hin as [Hin Hok].
    apply andb_true_iff in Hok as [Hok He]. apply andb_true_iff in Hok as [_ Hn].
    apply negb_true_iff in He, Hn.
    unfold route_callback, press. cbn [callback_data button_callback_data].
    rewrite Hs.
    change (startswith (lit "stage_") (lit "stage_" ++ str_of_Z (Crud.nom_id stage)))
      with true. cbv iota.
    unfold process_stage_choice. cbn [callback_data].
    rewrite parse_stage_button, (Hint stage Hin).
    rewrite (get_nomination_by_id_unique d stage Hkey Hin), Hn, He.
    eexists. split; [reflexivity|]. split; [reflexivity|]. split; [reflexivity|].
    left. exists stage. simpl. auto 10.
  - destruct show_change_profile; [|contradiction].
    destruct Hrow as [<-|[]]. destruct Hb as [<-|[]].
    unfold route_callback, press. rewrite Hs.
    eexists. split; [reflexivity|]. split; [reflexivity|]. split; [reflexivity|].
    right. left. auto.
  - destruct Hrow as [<-|[]]. destruct Hb as [<-|[]].
    unfold route_callback, press. rewrite Hs.
    eexists. split; [reflexivity|]. split; [reflexivity|]. split; [reflexivity|].
    right. right. auto.
Qed.

End KeyboardFacts.

Lemma keyboard_buttons_are_handled_witness :
  exists o : outcome,
    route_callback ascii_int_of_str demo_choosing demo_db
      (press {| button_text := lit "Stage 2";
                button_callback_data := lit "stage_2" |} demo_tg_user)
      demo_env = Some o /\
    state (ctx o) = Some uploading_photos.
Proof.
  destruct (keyboard_buttons_are_handled ascii_int_of_str (fun l => l)
              demo_choosing demo_db demo_env true
              [ {| button_text := lit "Stage 2";
                   button_callback_data := lit "stage_2" |} ]
              {| button_text := lit "Stage 2";
                 button_callback_data := lit "stage_2" |} demo_tg_user)
    as (o & Hr & _ & _ & H).
  - intros l x Hx. exact Hx.
  - intros s1 s2 H1 H2 E. simpl in H1, H2.
    destruct H1 as [<-|[<-|[]]]; destruct H2 as [<-|[<-|[]]];
      try reflexivity; discriminate E.
  - intros s Hin. simpl in Hin. destruct Hin as [<-|[<-|[]]]; reflexivity.
  - reflexivity.
  - left. reflexivity.
  - left. reflexivity.
  - exists o. split; [exact Hr|].
    destruct H as [(stage & _ & _ & Hst & _)|[(_ & Hd & _)|(Hd & _)]].
    + exact Hst.
    + discriminate Hd.
    + discriminate Hd.
Defined.

End ApplicationFacts.

(** ** The table of users *)

Module CrudFacts.
Import PyStr Crud.

Lemma next_id_above (ids : list Z) (x : Z) : x ∈ ids -> x < next_id ids.
Proof.
  unfold next_id. induction ids as [|y l IH]; simpl.
  - intros H. inversion H.
  - intros H. apply list_elem_of_In in H; simpl in H. destruct H as [->|H]; [lia|].
    apply list_elem_of_In in H. specialize (IH H). lia.
Qed.

Lemma find_telegram_id_app (us : list User) (u : User) (tg : Z) :
  List.find (fun x => telegram_id x =? tg) (us ++ [u]) =
  match List.find (fun x => telegram_id x =? tg) us with
  | Some x => Some x
  | None => if telegram_id u =? tg then Some u else None
  end.
Proof.
  induction us as [|y l IH]; simpl; [reflexivity|].
  destruct (telegram_id y =? tg); [reflexivity|exact IH].
Qed.

Lemma find_telegram_id_none (us : list User) (tg : Z) :
  List.find (fun x => telegram_id x =? tg) us = None ->
  tg ∉ List.map telegram_id us.
Proof.
  intros H Hin. apply list_elem_of_In, in_map_iff in Hin.
  destruct Hin as (x & E & Hx).
  pose proof (find_none _ _ H x Hx) as F. simpl in F. lia.
Qed.

Lemma NoDup_snoc {A : Type} (l : list A) (x : A) :
  NoDup l -> x ∉ l -> NoDup (l ++ [x]).
Proof.
  intros Hl Hx. apply NoDup_app. split; [exact Hl|]. split.
  - intros y Hy Hin. apply list_elem_of_In in Hin; simpl in Hin; destruct Hin as [Hin|[]]. subst y.
    exact (Hx Hy).
  - apply NoDup_singleton.
Qed.

(** X23.  [get_or_create_user] registers a Telegram user once.  For a
    Telegram id that the [BigInteger] column takes, on a table with unique
    ids and unique Telegram ids: the returned user has the
    requested Telegram id and is the row that [get_user_by_telegram_id]
    finds afterwards; the keys stay unique; a second call, with any user
    name, returns the same user and changes nothing; the rows found for
    other Telegram ids are the same as before; and when the user was not
    registered, exactly one row is appended, with a fresh id and an empty
    profile. *)
Theorem get_or_create_user_registers_once
    (db : database) (tg : Z) (uname uname' : option str) :
  big_integer tg ->
  unique_keys db ->
  let db' := fst (get_or_create_user db tg uname) in
  let u := snd (get_or_create_user db tg uname) in
  unique_keys db' /\
  telegram_id u = tg /\
  get_user_by_telegram_id db' tg = Some u /\
  get_or_create_user db' tg uname' = (db', u) /\
  (forall other : Z, other <> tg ->
     get_user_by_telegram_id db' other = get_user_by_telegram_id db other) /\
  (get_user_by_telegram_id db tg = None ->
   users db' = users db ++ [u] /\ (id u ∉ List.map id (users db)) /\
   full_name u = None /\ city u = None /\ school u = None /\ grade u = None).
Proof.
  intros _ [Ht Hi]. unfold get_or_create_user, get_user_by_telegram_id.
  destruct (List.find (fun x => telegram_id x =? tg) (users db)) as [x|] eqn:F.
  - cbn [fst snd]. rewrite F.
    apply find_some in F. destruct F as [_ F]. simpl in F.
    apply Z.eqb_eq in F.
    repeat split; try assumption; try reflexivity; discriminate.
  - cbn [fst snd create_user set_users users id telegram_id full_name city
         school grade].
    assert (Hfresh : next_id (List.map id (users db))
                       ∉ List.map id (users db)).
    { intros Hin. apply next_id_above in Hin. lia. }
    split; [|split; [reflexivity|split; [|split; [|split]]]].
    + unfold unique_keys, set_users; cbn [users].
      split; rewrite map_app; apply NoDup_snoc; auto.
      apply find_telegram_id_none. exact F.
    + rewrite find_telegram_id_app, F. cbn [telegram_id].
      rewrite Z.eqb_refl. reflexivity.
    + rewrite find_telegram_id_app, F. cbn [telegram_id].
      rewrite Z.eqb_refl. reflexivity.
    + intros other Ho. rewrite find_telegram_id_app. cbn [telegram_id].
      destruct (List.find (fun x => telegram_id x =? other) (users db));
        [reflexivity|].
      destruct (tg =? other) eqn:E; [lia|reflexivity].
    + intros _. repeat split; auto.
Qed.

Lemma get_or_create_user_registers_once_witness :
  get_or_create_user (fst (get_or_create_user demo_users 503 None)) 503
    (Some (lit "late"))
  = get_or_create_user demo_users 503 None.
Proof.
  assert (U : unique_keys demo_users).
  { split; simpl;
      repeat (apply NoDup_cons_2;
              [rewrite list_elem_of_In; simpl; intuition lia|]);
      apply NoDup_nil_2. }
  assert (R : big_integer 503) by (unfold big_integer; lia).
  rewrite (proj1 (proj2 (proj2 (proj2
             (get_or_create_user_registers_once demo_users 503 None
                (Some (lit "late")) R U))))).
  reflexivity.
Defined.

Lemma find_update_user (us : list User) (user_id tg : Z)
    (fn ct sc gr : option str) :
  List.find (fun x => telegram_id x =? tg)
    (List.map (fun u => if id u =? user_id
                        then {| id := id u; telegram_id := telegram_id u;
                                username := username u; full_name := fn;
                                city := ct; school := sc; grade := gr |}
                        else u) us)
  = option_map (fun u => if id u =? user_id
                         then {| id := id u; telegram_id := telegram_id u;
                                 username := username u; full_name := fn;
                                 city := ct; school := sc; grade := gr |}
                         else u)
      (List.find (fun x => telegram_id x =? tg) us).
Proof.
  induction us as [|y l IH]; [reflexivity|].
  cbn [List.map List.find].
  destruct (id y =? user_id) eqn:E; cbn [telegram_id];
    destruct (telegram_id y =? tg); cbn [option_map]; rewrite ?E; auto.
Qed.

Lemma map_update_user_keys (us : list User) (user_id : Z)
    (fn ct sc gr : option str) :
  let f := fun u => if id u =? user_id
                    then {| id := id u; telegram_id := telegram_id u;
                            username := username u; full_name := fn;
                            city := ct; school := sc; grade := gr |}
                    else u in
  List.map telegram_id (List.map f us) = List.map telegram_id us /\
  List.map id (List.map f us) = List.map id us.
Proof.
  cbv zeta. rewrite !map_map. split; apply map_ext; intros u;
    destruct (id u =? user_id); reflexivity.
Qed.

(** X24.  [update_user] followed by [get_user_by_telegram_id] gives the
    stored profile back.  On a table with unique ids and unique Telegram
    ids, updating the profile of a registered user by its id keeps the keys
    unique; the row found for its Telegram id has the same id, Telegram id
    and user name and the four new profile values; the rows found for other
    Telegram ids are unchanged; and no other table is touched. *)
Theorem update_user_round_trip
    (db : database) (u : User) (fn ct sc gr : option str) :
  unique_keys db ->
  get_user_by_telegram_id db (telegram_id u) = Some u ->
  let db' := update_user db (id u) fn ct sc gr in
  unique_keys db' /\
  get_user_by_telegram_id db' (telegram_id u)
  = Some {| id := id u; telegram_id := telegram_id u; username := username u;
            full_name := fn; city := ct; school := sc; grade := gr |} /\
  (forall other : Z, other <> telegram_id u ->
     get_user_by_telegram_id db' other = get_user_by_telegram_id db other) /\
  nominations db' = nominations db /\ applications db' = applications db /\
  accepting_applications db' = accepting_applications db.
Proof.
  intros [Ht Hi] Hu. unfold update_user, get_user_by_telegram_id in *.
  cbn [users set_users nominations applications accepting_applications].
  destruct (map_update_user_keys (users db) (id u) fn ct sc gr) as [K1 K2].
  cbv zeta in K1, K2.
  split; [|split; [|split; [|auto]]].
  - unfold unique_keys, set_users; cbn [users]. rewrite K1, K2. auto.
  - rewrite find_update_user, Hu. simpl. rewrite Z.eqb_refl. reflexivity.
  - intros other Ho. rewrite find_update_user.
    destruct (List.find (fun x => telegram_id x =? other) (users db))
      as [v|] eqn:F; [|reflexivity].
    simpl. destruct (id v =? id u) eqn:E; [|reflexivity].
    exfalso. apply Z.eqb_eq in E.
    apply find_some in F. destruct F as [Hv Fv]. simpl in Fv.
    apply find_some in Hu. destruct Hu as [Hin _].
    assert (v = u); [|subst; lia].
    clear - Hi Hv Hin E. induction (users db) as [|y l IH]; [contradiction|].
    simpl in Hi. apply NoDup_cons in Hi. destruct Hi as [Hn Hl].
    destruct Hv as [->|Hv], Hin as [->|Hin]; try reflexivity.
    + exfalso. apply Hn. rewrite E. apply list_elem_of_In, in_map. exact Hin.
    + exfalso. apply Hn. rewrite <- E. apply list_elem_of_In, in_map. exact Hv.
    + auto.
Qed.

Lemma update_user_round_trip_witness :
  get_user_by_telegram_id
    (update_user demo_users 2 (Some (lit "Ivan Orlov")) (Some (lit "Pskov"))
       (Some (lit "School 1")) (Some (lit "9"))) 502
  = Some {| id := 2; telegram_id := 502; username := None;
            full_name := Some (lit "Ivan Orlov"); city := Some (lit "Pskov");
            school := Some (lit "School 1"); grade := Some (lit "9") |}.
Proof.
  assert (U : unique_keys demo_users).
  { split; simpl;
      repeat (apply NoDup_cons_2;
              [rewrite list_elem_of_In; simpl; intuition lia|]);
      apply NoDup_nil_2. }
  apply (proj1 (proj2 (update_user_round_trip demo_users
                  {| id := 2; telegram_id := 502; username := None;
                     full_name := None; city := None; school := None;
                     grade := None |}
                  (Some (lit "Ivan Orlov")) (Some (lit "Pskov"))
                  (Some (lit "School 1")) (Some (lit "9")) U eq_refl))).
Defined.

End CrudFacts.

(** ** The login rate limit of the administration panel *)

Module AdminAuthFacts.
Import PyStr AdminAuth.

Lemma login_failed_step (st : login_attempts) (ip : str) (r : attempts_data)
    (now now_failed : Q) :
  st !! ip = Some r ->
  (blocked_until r <= now)%Q ->
  (now - last_attempt r <= inject_Z ATTEMPT_RESET_TIME)%Q \/ attempts r = 0 ->
  let n := attempts r + 1 in
  login st true ip false now now_failed =
    if MAX_LOGIN_ATTEMPTS <=? n then
      (<[ip := {| attempts := 0; last_attempt := now_failed;
                  blocked_until :=
                    (now_failed + inject_Z LOGIN_BLOCK_DURATION)%Q |}]> st,
       NowBlocked LOGIN_BLOCK_DURATION, true)
    else
      (<[ip := {| attempts := n; last_attempt := now_failed;
                  blocked_until := blocked_until r |}]> st,
       WrongCredentials (MAX_LOGIN_ATTEMPTS - n), true).
Proof.
  intros Hr Hb Hreset n. unfold login, check_login_rate_limit, attempts_getitem.
  simpl negb. cbv iota. rewrite Hr.
  assert (E1 : Qltb now (blocked_until r) = false) by (apply Qltb_ge; exact Hb).
  rewrite E1.
  set (r' := if Qltb _ _ then _ else r).
  assert (Er : r' = r).
  { unfold r'.
    destruct (Qltb (inject_Z ATTEMPT_RESET_TIME) (now - last_attempt r)) eqn:E;
      [|reflexivity].
    destruct Hreset as [H|H].
    - apply Qltb_lt in E. exfalso. lra.
    - destruct r as [a l b]. simpl in *. subst a. reflexivity. }
  rewrite Er. simpl negb. cbv iota.
  unfold record_failed_login, attempts_getitem. rewrite lookup_insert_eq.
  fold n. destruct (MAX_LOGIN_ATTEMPTS <=? n);
    rewrite insert_insert_eq; reflexivity.
Qed.

(** A login from an address without a record behaves as on the store in
    which the default record has been inserted. *)
Lemma login_unknown (st : login_attempts) (ip : str) (cred : bool)
    (now now_failed : Q) :
  st !! ip = None ->
  login st true ip cred now now_failed
  = login (<[ip := default_attempts_data]> st) true ip cred now now_failed.
Proof.
  intros H. unfold login, check_login_rate_limit, attempts_getitem.
  rewrite H, lookup_insert_eq. reflexivity.
Qed.

Lemma failed_logins_cons (st : login_attempts) (ip : str) (now nf : Q)
    (rest : list (Q * Q)) :
  failed_logins st ip ((now, nf) :: rest) =
    (fst (failed_logins (fst (fst (login st true ip false now nf))) ip rest),
     snd (fst (login st true ip false now nf))
       :: snd (failed_logins (fst (fst (login st true ip false now nf))) ip rest)).
Proof.
  simpl. destruct (login st true ip false now nf) as [[st1 r] v]. simpl.
  destruct (failed_logins st1 ip rest) as [st2 rs]. reflexivity.
Qed.

Lemma countdown_cons (a : Z) (n : nat) :
  countdown a (S n)
  = WrongCredentials (MAX_LOGIN_ATTEMPTS - (a + 1)) :: countdown (a + 1) n.
Proof.
  unfold countdown. simpl. f_equal.
  rewrite <- seq_shift, map_map. apply map_ext. intros i.
  do 2 f_equal. lia.
Qed.

(** Failed attempts below the maximum are counted one by one. *)
Lemma failed_logins_count (ip : str) (times : list (Q * Q)) :
  forall (st : login_attempts) (r : attempts_data) (prev : Q),
    st !! ip = Some r -> counting r prev -> in_a_row prev times ->
    attempts r + Z.of_nat (length times) < MAX_LOGIN_ATTEMPTS ->
    snd (failed_logins st ip times) = countdown (attempts r) (length times) /\
    (forall other, other <> ip ->
       fst (failed_logins st ip times) !! other = st !! other) /\
    exists r', fst (failed_logins st ip times) !! ip = Some r' /\
               attempts r' = attempts r + Z.of_nat (length times) /\
               blocked_until r' = blocked_until r /\
               counting r' (last_failed prev times).
Proof.
  induction times as [|[now nf] rest IH]; intros st r prev Hr Hc Hrow Hlt.
  - simpl. split; [reflexivity|]. split; [reflexivity|].
    exists r. rewrite Z.add_0_r. auto.
  - destruct Hrow as (H1 & H2 & H3 & Hrest). destruct Hc as [Hb Hl].
    rewrite failed_logins_cons.
    assert (Hstep := login_failed_step st ip r now nf Hr).
    cbv zeta in Hstep. rewrite Hstep; clear Hstep.
    2:{ lra. }
    2:{ destruct Hl as [Hl|Hl]; [left; rewrite Hl; exact H3|right; exact Hl]. }
    assert (E : (MAX_LOGIN_ATTEMPTS <=? attempts r + 1) = false).
    { apply Z.leb_gt. simpl length in Hlt. lia. }
    rewrite E. cbn [fst snd].
    set (r1 := {| attempts := attempts r + 1; last_attempt := nf;
                  blocked_until := blocked_until r |}).
    destruct (IH (<[ip := r1]> st) r1 nf) as (Ho & Hoth & r' & Hr' & Ha & Hbu & Hc').
    + apply lookup_insert_eq.
    + split; [simpl; lra|left; reflexivity].
    + exact Hrest.
    + simpl attempts. simpl length in Hlt. lia.
    + split; [|split].
      * rewrite Ho. simpl length. rewrite countdown_cons. reflexivity.
      * intros other Hne. rewrite (Hoth other Hne).
        apply lookup_insert_ne. congruence.
      * exists r'. split; [exact Hr'|]. split; [|split].
        -- rewrite Ha. simpl attempts. simpl length. lia.
        -- rewrite Hbu. reflexivity.
        -- exact Hc'.
Qed.

Lemma failed_logins_app (ip : str) (pre : list (Q * Q)) (x : Q * Q) :
  forall st : login_attempts,
    failed_logins st ip (pre ++ [x]) =
      (fst (fst (login (fst (failed_logins st ip pre)) true ip false
                   (fst x) (snd x))),
       snd (failed_logins st ip pre)
         ++ [snd (fst (login (fst (failed_logins st ip pre)) true ip false
                         (fst x) (snd x)))]).
Proof.
  induction pre as [|[now nf] rest IH]; intros st.
  - destruct x as [now nf]. simpl.
    destruct (login st true ip false now nf) as [[st1 r] v]. reflexivity.
  - rewrite <- app_comm_cons, !failed_logins_cons, IH. reflexivity.
Qed.

Lemma in_a_row_app (pre : list (Q * Q)) (x : Q * Q) (prev : Q) :
  in_a_row prev (pre ++ [x]) ->
  in_a_row prev pre /\ in_a_row (last_failed prev pre) [x].
Proof.
  revert prev. induction pre as [|[now nf] rest IH]; intros prev H.
  - simpl in *. destruct x. tauto.
  - simpl in H. destruct H as (H1 & H2 & H3 & H4).
    destruct (IH nf H4) as [Ha Hb]. simpl. tauto.
Qed.

(** X19.  Failed logins lock the address out.  Take a record on which
    attempts are counted at [prev] (its block is over; its last attempt was
    at [prev] or it counts nothing) and a run of failed logins from the
    address (valid CSRF token, wrong credentials), in time order and no two
    more than [ATTEMPT_RESET_TIME] apart, that brings the count to
    [MAX_LOGIN_ATTEMPTS].  The answers count the remaining attempts down
    and the last one is the block for [LOGIN_BLOCK_DURATION] seconds; the
    record then holds no attempts and [blocked_until] = the time of the
    last failure + [LOGIN_BLOCK_DURATION]; and until that time every login
    from the address, with the right credentials or not, is answered with
    the too-many-attempts page showing [int(blocked_until - t)] seconds,
    [verify_login] is not called and the store does not change. *)
Theorem failed_logins_lock_the_address_out
    (st : login_attempts) (ip : str) (prev : Q)
    (pre : list (Q * Q)) (now now_failed : Q) :
  let r := record_of st ip in
  let times := pre ++ [(now, now_failed)] in
  let until := (now_failed + inject_Z LOGIN_BLOCK_DURATION)%Q in
  counting r prev -> in_a_row prev times ->
  attempts r + Z.of_nat (length times) = MAX_LOGIN_ATTEMPTS ->
  let st' := fst (failed_logins st ip times) in
  snd (failed_logins st ip times)
    = countdown (attempts r) (length pre) ++ [NowBlocked LOGIN_BLOCK_DURATION] /\
  st' !! ip = Some {| attempts := 0; last_attempt := now_failed;
                      blocked_until := until |} /\
  forall (credentials_ok : bool) (t t_failed : Q),
    (t < until)%Q ->
    login st' true ip credentials_ok t t_failed
    = (st', TooManyAttempts (py_int (until - t)), false).
Proof.
  intros r times until Hc Hrow Hlen st'.
  assert (G : forall st0 : login_attempts,
            st0 !! ip = Some r ->
            snd (failed_logins st0 ip times)
              = countdown (attempts r) (length pre)
                  ++ [NowBlocked LOGIN_BLOCK_DURATION] /\
            fst (failed_logins st0 ip times) !! ip
              = Some {| attempts := 0; last_attempt := now_failed;
                        blocked_until := until |}).
  { intros st0 Hr. unfold times in *.
    rewrite length_app in Hlen. simpl length in Hlen.
    destruct (in_a_row_app pre (now, now_failed) prev Hrow) as [Hpre Hlast].
    destruct (failed_logins_count ip pre st0 r prev Hr Hc Hpre)
      as (Ho & _ & r' & Hr' & Ha & Hbu & [Hb' Hl']); [lia|].
    simpl in Hlast. destruct Hlast as (L1 & L2 & L3 & _).
    rewrite failed_logins_app. cbn [fst snd].
    assert (Hstep := login_failed_step _ ip r' now now_failed Hr').
    cbv zeta in Hstep. rewrite Hstep; clear Hstep.
    2:{ lra. }
    2:{ destruct Hl' as [Hl'|Hl']; [left; rewrite Hl'; exact L3|right; exact Hl']. }
    assert (E : (MAX_LOGIN_ATTEMPTS <=? attempts r' + 1) = true).
    { apply Z.leb_le. lia. }
    rewrite E. cbn [fst snd]. rewrite Ho. split; [reflexivity|].
    apply lookup_insert_eq. }
  assert (G' : snd (failed_logins st ip times)
                 = countdown (attempts r) (length pre)
                     ++ [NowBlocked LOGIN_BLOCK_DURATION] /\
               st' !! ip = Some {| attempts := 0; last_attempt := now_failed;
                                   blocked_until := until |}).
  { unfold st'. destruct (st !! ip) as [x|] eqn:E.
    - assert (Er : r = x)
        by (unfold r, record_of, attempts_getitem; rewrite E; reflexivity).
      apply G. rewrite Er. exact E.
    - assert (Er : r = default_attempts_data)
        by (unfold r, record_of, attempts_getitem; rewrite E; reflexivity).
      assert (Hsame : failed_logins st ip times
                      = failed_logins (<[ip := default_attempts_data]> st) ip times).
      { unfold times. destruct pre as [|[n0 f0] rest].
        - simpl. rewrite (login_unknown st ip false now now_failed E).
          reflexivity.
        - rewrite <- app_comm_cons, !failed_logins_cons.
          rewrite (login_unknown st ip false n0 f0 E). reflexivity. }
      rewrite Hsame. apply G. rewrite Er. apply lookup_insert_eq. }
  destruct G' as [Go Gs]. split; [exact Go|]. split; [exact Gs|].
  intros cred t tf Ht. unfold login, check_login_rate_limit, attempts_getitem.
  simpl negb. cbv iota. rewrite Gs. cbn [blocked_until].
  assert (E : Qltb t until = true) by (apply Qltb_lt; exact Ht).
  rewrite E. reflexivity.
Qed.

Lemma failed_logins_lock_the_address_out_witness :
  snd (failed_logins ∅ (lit "10.0.0.1") demo_times)
  = [WrongCredentials 4; WrongCredentials 3; WrongCredentials 2;
     WrongCredentials 1; NowBlocked 300].
Proof.
  assert (H1 : counting (record_of ∅ (lit "10.0.0.1")) (1000 # 1))
    by (split; [vm_compute; discriminate|right; reflexivity]).
  assert (H2 : in_a_row (1000 # 1)
                 (firstn 4 demo_times ++ [(1040 # 1, 1040 # 1)]))
    by (simpl; repeat split; vm_compute; discriminate).
  assert (H3 : attempts (record_of ∅ (lit "10.0.0.1"))
               + Z.of_nat (length (firstn 4 demo_times
                                     ++ [(1040 # 1, 1040 # 1)]))
               = MAX_LOGIN_ATTEMPTS) by reflexivity.
  exact (proj1 (failed_logins_lock_the_address_out ∅ (lit "10.0.0.1")
                  (1000 # 1) (firstn 4 demo_times) (1040 # 1) (1040 # 1)
                  H1 H2 H3)).
Defined.

(** X20.  The rate limit is keyed by what the request says in
    [X-Forwarded-For].  When the header is not empty, the key is the first
    comma-separated entry of the header, stripped, whatever the address of
    the client; and when [_login_attempts] holds no record under that key
    (and the clock is not negative) the login is not refused by the limit,
    whatever the records of other keys: the credentials are verified, the
    answer is the redirect or the wrong-credentials page with
    [MAX_LOGIN_ATTEMPTS - 1] attempts left, and no other record changes. *)
Theorem unseen_forwarded_address_is_not_limited
    (st : login_attempts) (forwarded : str) (client_host : option str)
    (credentials_ok : bool) (now now_failed : Q) :
  forwarded <> [] -> (0 <= now)%Q ->
  let ip := get_client_ip (Some forwarded) client_host in
  st !! ip = None ->
  let '(st', result, verified) :=
    login st true ip credentials_ok now now_failed in
  ip = strip (hd [] (Application.split_on 44%N forwarded)) /\
  verified = true /\
  result = (if credentials_ok then LoggedIn
            else WrongCredentials (MAX_LOGIN_ATTEMPTS - 1)) /\
  forall other : str, other <> ip -> st' !! other = st !! other.
Proof.
  intros Hne Hnow ip Hfresh.
  assert (Eip : ip = strip (hd [] (Application.split_on 44%N forwarded))).
  { unfold ip, get_client_ip. destruct forwarded as [|c rest]; [contradiction|].
    destruct (Application.split_on 44%N (c :: rest)) as [|first l] eqn:E;
      [|reflexivity].
    exfalso. simpl in E. destruct (c =? 44)%N; [discriminate|].
    destruct (Application.split_on 44%N rest); discriminate. }
  unfold login, check_login_rate_limit, attempts_getitem.
  simpl negb. cbv iota. rewrite Hfresh. cbn [blocked_until default_attempts_data].
  assert (E1 : Qltb now 0 = false) by (apply Qltb_ge; exact Hnow).
  rewrite E1. simpl negb. cbv iota.
  set (d := if Qltb _ _ then _ else default_attempts_data).
  assert (Ed : d = default_attempts_data)
    by (unfold d;
        destruct (Qltb (inject_Z ATTEMPT_RESET_TIME)
                    (now - last_attempt default_attempts_data));
        reflexivity).
  rewrite Ed. rewrite insert_insert_eq.
  destruct credentials_ok.
  - split; [exact Eip|]. split; [reflexivity|]. split; [reflexivity|].
    intros other Ho. unfold record_successful_login.
    rewrite lookup_delete_ne by congruence.
    apply lookup_insert_ne. congruence.
  - unfold record_failed_login, attempts_getitem. rewrite lookup_insert_eq.
    simpl. split; [exact Eip|]. split; [reflexivity|]. split; [reflexivity|].
    intros other Ho. rewrite insert_insert_eq.
    apply lookup_insert_ne. congruence.
Qed.

Lemma unseen_forwarded_address_is_not_limited_witness :
  snd (fst (login (fst (failed_logins ∅ (lit "10.0.0.1") demo_times)) true
              (get_client_ip (Some (lit "10.0.0.2, 10.0.0.1"))
                 (Some (lit "10.0.0.1")))
              false (1041 # 1) (1041 # 1)))
  = WrongCredentials 4.
Proof.
  pose proof (unseen_forwarded_address_is_not_limited
                (fst (failed_logins ∅ (lit "10.0.0.1") demo_times))
                (lit "10.0.0.2, 10.0.0.1") (Some (lit "10.0.0.1")) false
                (1041 # 1) (1041 # 1)) as H.
  cbv zeta in H.
  destruct (login _ true _ false (1041 # 1) (1041 # 1)) as [[st' result] v].
  destruct H as (_ & _ & H & _).
  - discriminate.
  - vm_compute; discriminate.
  - vm_compute. reflexivity.
  - exact H.
Defined.

End AdminAuthFacts.

(** ** The CSRF token *)

Module CsrfFacts.
Import PyStr Csrf.

Lemma str_eqb_true (a b : str) : str_eqb a b = true <-> a = b.
Proof. unfold str_eqb. apply bool_decide_eq_true. Qed.

(** X21.  The CSRF token round trip.  With [secrets.token_hex] giving a
    non-empty ASCII text, and a stored token, if any, of that kind: the
    token that [generate_csrf_token] returns is accepted by
    [validate_csrf_token] on the resulting session; generating again
    returns the same token and leaves the session as it is; a submitted
    text is accepted exactly when it is that token; a non-empty submitted
    text with a non-ASCII character makes [secrets.compare_digest] raise
    [TypeError] instead of returning [False]; and a session without token
    accepts nothing. *)
Theorem csrf_token_round_trip (s : session) (token_hex other_hex : str) :
  token_hex <> [] -> is_ascii token_hex = true ->
  (forall t, s = Some t -> t <> [] /\ is_ascii t = true) ->
  let s' := fst (generate_csrf_token s token_hex) in
  let token := snd (generate_csrf_token s token_hex) in
  validate_csrf_token s' token = Returned true /\
  generate_csrf_token s' other_hex = (s', token) /\
  (forall submitted : str,
     validate_csrf_token s' submitted = Returned true <-> submitted = token) /\
  (forall submitted : str,
     submitted <> [] -> is_ascii submitted = false ->
     validate_csrf_token s' submitted = TypeError) /\
  (forall submitted : str, validate_csrf_token None submitted = Returned false).
Proof.
  intros Hne Hascii Hs.
  assert (G : exists t, generate_csrf_token s token_hex = (Some t, t) /\
                        t <> [] /\ is_ascii t = true).
  { destruct s as [t|]; simpl.
    - exists t. split; [reflexivity|]. apply Hs. reflexivity.
    - exists token_hex. auto. }
  destruct G as (t & -> & Ht & Ha). cbn [fst snd].
  assert (V : forall x, x <> [] ->
            validate_csrf_token (Some t) x
            = if is_ascii x then Returned (str_eqb t x) else TypeError).
  { intros x Hx. unfold validate_csrf_token, compare_digest.
    destruct t as [|c r]; [contradiction|].
    destruct x as [|y l]; [contradiction|].
    change (is_empty (c :: r)) with false.
    change (is_empty (y :: l)) with false.
    cbn [orb]. rewrite Ha. reflexivity. }
  repeat split.
  - rewrite (V t Ht), Ha. f_equal. apply str_eqb_true. reflexivity.
  - destruct submitted as [|y l].
    + destruct t; [contradiction|]. simpl. discriminate.
    + rewrite V by discriminate.
      destruct (is_ascii (y :: l)); [|discriminate].
      intros H. inversion H as [E]. apply str_eqb_true in E. congruence.
  - intros ->. rewrite (V t Ht), Ha. f_equal. apply str_eqb_true. reflexivity.
  - intros submitted Hx Hn. rewrite (V submitted Hx), Hn. reflexivity.
Qed.

Lemma csrf_token_round_trip_witness :
  validate_csrf_token (fst (generate_csrf_token None (lit "0f3a")))
    (snd (generate_csrf_token None (lit "0f3a"))) = Returned true.
Proof.
  apply (proj1 (csrf_token_round_trip None (lit "0f3a") (lit "ffff")
                  ltac:(discriminate) eq_refl
                  ltac:(intros t H; discriminate H))).
Defined.

End CsrfFacts.

(** ** The route that starts a broadcast *)

Module BroadcastRoutesFacts.
Import Broadcasts BroadcastFacts BroadcastRoutes.

(** X22.  A broadcast that is being sent cannot be started again.  For an
    existing job, after the start update and any number of loop iterations
    of [send_broadcast_task], the route [send_broadcast] answers with the
    redirect and adds no task, whether the CSRF token is valid or not.
    Once the task has finished, the route with a valid token adds the task
    again: a sent broadcast can be sent once more. *)
Theorem running_broadcast_is_not_started_again
    (send_ok : nat -> Z -> bool) (broadcast_id : Z) (db0 : table)
    (b : Broadcast) (user_ids : list Z) (now : Z) :
  db0 !! broadcast_id = Some b ->
  (forall (n : nat) (valid : bool),
     send_broadcast (Csrf.Returned valid)
       (db (after_iterations send_ok broadcast_id db0 user_ids n)) broadcast_id
     = Redirect false) /\
  send_broadcast (Csrf.Returned true)
    (db (send_broadcast_task send_ok broadcast_id db0 user_ids now))
    broadcast_id
  = Redirect true.
Proof.
  intros Hb.
  set (N := Z.of_nat (length user_ids)).
  assert (Hs : update_start db0 broadcast_id N !! broadcast_id =
    Some {| status := SENDING; sent_count := sent_count b;
            failed_count := failed_count b; total_count := N;
            sent_at := sent_at b |}).
  { unfold update_start. rewrite lookup_alter_eq, Hb. reflexivity. }
  split.
  - intros n valid. unfold after_iterations.
    rewrite firstn_enumerate_from. fold N.
    pose proof (loop_counts send_ok broadcast_id (firstn n user_ids) 0%nat
                  {| db := update_start db0 broadcast_id N; sent := 0;
                     failed := 0; attempted := [] |} _ Hs) as H.
    cbv zeta in H. destruct H as (_ & _ & _ & b' & Hb' & E1 & _).
    cbn [db] in Hb'. unfold send_broadcast.
    destruct valid; [|reflexivity].
    rewrite Hb', E1. reflexivity.
  - unfold send_broadcast_task. rewrite Hb. cbv zeta. fold N.
    pose proof (loop_counts send_ok broadcast_id user_ids 0%nat
                  {| db := update_start db0 broadcast_id N; sent := 0;
                     failed := 0; attempted := [] |} _ Hs) as H.
    cbv zeta in H. destruct H as (_ & _ & _ & b' & Hb' & _).
    cbn [db] in *. unfold send_broadcast, update_final.
    rewrite lookup_alter_eq, Hb'. reflexivity.
Qed.

Lemma running_broadcast_is_not_started_again_witness :
  send_broadcast (Csrf.Returned true)
    (db (after_iterations demo_send_ok 1 demo_table [11; 22; 33] 2)) 1
  = Redirect false.
Proof.
  apply (proj1 (running_broadcast_is_not_started_again demo_send_ok 1
                  demo_table
                  {| status := DRAFT; sent_count := 0; failed_count := 0;
                     total_count := 0; sent_at := None |}
                  [11; 22; 33] 5 eq_refl) 2%nat true).
Defined.

End BroadcastRoutesFacts.
